(** * The on-demand type resolver of the editor plugin

    A shallow embedding of the resolver that lives in the entry script of
    the editor plugin: the registered-file corpus ([loadedFiles], [addFileToMonaco]),
    the declaration crawler ([loadDtsFromDir]), the package type loader
    ([loadPackageTypes], [loadAllNodeModulesTypes]), the alias resolver
    ([resolvePathAlias]), the recursive source loader ([loadSourceFile]),
    the configuration loader ([loadTsConfig]), the initialization
    ([loadProjectSources], [initTypeSystem]) and the part of the editor that
    starts a load ([detectLanguage], [setContent]).

    Conventions of the embedding.
    - A JavaScript string is a [string]; one [ascii] stands for one UTF-16
      code unit in the range 0..255.  Texts using code units above 255 are
      outside the model.
    - [loadedFiles : Set<string>] is a [gset string]; the calls made to the
      type-checking engine are kept as lists, in call order.
    - A promise that rejects (an exception under [await]) is [None]; the
      filesystem of the host is a record of functions and does not change
      while the resolver runs.
    - A regular expression is a value of [regex], run by a backtracking
      matcher that lists the outcomes in the priority order of the engine. *)

From Stdlib Require Import String Ascii List ZArith Lia Bool.
From stdpp Require Import base gmap sets list strings.
Import ListNotations.
Open Scope string_scope.

Set Warnings "-clear-no-such-hyp".

(** ** String primitives *)

Module Str.

(** [s.startsWith(pre)]. *)
Definition startsWith (s pre : string) : bool := String.prefix pre s.

Fixpoint rev_string (acc s : string) : string :=
  match s with
  | EmptyString => acc
  | String c s' => rev_string (String c acc) s'
  end.

(** [s.endsWith(suf)]. *)
Definition endsWith (s suf : string) : bool :=
  String.prefix (rev_string "" suf) (rev_string "" s).

(** [s.split(sep)] for a separator of one code unit: never empty. *)
Fixpoint split (sep : ascii) (s : string) : list string :=
  match s with
  | EmptyString => [EmptyString]
  | String c s' =>
      if Ascii.eqb c sep then EmptyString :: split sep s'
      else match split sep s' with
           | seg :: segs => String c seg :: segs
           | [] => [String c EmptyString]
           end
  end.

(** [l.join(sep)]. *)
Definition join (sep : string) (l : list string) : string :=
  String.concat sep l.

(** [l.slice(0, -1)]: all but the last element. *)
Definition dropLast {A} (l : list A) : list A := removelast l.

(** First [n] code units of [s]. *)
Fixpoint take (n : nat) (s : string) : string :=
  match n, s with
  | S n', String c s' => String c (take n' s')
  | _, _ => EmptyString
  end.

Fixpoint drop (n : nat) (s : string) : string :=
  match n, s with
  | S n', String _ s' => drop n' s'
  | _, _ => s
  end.

(** Splits [s] at the first occurrence of [pat]: the text before it and
    the text after it. *)
Fixpoint cut (pat s : string) : option (string * string) :=
  if String.prefix pat s then Some (EmptyString, drop (String.length pat) s)
  else match s with
       | EmptyString => None
       | String c s' =>
           match cut pat s' with
           | Some (before, after) => Some (String c before, after)
           | None => None
           end
       end.

(** The replacement text of [String.prototype.replace] when the pattern
    is a string: [$$] is a dollar sign, [$&] the matched text, [$`] the
    text before the match and [$'] the text after it; any other dollar
    sign stands for itself. *)
Fixpoint getSubstitution (matched before after rep : string) : string :=
  match rep with
  | EmptyString => EmptyString
  | String "$" (String "$" rest) =>
      String "$" (getSubstitution matched before after rest)
  | String "$" (String "&" rest) =>
      matched ++ getSubstitution matched before after rest
  | String "$" (String "`" rest) =>
      before ++ getSubstitution matched before after rest
  | String "$" (String "'" rest) =>
      after ++ getSubstitution matched before after rest
  | String c rest => String c (getSubstitution matched before after rest)
  end.

(** [s.replace(pat, rep)] with a string pattern: the first occurrence
    only; [s] itself when [pat] does not occur. *)
Definition replaceFirst (pat rep s : string) : string :=
  match cut pat s with
  | Some (before, after) =>
      before ++ getSubstitution pat before after rep ++ after
  | None => s
  end.

End Str.

(** ** Regular expressions *)

Module Re.

(** The fragment of the regular-expression language that the resolver
    uses: literals, character classes, a greedy star over a class,
    sequence, ordered alternative, one capture group and the end anchor. *)
Inductive regex : Type :=
| Eps
| Chr (c : ascii)
| Cls (p : ascii -> bool)
| Star (p : ascii -> bool)
| Seq (r1 r2 : regex)
| Alt (r1 r2 : regex)
| Cap (r : regex)
| Eos.

Definition Plus (p : ascii -> bool) : regex := Seq (Cls p) (Star p).
Definition Opt (r : regex) : regex := Alt r Eps.

Fixpoint Lit (s : string) : regex :=
  match s with
  | EmptyString => Eps
  | String c s' => Seq (Chr c) (Lit s')
  end.

Fixpoint seqs (rs : list regex) : regex :=
  match rs with
  | [] => Eps
  | [r] => r
  | r :: rs' => Seq r (seqs rs')
  end.

Definition codeIn (codes : list nat) (c : ascii) : bool :=
  existsb (Nat.eqb (nat_of_ascii c)) codes.

(** [\s] on code units below 256: tab, line feed, vertical tab, form
    feed, carriage return, space and no-break space. *)
Definition isSpace : ascii -> bool := codeIn [9; 10; 11; 12; 13; 32; 160]%nat.

(** [\w]: letters, digits and the underscore. *)
Definition isWord (c : ascii) : bool :=
  let n := nat_of_ascii c in
  (((65 <=? n) && (n <=? 90)) || ((97 <=? n) && (n <=? 122))
   || ((48 <=? n) && (n <=? 57)) || (n =? 95))%nat.

(** [.]: anything but a line terminator. *)
Definition isDot (c : ascii) : bool := negb (codeIn [10; 13]%nat c).

(** The double quote, code unit 34. *)
Definition dquote : ascii := Eval cbv in ascii_of_nat 34.

Definition isQuote (c : ascii) : bool := Ascii.eqb c "'" || Ascii.eqb c dquote.
Definition notQuote (c : ascii) : bool := negb (isQuote c).
Definition notChar (x c : ascii) : bool := negb (Ascii.eqb c x).

(** The texts left after a greedy run over the class [p], the longest
    run first, each shorter run after it. *)
Fixpoint starRuns (p : ascii -> bool) (s : string) : list string :=
  match s with
  | EmptyString => [EmptyString]
  | String c s' => if p c then starRuns p s' ++ [s] else [s]
  end.

(** An outcome is the text left to match and the capture so far. *)
Definition outcome : Type := string * option string.

(** All the ways [r] matches a prefix of [s], in the order in which the
    backtracking engine tries them; the engine returns the first. *)
Fixpoint run (r : regex) (s : string) (cap : option string) : list outcome :=
  match r with
  | Eps => [(s, cap)]
  | Chr c =>
      match s with
      | String c' s' => if Ascii.eqb c' c then [(s', cap)] else []
      | EmptyString => []
      end
  | Cls p =>
      match s with
      | String c' s' => if p c' then [(s', cap)] else []
      | EmptyString => []
      end
  | Star p => List.map (fun rest => (rest, cap)) (starRuns p s)
  | Seq r1 r2 =>
      List.flat_map (fun o : outcome => run r2 (fst o) (snd o)) (run r1 s cap)
  | Alt r1 r2 => run r1 s cap ++ run r2 s cap
  | Cap r1 =>
      List.map
        (fun o : outcome =>
           (fst o, Some (Str.take (String.length s - String.length (fst o)) s)))
        (run r1 s cap)
  | Eos =>
      match s with
      | EmptyString => [(s, cap)]
      | String _ _ => []
      end
  end.

(** One attempt at the start of [s]: the number of code units matched
    and the capture group ([undefined] is [None]). *)
Definition matchHere (r : regex) (s : string) : option (nat * option string) :=
  match run r s None with
  | (rest, cap) :: _ => Some ((String.length s - String.length rest)%nat, cap)
  | [] => None
  end.

(** The loop [while ((m = re.exec(s)) !== null)] of a global regular
    expression: the captures [m[1]] of the successive matches.  An attempt
    is made at each index from [lastIndex] on; after a match [lastIndex]
    is the end of the match, so the next [skip] code units are passed
    over.  An empty match would leave [lastIndex] in place; none of the
    expressions of the resolver matches the empty text. *)
Fixpoint execAll (r : regex) (skip : nat) (s : string) : list (option string) :=
  match skip with
  | S k =>
      match s with
      | EmptyString => []
      | String _ s' => execAll r k s'
      end
  | O =>
      match matchHere r s with
      | Some (n, cap) =>
          cap :: match s with
                 | EmptyString => []
                 | String _ s' => execAll r (n - 1) s'
                 end
      | None =>
          match s with
          | EmptyString => []
          | String _ s' => execAll r 0 s'
          end
      end
  end.

End Re.

Import Re.

(** The expression of [loadSourceFile], where Q stands for the class of
    the two quote characters (single and double) and NQ for its complement:
    [/(?:import|export)\s+(?:(?:\{[^}]*\}|\*\s+as\s+\w+|\w+)\s+from\s+)?Q(NQ+)Q/g]. *)
Definition importRegex : regex :=
  seqs
    [ Alt (Lit "import") (Lit "export");
      Plus isSpace;
      Opt (seqs
             [ Alt (seqs [Chr "{"; Star (notChar "}"); Chr "}"])
                 (Alt (seqs [Chr "*"; Plus isSpace; Lit "as"; Plus isSpace; Plus isWord])
                      (Plus isWord));
               Plus isSpace; Lit "from"; Plus isSpace ]);
      Cls isQuote;
      Cap (Plus notQuote);
      Cls isQuote ].

(** The specifiers [match[1]] met by the loop of [loadSourceFile], in the
    order of the text.  The group takes part in every match, so a capture
    is never [undefined]. *)
Definition extractSpecifiers (content : string) : list string :=
  List.map (fun cap => match cap with Some s => s | None => "" end)
           (execAll importRegex 0 content).


(** ** The host and the session state *)

(** An entry of a directory listing. *)
Record DirEntry : Type := { name : string; isDirectory : bool }.

(** [window.gitton.fs].  [None] is a rejected promise. *)
Record FileSystem : Type := {
  fs_exists : string -> option bool;
  fs_readFile : string -> option string;
  fs_readdir : string -> option (list DirEntry)
}.

(** [loadedFiles] and the two engines fed by [addExtraLib]: each call is
    recorded as its arguments [(content, uri)], oldest first. *)
Record State : Type := {
  loadedFiles : gset string;
  tsExtraLibs : list (string * string);
  jsExtraLibs : list (string * string)
}.

(** The state of a fresh session. *)
Definition initState : State :=
  {| loadedFiles := ∅; tsExtraLibs := []; jsExtraLibs := [] |}.

Definition fileUri (filePath : string) : string := "file:///" ++ filePath.

(** [addFileToMonaco(filePath, content)]. *)
Definition addFileToMonaco (filePath content : string) (st : State) : State :=
  if decide (filePath ∈ loadedFiles st) then st
  else
    let uri := fileUri filePath in
    {| loadedFiles := {[filePath]} ∪ loadedFiles st;
       tsExtraLibs := tsExtraLibs st ++ [(content, uri)];
       jsExtraLibs := jsExtraLibs st ++ [(content, uri)] |}.

(** How often [addExtraLib] was called on the TypeScript engine with the
    uri of [filePath]. *)
Definition registrations (filePath : string) (st : State) : nat :=
  List.length (List.filter (fun e => String.eqb (snd e) (fileUri filePath)) (tsExtraLibs st)).

(** The paths fed to the engine, oldest first. *)
Definition registeredUris (st : State) : list string := List.map snd (tsExtraLibs st).

(** ** Path arithmetic of [loadSourceFile] *)

(** [s.replace(/\/\.\//g, '/')]. *)
Fixpoint collapseDotSlash (s : string) : string :=
  match s with
  | String "/" (String "." (String "/" rest)) => String "/" (collapseDotSlash rest)
  | String c rest => String c (collapseDotSlash rest)
  | EmptyString => EmptyString
  end.

(** [s.replace(/^\.\//, '')]. *)
Definition stripDotSlash (s : string) : string :=
  match s with
  | String "." (String "/" rest) => rest
  | _ => s
  end.

(** The callback of the [reduce] that normalizes a path: [acc.pop()] on
    [..] (nothing happens on an empty array), nothing on [.], [acc.push]
    otherwise. *)
Definition normalizeStep (acc : list string) (part : string) : list string :=
  if String.eqb part ".." then Str.dropLast acc
  else if negb (String.eqb part ".") then acc ++ [part]
  else acc.

Definition normalizeParts (parts : list string) : list string :=
  fold_left normalizeStep parts [].

(** [p.split('/').reduce(..., []).join('/')]. *)
Definition normalizePath (p : string) : string :=
  Str.join "/" (normalizeParts (Str.split "/" p)).

(** [fullPath.split('/').slice(0, -1).join('/')]. *)
Definition dirOf (fullPath : string) : string :=
  Str.join "/" (Str.dropLast (Str.split "/" fullPath)).

(** ** The alias resolver *)

Definition isRegExpSpecial (c : ascii) : bool :=
  existsb (Ascii.eqb c)
    ["."; "*"; "+"; "?"; "^"; "$"; "{"; "}"; "("; ")"; "|"; "["; "]"; "\"]%char.

(** [s.replace(/[.*+?^${}()|[\]\\]/g, '\\$&')]. *)
Fixpoint escapeRegExp (s : string) : string :=
  match s with
  | EmptyString => EmptyString
  | String c rest =>
      if isRegExpSpecial c then String "\" (String c (escapeRegExp rest))
      else String c (escapeRegExp rest)
  end.

(** The pattern text handed to [new RegExp] for an alias. *)
Definition aliasRegExpSource (alias : string) : string :=
  let aliasPattern := Str.replaceFirst "*" "(.*)" alias in
  "^" ++ Str.replaceFirst "\(\.\*\)" "(.*)" (escapeRegExp aliasPattern) ++ "$".

(** [new RegExp(src)] on the pattern texts that [aliasRegExpSource] can
    produce: an escaped character, the capture group around a greedy run of
    any characters, the closing [$], or a character that stands for itself. *)
Fixpoint parsePattern (src : string) : regex :=
  match src with
  | EmptyString => Eps
  | String "\" (String c rest) => Seq (Chr c) (parsePattern rest)
  | String "(" (String "." (String "*" (String ")" rest))) =>
      Seq (Cap (Star isDot)) (parsePattern rest)
  | String "$" EmptyString => Eos
  | String c rest => Seq (Chr c) (parsePattern rest)
  end.

(** The pattern text opens with [^]: the expression can only match at
    index 0, and [String.prototype.match] amounts to one attempt there. *)
Definition newRegExp (src : string) : regex :=
  match src with
  | String "^" body => parsePattern body
  | _ => parsePattern src
  end.

(** [importPath.match(regex)]: [None] is [null]; of a match only [match[1]]
    is kept. *)
Definition stringMatch (re : regex) (importPath : string) : option (option string) :=
  match matchHere re importPath with
  | Some (_, cap) => Some cap
  | None => None
  end.

(** [x || ''] on a capture. *)
Definition orEmpty (cap : option string) : string :=
  match cap with Some s => s | None => "" end.

Section Resolver.

(** [window.gitton]: [None] when it is undefined. *)
Variable gitton : option FileSystem.
(** [tsconfigPaths] in the order of [Object.entries], and [tsconfigBaseUrl]. *)
Variable tsconfigPaths : list (string * list string).
Variable tsconfigBaseUrl : string.
(** [JSON.parse] of a manifest followed by [pkgJson.types || pkgJson.typings]:
    [None] when parsing or the property access throws, [Some None] when
    the result is falsy. *)
Variable manifestTypes : string -> option (option string).

(** The path computed from one target template. *)
Definition aliasTargetPath (captured target : string) : string :=
  let resolvedPath := Str.replaceFirst "*" captured target in
  let fullPath :=
    if String.eqb tsconfigBaseUrl "" then resolvedPath
    else tsconfigBaseUrl ++ "/" ++ resolvedPath in
  stripDotSlash fullPath.

(** The outer loop of [resolvePathAlias] over the entries of the table.
    The inner loop returns in its first iteration, so it only runs to its
    end when [targets] is empty. *)
Fixpoint resolvePathAliasIn (entries : list (string * list string))
         (importPath : string) : option string :=
  match entries with
  | [] => None
  | (alias, targets) :: rest =>
      match stringMatch (newRegExp (aliasRegExpSource alias)) importPath with
      | Some m =>
          let captured := orEmpty m in
          match targets with
          | target :: _ => Some (aliasTargetPath captured target)
          | [] => resolvePathAliasIn rest importPath
          end
      | None => resolvePathAliasIn rest importPath
      end
  end.

(** [resolvePathAlias(importPath)]; [None] is [null]. *)
Definition resolvePathAlias (importPath : string) : option string :=
  resolvePathAliasIn tsconfigPaths importPath.

(** ** The recursive source loader *)

Definition extensions : list string :=
  [""; ".ts"; ".tsx"; ".js"; ".jsx";
   "/index.ts"; "/index.tsx"; "/index.js"; "/index.jsx"].

(** The recursion bound of [loadSourceFile]. *)
Definition depthBound : nat := 5.

(** The test that skips a specifier ("handled separately"). *)
Definition isExternal (importPath : string) : bool :=
  negb (Str.startsWith importPath ".")
  && negb (Str.startsWith importPath "@/")
  && negb (Str.startsWith importPath "~/").

(** The body of the loop over the matches, up to the recursive call: the
    normalized [resolvedPath], or [None] where the body says [continue]. *)
Definition resolveImport (fullPath importPath : string) : option string :=
  if isExternal importPath then None
  else if Str.startsWith importPath "." then
    let dir := dirOf fullPath in
    Some (normalizePath (collapseDotSlash (dir ++ "/" ++ importPath)))
  else
    match resolvePathAlias importPath with
    | Some aliasResolved =>
        if String.eqb aliasResolved "" then None
        else Some (normalizePath aliasResolved)
    | None => None
    end.

Section Body.

(** The recursive call; [None] when the recursion budget of the model
    is used up. *)
Variable self : string -> nat -> State -> option State.

(** The [while] loop over the matches of the import expression. *)
Fixpoint loadImports (fullPath : string) (depth : nat)
         (specifiers : list string) (st : State) : option State :=
  match specifiers with
  | [] => Some st
  | importPath :: rest =>
      match resolveImport fullPath importPath with
      | None => loadImports fullPath depth rest st
      | Some resolvedPath =>
          match self resolvedPath (S depth) st with
          | Some st' => loadImports fullPath depth rest st'
          | None => None
          end
      end
  end.

(** The [for] loop over the extensions.  A rejected [exists] or
    [readFile] lands in the [catch] and the loop goes on. *)
Fixpoint tryExtensions (fs : FileSystem) (filePath : string) (depth : nat)
         (exts : list string) (st : State) : option State :=
  match exts with
  | [] => Some st
  | ext :: exts' =>
      let fullPath := filePath ++ ext in
      match fs_exists fs fullPath with
      | Some true =>
          match fs_readFile fs fullPath with
          | Some content =>
              loadImports fullPath depth (extractSpecifiers content)
                          (addFileToMonaco fullPath content st)
          | None => tryExtensions fs filePath depth exts' st
          end
      | _ => tryExtensions fs filePath depth exts' st
      end
  end.

Definition loadSourceFileBody (filePath : string) (depth : nat) (st : State)
  : option State :=
  match gitton with
  | None => Some st
  | Some fs =>
      if (depthBound <? depth)%nat then Some st
      else if decide (filePath ∈ loadedFiles st) then Some st
      else tryExtensions fs filePath depth extensions st
  end.

End Body.

(** [loadSourceFile(filePath, depth)] with a budget of nested calls. *)
Fixpoint loadSourceFileFuel (fuel : nat) (filePath : string) (depth : nat)
         (st : State) : option State :=
  match fuel with
  | O => None
  | S fuel' => loadSourceFileBody (loadSourceFileFuel fuel') filePath depth st
  end.

(** Calls nest at most [depthBound + 2] deep, whatever the depth; see
    [loadSourceFileFuel_enough]. *)
Definition loadSourceFile (filePath : string) (depth : nat) (st : State) : State :=
  match loadSourceFileFuel (depthBound + 2) filePath depth st with
  | Some st' => st'
  | None => st
  end.

(** ** The declaration crawler *)

Definition heavyDirectories : list string :=
  ["test"; "tests"; "__tests__"; "examples"; "docs"; ".git"].

(** [500 * 1024]. *)
Definition sizeThreshold : Z := 500 * 1024.

Definition entryPath (dirPath : string) (entry : DirEntry) : string :=
  if String.eqb dirPath "" then name entry else dirPath ++ "/" ++ name entry.

Section CrawlBody.

Variable self : string -> nat -> nat -> State -> option State.

(** The [for] loop over the entries of a listing. *)
Fixpoint crawlEntries (fs : FileSystem) (dirPath : string)
         (maxDepth currentDepth : nat) (entries : list DirEntry)
         (st : State) : option State :=
  match entries with
  | [] => Some st
  | entry :: rest =>
      if Str.startsWith (name entry) "." then
        crawlEntries fs dirPath maxDepth currentDepth rest st
      else
        let fullPath := entryPath dirPath entry in
        if isDirectory entry then
          if existsb (String.eqb (name entry)) heavyDirectories then
            crawlEntries fs dirPath maxDepth currentDepth rest st
          else
            match self fullPath maxDepth (S currentDepth) st with
            | Some st' => crawlEntries fs dirPath maxDepth currentDepth rest st'
            | None => None
            end
        else if Str.endsWith (name entry) ".d.ts" then
          match fs_readFile fs fullPath with
          | Some content =>
              if (Z.of_nat (String.length content) <? sizeThreshold)%Z then
                crawlEntries fs dirPath maxDepth currentDepth rest
                             (addFileToMonaco fullPath content st)
              else crawlEntries fs dirPath maxDepth currentDepth rest st
          | None => crawlEntries fs dirPath maxDepth currentDepth rest st
          end
        else crawlEntries fs dirPath maxDepth currentDepth rest st
  end.

Definition loadDtsFromDirBody (dirPath : string) (maxDepth currentDepth : nat)
           (st : State) : option State :=
  match gitton with
  | None => Some st
  | Some fs =>
      if (maxDepth <? currentDepth)%nat then Some st
      else
        match fs_readdir fs dirPath with
        | Some entries => crawlEntries fs dirPath maxDepth currentDepth entries st
        | None => Some st
        end
  end.

End CrawlBody.

Fixpoint loadDtsFromDirFuel (fuel : nat) (dirPath : string)
         (maxDepth currentDepth : nat) (st : State) : option State :=
  match fuel with
  | O => None
  | S fuel' =>
      loadDtsFromDirBody (loadDtsFromDirFuel fuel') dirPath maxDepth currentDepth st
  end.

(** [loadDtsFromDir(dirPath, maxDepth, currentDepth)]; see
    [loadDtsFromDirFuel_enough] for the budget. *)
Definition loadDtsFromDir (dirPath : string) (maxDepth currentDepth : nat)
           (st : State) : State :=
  match loadDtsFromDirFuel (S (maxDepth + 1 - currentDepth))
                           dirPath maxDepth currentDepth st with
  | Some st' => st'
  | None => st
  end.

(** ** The package type loader *)

(** How an [async] function that may reject ends, with the state it
    leaves behind. *)
Inductive completion : Type :=
| Returned (st : State)
| Threw (st : State).

Definition stateOf (c : completion) : State :=
  match c with Returned st => st | Threw st => st end.

(** The [try] block of [loadPackageTypes] around the manifest; every
    failure inside it is swallowed by its [catch]. *)
Definition loadManifestTypes (fs : FileSystem) (packagePath : string)
           (st : State) : State :=
  match fs_readFile fs (packagePath ++ "/package.json") with
  | Some pkgJsonContent =>
      match manifestTypes pkgJsonContent with
      | Some (Some typesFile) =>
          let typesPath := packagePath ++ "/" ++ typesFile in
          match fs_exists fs typesPath with
          | Some true =>
              match fs_readFile fs typesPath with
              | Some content => addFileToMonaco typesPath content st
              | None => st
              end
          | _ => st
          end
      | _ => st
      end
  | None => st
  end.

(** [loadPackageTypes(packageName)]. *)
Definition loadPackageTypes (packageName : string) (st : State) : completion :=
  match gitton with
  | None => Returned st
  | Some fs =>
      let typesPath := "node_modules/@types/" ++ packageName in
      match fs_exists fs typesPath with
      | None => Threw st
      | Some true => Returned (loadDtsFromDir typesPath 3 0 st)
      | Some false =>
          let packagePath := "node_modules/" ++ packageName in
          match fs_exists fs packagePath with
          | None => Threw st
          | Some true =>
              Returned (loadDtsFromDir packagePath 2 0
                          (loadManifestTypes fs packagePath st))
          | Some false => Returned st
          end
      end
  end.

Definition priorityPackages : list string :=
  ["react"; "react-dom"; "node"; "react-router-dom"; "react-i18next";
   "lucide-react"; "sonner"].

(** A loop of awaited [loadPackageTypes] calls; a rejection ends it. *)
Fixpoint loadPackages (names : list string) (st : State) : completion :=
  match names with
  | [] => Returned st
  | pkg :: rest =>
      match loadPackageTypes pkg st with
      | Returned st' => loadPackages rest st'
      | Threw st' => Threw st'
      end
  end.

(** [loadAllNodeModulesTypes()]: the priority list, then every directory
    of [node_modules/@types] outside that list; the second loop sits in
    a [try] whose [catch] only logs. *)
Definition loadAllNodeModulesTypes (st : State) : completion :=
  match gitton with
  | None => Returned st
  | Some fs =>
      match loadPackages priorityPackages st with
      | Threw st1 => Threw st1
      | Returned st1 =>
          let typesDir := "node_modules/@types" in
          match fs_exists fs typesDir with
          | Some true =>
              match fs_readdir fs typesDir with
              | Some entries =>
                  Returned
                    (stateOf
                       (loadPackages
                          (List.map name
                             (List.filter
                                (fun entry =>
                                   isDirectory entry
                                   && negb (existsb (String.eqb (name entry))
                                                    priorityPackages))
                                entries))
                          st1))
              | None => Returned st1
              end
          | _ => Returned st1
          end
      end
  end.

End Resolver.


(** ** Language detection and the editor *)

(** [String.prototype.toLowerCase] on one code unit below 256: the
    letters A to Z, and the accented capitals 192 to 222 except the
    multiplication sign 215, move up by 32. *)
Definition toLowerCaseUnit (c : ascii) : ascii :=
  let n := nat_of_ascii c in
  if (((65 <=? n) && (n <=? 90))
      || ((192 <=? n) && (n <=? 222) && negb (n =? 215)))%nat
  then ascii_of_nat (n + 32)
  else c.

Fixpoint toLowerCase (s : string) : string :=
  match s with
  | EmptyString => EmptyString
  | String c s' => String (toLowerCaseUnit c) (toLowerCase s')
  end.

(** The object literal [languageMap] of [detectLanguage]. *)
Definition languageMap : list (string * string) :=
  [ ("ts", "typescript"); ("tsx", "typescript"); ("js", "javascript");
    ("jsx", "javascript"); ("mjs", "javascript"); ("cjs", "javascript");
    ("json", "json"); ("html", "html"); ("htm", "html"); ("css", "css");
    ("scss", "scss"); ("less", "less"); ("md", "markdown"); ("mdx", "markdown");
    ("yaml", "yaml"); ("yml", "yaml"); ("xml", "xml"); ("svg", "xml");
    ("py", "python"); ("rb", "ruby"); ("rs", "rust"); ("go", "go");
    ("java", "java"); ("kt", "kotlin"); ("swift", "swift"); ("c", "c");
    ("cpp", "cpp"); ("h", "c"); ("hpp", "cpp"); ("cs", "csharp"); ("php", "php");
    ("sh", "shell"); ("bash", "shell"); ("zsh", "shell"); ("sql", "sql");
    ("graphql", "graphql"); ("gql", "graphql"); ("dockerfile", "dockerfile");
    ("toml", "ini"); ("ini", "ini"); ("env", "ini"); ("gitignore", "ini") ].

(** The property names of [Object.prototype], which every object literal
    inherits. *)
Definition objectPrototypeKeys : list string :=
  [ "constructor"; "__defineGetter__"; "__defineSetter__"; "hasOwnProperty";
    "__lookupGetter__"; "__lookupSetter__"; "isPrototypeOf";
    "propertyIsEnumerable"; "toString"; "valueOf"; "__proto__"; "toLocaleString" ].

(** What [languageMap[ext] || 'plaintext'] evaluates to: a language
    identifier, or the member of [Object.prototype] found under [ext], which
    is an object and not a string. *)
Inductive LanguageValue : Type :=
| LanguageId (id : string)
| PrototypeMember (key : string).

(** The own properties of an object literal. *)
Fixpoint ownProperty (table : list (string * string)) (key : string) : option string :=
  match table with
  | [] => None
  | (k, v) :: rest => if String.eqb k key then Some v else ownProperty rest key
  end.

(** [filename.split('.').pop()?.toLowerCase() || '']. *)
Definition extensionOf (filename : string) : string :=
  toLowerCase (List.last (Str.split "." filename) "").

(** [detectLanguage(filename)]. *)
Definition detectLanguage (filename : string) : LanguageValue :=
  let ext := extensionOf filename in
  match ownProperty languageMap ext with
  | Some language => LanguageId language
  | None =>
      if existsb (String.eqb ext) objectPrototypeKeys then PrototypeMember ext
      else LanguageId "plaintext"
  end.

(** The test [language === 'typescript' || language === 'javascript']. *)
Definition isScriptLanguage (language : LanguageValue) : bool :=
  match language with
  | LanguageId id => String.eqb id "typescript" || String.eqb id "javascript"
  | PrototypeMember _ => false
  end.

(** [setContent(content, filename)] as far as the resolver is concerned:
    the new value of [currentFilename] and the path for which
    [loadSourceFile] is started, if any.  [editorReady] tells whether
    [editor] is set; the model objects of the editor are not part of the
    embedding. *)
Definition setContent (editorReady : bool) (content filename currentFilename : string)
  : string * option string :=
  if editorReady then
    (filename,
     if isScriptLanguage (detectLanguage filename) then Some filename else None)
  else (currentFilename, None).

(** ** The configuration loader *)

(** The length of the block comment at the start of [s]: the opening
    marker, the shortest text up to a closing marker, and that marker. *)
Definition blockCommentLength (s : string) : option nat :=
  match s with
  | String "/" (String "*" rest) =>
      match Str.cut "*/" rest with
      | Some (inside, _) => Some (String.length inside + 4)%nat
      | None => None
      end
  | _ => None
  end.

(** The number of code units at the start of [s] that are not line
    terminators. *)
Fixpoint lineLength (s : string) : nat :=
  match s with
  | EmptyString => O
  | String c s' => if isDot c then S (lineLength s') else O
  end.

(** The length of the line comment at the start of [s]. *)
Definition lineCommentLength (s : string) : option nat :=
  match s with
  | String "/" (String "/" rest) => Some (lineLength rest + 2)%nat
  | _ => None
  end.

(** One attempt of the comment expression at the start of [s]: the block
    alternative first, then the line alternative. *)
Definition commentLength (s : string) : option nat :=
  match blockCommentLength s with
  | Some n => Some n
  | None => lineCommentLength s
  end.

(** The scan of a global replace by the empty text: [skip] code units of
    a comment are still to be dropped. *)
Fixpoint stripFrom (skip : nat) (s : string) : string :=
  match skip with
  | S k =>
      match s with
      | EmptyString => EmptyString
      | String _ s' => stripFrom k s'
      end
  | O =>
      match s with
      | EmptyString => EmptyString
      | String c s' =>
          match commentLength s with
          | Some n => stripFrom (n - 1) s'
          | None => String c (stripFrom 0 s')
          end
      end
  end.

(** [s.replace(/\/\*[\s\S]*?\*\/|\/\/.*/g, '')]. *)
Definition stripComments (s : string) : string := stripFrom 0 s.

(** [JsxEmit] as far as the loader uses it. *)
Inductive JsxEmit : Type := JsxPreserve | JsxReact | JsxReactJSX.

(** The fields of [tsconfig.compilerOptions] that the loader reads, with the
    types it expects; [None] is an absent field. *)
Record RawOptions : Type := {
  raw_paths : option (list (string * list string));
  raw_baseUrl : option string;
  raw_allowJs : option bool;
  raw_checkJs : option bool;
  raw_jsx : option string;
  raw_jsxImportSource : option string;
  raw_esModuleInterop : option bool;
  raw_allowSyntheticDefaultImports : option bool;
  raw_strict : option bool;
  raw_noImplicitAny : option bool;
  raw_typeRoots : option (list string);
  raw_types : option (list string)
}.

(** The options handed to [setCompilerOptions].  The target, the module
    kind and the module resolution are the same constants in every call
    and are left out. *)
Record CompilerOptions : Type := {
  allowNonTsExtensions : bool;
  allowJs : bool;
  checkJs : option bool;
  jsx : JsxEmit;
  jsxImportSource : option string;
  esModuleInterop : bool;
  allowSyntheticDefaultImports : bool;
  strict : option bool;
  noImplicitAny : option bool;
  skipLibCheck : bool;
  baseUrl : option string;
  paths : option (list (string * list string));
  typeRoots : option (list string);
  types : option (list string)
}.

(** [x ?? d]. *)
Definition orDefault {A : Type} (x : option A) (d : A) : A :=
  match x with Some v => v | None => d end.

(** The options built from a configuration that was read. *)
Definition compilerOptionsOf (opts : RawOptions) : CompilerOptions :=
  {| allowNonTsExtensions := true;
     allowJs := orDefault (raw_allowJs opts) true;
     checkJs := Some (orDefault (raw_checkJs opts) false);
     jsx := match raw_jsx opts with
            | Some "react-jsx" => JsxReactJSX
            | Some "preserve" => JsxPreserve
            | _ => JsxReact
            end;
     jsxImportSource := raw_jsxImportSource opts;
     esModuleInterop := orDefault (raw_esModuleInterop opts) true;
     allowSyntheticDefaultImports := orDefault (raw_allowSyntheticDefaultImports opts) true;
     strict := Some (orDefault (raw_strict opts) false);
     noImplicitAny := Some (orDefault (raw_noImplicitAny opts) false);
     skipLibCheck := true;
     baseUrl := raw_baseUrl opts;
     paths := raw_paths opts;
     typeRoots := raw_typeRoots opts;
     types := raw_types opts |}.

(** [defaultOptions] of the [catch] branch. *)
Definition defaultOptions : CompilerOptions :=
  {| allowNonTsExtensions := true;
     allowJs := true;
     checkJs := None;
     jsx := JsxReact;
     jsxImportSource := None;
     esModuleInterop := true;
     allowSyntheticDefaultImports := true;
     strict := None;
     noImplicitAny := None;
     skipLibCheck := true;
     baseUrl := None;
     paths := None;
     typeRoots := None;
     types := None |}.

(** The module state of a session: [tsconfigPaths], [tsconfigBaseUrl], the
    calls of [setCompilerOptions] on the two engines, oldest first, and the
    state of the corpus. *)
Record Session : Type := {
  session_paths : list (string * list string);
  session_baseUrl : string;
  session_tsOptions : list CompilerOptions;
  session_jsOptions : list CompilerOptions;
  session_types : State
}.

(** The module state when the script starts. *)
Definition initSession : Session :=
  {| session_paths := [];
     session_baseUrl := ".";
     session_tsOptions := [];
     session_jsOptions := [];
     session_types := initState |}.

Definition withOptions (options : CompilerOptions) (s : Session) : Session :=
  {| session_paths := session_paths s;
     session_baseUrl := session_baseUrl s;
     session_tsOptions := session_tsOptions s ++ [options];
     session_jsOptions := session_jsOptions s ++ [options];
     session_types := session_types s |}.

Definition withTypes (st : State) (s : Session) : Session :=
  {| session_paths := session_paths s;
     session_baseUrl := session_baseUrl s;
     session_tsOptions := session_tsOptions s;
     session_jsOptions := session_jsOptions s;
     session_types := st |}.

Section Initialization.

(** [window.gitton]. *)
Variable gitton : option FileSystem.
(** [JSON.parse] of the stripped text followed by
    [tsconfig.compilerOptions || {}]: [None] when either throws. *)
Variable parseConfig : string -> option RawOptions.
(** As in [loadPackageTypes]. *)
Variable manifestTypes : string -> option (option string).

(** [loadTsConfig()]. *)
Definition loadTsConfig (s : Session) : Session :=
  match gitton with
  | None => s
  | Some fs =>
      match fs_readFile fs "tsconfig.json" with
      | Some tsconfigContent =>
          match parseConfig (stripComments tsconfigContent) with
          | Some opts =>
              withOptions (compilerOptionsOf opts)
                {| session_paths := orDefault (raw_paths opts) [];
                   session_baseUrl :=
                     match raw_baseUrl opts with
                     | Some b => if String.eqb b "" then "." else b
                     | None => "."
                     end;
                   session_tsOptions := session_tsOptions s;
                   session_jsOptions := session_jsOptions s;
                   session_types := session_types s |}
          | None => withOptions defaultOptions s
          end
      | None => withOptions defaultOptions s
      end
  end.

Definition entryPoints : list string :=
  ["src/index.ts"; "src/index.tsx"; "src/main.ts"; "src/main.tsx"; "src/App.tsx"].

(** The loop of [loadProjectSources] over the entry points. *)
Definition loadEntryPoints (tsconfigPaths : list (string * list string))
           (tsconfigBaseUrl : string) (entries : list string) (st : State) : State :=
  fold_left (fun acc entry => loadSourceFile gitton tsconfigPaths tsconfigBaseUrl entry 0 acc)
            entries st.

(** [loadProjectSources()]. *)
Definition loadProjectSources (tsconfigPaths : list (string * list string))
           (tsconfigBaseUrl : string) (st : State) : State :=
  match gitton with
  | None => st
  | Some _ =>
      loadDtsFromDir gitton "src" 5 0
        (loadEntryPoints tsconfigPaths tsconfigBaseUrl entryPoints st)
  end.

(** How [initTypeSystem] ends. *)
Inductive initResult : Type :=
| Initialized (s : Session)
| Rejected (s : Session).

(** [initTypeSystem()]: a rejection of [loadAllNodeModulesTypes] ends it. *)
Definition initTypeSystem (s : Session) : initResult :=
  let s1 := loadTsConfig s in
  match loadAllNodeModulesTypes gitton manifestTypes (session_types s1) with
  | Threw st => Rejected (withTypes st s1)
  | Returned st =>
      Initialized
        (withTypes (loadProjectSources (session_paths s1) (session_baseUrl s1) st) s1)
  end.

End Initialization.

(** The session in which [initTypeSystem] ends, either way. *)
Definition sessionOf (r : initResult) : Session :=
  match r with Initialized s => s | Rejected s => s end.

(** ** Alias expressions *)

(** The characters of [w], one after the other, then [r]. *)
Fixpoint litThen (w : string) (r : regex) : regex :=
  match w with
  | EmptyString => r
  | String c w' => Seq (Chr c) (litThen w' r)
  end.

(** * Vocabulary of the statements *)

(** ** The corpus *)

(** What ties the set of loaded files to the calls received by the engines. *)
Record consistent (st : State) : Prop := {
  cons_nodup : NoDup (registeredUris st);
  cons_mem : forall p, p ∈ loadedFiles st <-> fileUri p ∈ registeredUris st;
  cons_js : jsExtraLibs st = tsExtraLibs st
}.

(** A session seen from the corpus: the register operations it performed. *)
Definition registerAll (ops : list (string * string)) (st : State) : State :=
  fold_left (fun acc op => addFileToMonaco (fst op) (snd op) acc) ops st.

(** ** Texts and paths *)

(** Whether the code unit [x] occurs in [s]. *)
Fixpoint hasChar (x : ascii) (s : string) : bool :=
  match s with
  | EmptyString => false
  | String c s' => Ascii.eqb c x || hasChar x s'
  end.

(** Every code unit of [s] is in the class [p]. *)
Fixpoint allChars (p : ascii -> bool) (s : string) : bool :=
  match s with
  | EmptyString => true
  | String c s' => p c && allChars p s'
  end.

(** ** Probing and recursion of the loader *)

(** The first candidate of the extension list that exists and can be read,
    with its content. *)
Fixpoint probe (fs : FileSystem) (filePath : string) (exts : list string)
  : option (string * string) :=
  match exts with
  | [] => None
  | ext :: exts' =>
      match fs_exists fs (filePath ++ ext) with
      | Some true =>
          match fs_readFile fs (filePath ++ ext) with
          | Some content => Some (filePath ++ ext, content)
          | None => probe fs filePath exts'
          end
      | _ => probe fs filePath exts'
      end
  end.

(** The number of nested calls that a call at [depth] can need. *)
Definition budget (depth : nat) : nat := S (depthBound + 1 - depth).

Section Recursion.

Variable gitton : option FileSystem.
Variable tsconfigPaths : list (string * list string).
Variable tsconfigBaseUrl : string.

(** The paths handed to the recursive calls made for one file. *)
Definition importTargets (fullPath content : string) : list string :=
omap (resolveImport tsconfigPaths tsconfigBaseUrl fullPath) (extractSpecifiers content).

(** The recursive call as the function itself sees it. *)
Definition selfCall (p : string) (depth : nat) (st : State) : option State :=
Some (loadSourceFile gitton tsconfigPaths tsconfigBaseUrl p depth st).

End Recursion.

(** Every registered path exists on the host and can be read. *)
Definition backed (fs : FileSystem) (st : State) : Prop :=
  forall p, p ∈ loadedFiles st ->
            fs_exists fs p = Some true /\ is_Some (fs_readFile fs p).

(** The facts that a load keeps, relative to a set of paths already in. *)
Definition sound (fs : FileSystem) (known : gset string) (st : State) : Prop :=
  consistent st /\ backed fs st /\ known ⊆ loadedFiles st.

(** ** Chains of imports *)

(** A file of a chain: the path by which it is imported, the candidate
    that the probing settles on, and its content. *)
Record ChainFile : Type := { stem : string; full : string; text : string }.

Definition chainOp (f : ChainFile) : string * string := (full f, text f).
Definition chainCall (f : ChainFile) : string * string := (text f, fileUri (full f)).

Section ChainShape.

Variable fs : FileSystem.
Variable tsconfigPaths : list (string * list string).
Variable tsconfigBaseUrl : string.

(** Each file resolves, and its only import that the loader follows is
  the next file; the last file has none. *)
Inductive chain : list ChainFile -> Prop :=
| chain_last f :
  probe fs (stem f) extensions = Some (full f, text f) ->
  importTargets tsconfigPaths tsconfigBaseUrl (full f) (text f) = [] ->
  chain [f]
| chain_link f g l :
  probe fs (stem f) extensions = Some (full f, text f) ->
  importTargets tsconfigPaths tsconfigBaseUrl (full f) (text f) = [stem g] ->
  chain (g :: l) ->
  chain (f :: g :: l).

(** The loop over the matches, seen through the targets it recurses into. *)
Fixpoint loadTargets (depth : nat) (ts : list string) (st : State) : option State :=
match ts with
| [] => Some st
| t :: ts' =>
    match selfCall (Some fs) tsconfigPaths tsconfigBaseUrl t (S depth) st with
    | Some st' => loadTargets depth ts' st'
    | None => None
    end
end.

End ChainShape.

(** No file of the chain is met again further down, under either name. *)
Fixpoint distinct (l : list ChainFile) : Prop :=
  match l with
  | [] => True
  | f :: l' => (forall g, g ∈ l' -> full g <> full f /\ stem g <> full f) /\ distinct l'
  end.

(** ** Aliases *)

(** The text captured when the expression built for [alias] matches
    [importPath]; [None] when it does not match. *)
Definition aliasCapture (alias importPath : string) : option string :=
  option_map orEmpty (stringMatch (newRegExp (aliasRegExpSource alias)) importPath).

(** ** The crawler *)

(** The content of a file is below the size threshold. *)
Definition small (content : string) : bool :=
  (Z.of_nat (String.length content) <? sizeThreshold)%Z.

Section CrawlReads.

Variable fs : FileSystem.
Variable maxDepth : nat.

(** The declaration files that a crawl of [dir] at depth [cur] reads,
  with their content: those listed in [dir], and those read by the
  crawl of a directory listed in [dir] that is neither hidden nor on
  the list of heavy directories. *)
Inductive visits : string -> nat -> string -> string -> Prop :=
| visits_entry dir cur entries entry p c :
  (cur <= maxDepth)%nat ->
  fs_readdir fs dir = Some entries ->
  entry ∈ entries ->
  yields dir cur entry p c ->
  visits dir cur p c
with yields : string -> nat -> DirEntry -> string -> string -> Prop :=
| yields_file dir cur entry c :
  Str.startsWith (name entry) "." = false ->
  isDirectory entry = false ->
  Str.endsWith (name entry) ".d.ts" = true ->
  fs_readFile fs (entryPath dir entry) = Some c ->
  yields dir cur entry (entryPath dir entry) c
| yields_dir dir cur entry p c :
  Str.startsWith (name entry) "." = false ->
  isDirectory entry = true ->
  existsb (String.eqb (name entry)) heavyDirectories = false ->
  visits (entryPath dir entry) (S cur) p c ->
  yields dir cur entry p c.

End CrawlReads.

(** What a crawl adds to the corpus. *)
Definition adds (reads : string -> string -> Prop) (st st' : State) : Prop :=
  forall p, p ∈ loadedFiles st' <->
            p ∈ loadedFiles st \/ exists c, reads p c /\ small c = true.

(** ** The import expression *)

(** A regular expression that cannot start on a character of class [p]. *)
Definition rejects (p : ascii -> bool) (X : regex) : Prop :=
  forall c y cap, p c = true -> run X (String c y) cap = [].

(** The parts of the import expression. *)
Definition keywordRe : regex := Alt (Lit "import") (Lit "export").
Definition namedRe : regex := seqs [Chr "{"; Star (notChar "}"); Chr "}"].
Definition namespaceRe : regex :=
  seqs [Chr "*"; Plus isSpace; Lit "as"; Plus isSpace; Plus isWord].
Definition fromRe : regex := seqs [Plus isSpace; Lit "from"; Plus isSpace].
Definition clauseRe : regex := Seq (Alt namedRe (Alt namespaceRe (Plus isWord))) fromRe.
Definition quotedRe : regex := seqs [Cls isQuote; Cap (Plus notQuote); Cls isQuote].

(** The shapes of statement that the expression matches. *)
Inductive Binding : Type :=
| Named (body : string)
| Namespace (gap1 gap2 alias : string)
| Default (ident : string).

Record FromClause : Type := { binding : Binding; beforeFrom : string; afterFrom : string }.

Record StaticForm : Type := {
  isExport : bool;
  gap : string;
  clause : option FromClause;
  opening : ascii;
  specifier : string;
  closing : ascii
}.

Definition blank (s : string) : bool := negb (String.eqb s "") && allChars isSpace s.
Definition word (s : string) : bool := negb (String.eqb s "") && allChars isWord s.

Definition bindingOk (b : Binding) : bool :=
  match b with
  | Named body => allChars (notChar "}") body
  | Namespace gap1 gap2 alias => blank gap1 && blank gap2 && word alias
  | Default ident => word ident
  end.

Definition clauseOk (c : FromClause) : bool :=
  bindingOk (binding c) && blank (beforeFrom c) && blank (afterFrom c).

Definition formOk (f : StaticForm) : bool :=
  blank (gap f)
  && match clause f with Some c => clauseOk c | None => true end
  && isQuote (opening f) && isQuote (closing f)
  && negb (String.eqb (specifier f) "") && allChars notQuote (specifier f).

(** The text of a binding, of a clause and of a statement, each followed
    by the text [k]. *)
Definition bindingText (b : Binding) (k : string) : string :=
  match b with
  | Named body => "{" ++ body ++ String "}" k
  | Namespace gap1 gap2 alias => "*" ++ gap1 ++ "as" ++ gap2 ++ alias ++ k
  | Default ident => ident ++ k
  end.

Definition quotedText (f : StaticForm) (k : string) : string :=
  String (opening f) (specifier f ++ String (closing f) k).

Definition formText (f : StaticForm) (k : string) : string :=
  (if isExport f then "export" else "import") ++ gap f ++
  match clause f with
  | Some c =>
      bindingText (binding c) (beforeFrom c ++ "from" ++ afterFrom c ++ quotedText f k)
  | None => quotedText f k
  end.

(** The text matched by a statement, without what follows it. *)
Definition formPrefix (f : StaticForm) : string := formText f "".

(** ** Growth of the corpus *)

(** [st'] is [st] after some register operations. *)
Definition extends (st st' : State) : Prop :=
  exists ops, st' = registerAll ops st.

(** The engines of [st'] received the calls of [st] and then some more,
    the same on both, and no path left the set of loaded files. *)
Definition grows (st st' : State) : Prop :=
  exists calls,
    tsExtraLibs st' = (tsExtraLibs st ++ calls)%list
    /\ jsExtraLibs st' = (jsExtraLibs st ++ calls)%list
    /\ loadedFiles st ⊆ loadedFiles st'.

(** Every call received by an engine carries the content read from the
    path of its uri. *)
Definition faithful (fs : FileSystem) (st : State) : Prop :=
  forall c u, (c, u) ∈ tsExtraLibs st \/ (c, u) ∈ jsExtraLibs st ->
              exists p, u = fileUri p /\ fs_readFile fs p = Some c.

(** Whether the candidate [p ++ ext] exists and can be read. *)
Definition usable (fs : FileSystem) (p ext : string) : bool :=
  match fs_exists fs (p ++ ext) with
  | Some true =>
      match fs_readFile fs (p ++ ext) with
      | Some _ => true
      | None => false
      end
  | _ => false
  end.

(** The path reached from [dir] by descending through [names]. *)
Definition below (dir : string) (names : list string) : string :=
  fold_left (fun acc n => acc ++ "/" ++ n) names dir.

(** Whether the existence tests that [loadPackageTypes] makes for a
    package reject on the host: the test of the directory under
    [node_modules/@types], and, when that directory is absent, the test of
    the directory of the package itself. *)
Definition existenceTestRejects (fs : FileSystem) (packageName : string) : bool :=
  match fs_exists fs ("node_modules/@types/" ++ packageName) with
  | None => true
  | Some true => false
  | Some false =>
      match fs_exists fs ("node_modules/" ++ packageName) with
      | None => true
      | Some _ => false
      end
  end.

(** The paths that a crawl of [dir] at depth [cur] can register: a
    declaration file at most [maxDepth - cur] directories below [dir], on
    a path none of whose names is hidden and none of whose directories
    is on the list of heavy directories. *)
Definition reached (maxDepth cur : nat) (dir p : string) : Prop :=
  exists names,
    p = below dir names
    /\ names <> []
    /\ (List.length names <= S (maxDepth - cur))%nat
    /\ Forall (fun n => Str.startsWith n "." = false) names
    /\ Forall (fun n => existsb (String.eqb n) heavyDirectories = false)
              (Str.dropLast names)
    /\ Str.endsWith (List.last names "") ".d.ts" = true.

(** The index of the first occurrence of the code unit [x] in [s]. *)
Fixpoint firstIndex (x : ascii) (s : string) : option nat :=
  match s with
  | EmptyString => None
  | String c s' => if Ascii.eqb c x then Some O else option_map S (firstIndex x s')
  end.

(** A path segment that normalization keeps: it holds no separator and
    is neither the parent nor the current directory. *)
Definition plain (part : string) : bool :=
  negb (hasChar "/" part) && negb (String.eqb part "..") && negb (String.eqb part ".").

(** The segments other than the current directory. *)
Definition withoutDots (parts : list string) : list string :=
  List.filter (fun part => negb (String.eqb part ".")) parts.

(** The extensions whose language is TypeScript or JavaScript. *)
Definition scriptExtensions : list string := ["ts"; "tsx"; "js"; "jsx"; "mjs"; "cjs"].

(** Whether the text [pat] occurs in [s]. *)
Fixpoint occurs (pat s : string) : bool :=
  String.prefix pat s
  || match s with
     | EmptyString => false
     | String _ s' => occurs pat s'
     end.

(** No code unit of [s] is a slash followed by a slash or by a star. *)
Fixpoint commentFree (s : string) : bool :=
  match s with
  | EmptyString => true
  | String c s' =>
      negb (Ascii.eqb c "/"
            && match s' with
               | String d _ => Ascii.eqb d "/" || Ascii.eqb d "*"
               | EmptyString => false
               end)
      && commentFree s'
  end.

(** ** Imports as the files write them *)

(** What the loop of [loadSourceFile] does with one specifier of the file
    [fullPath], the recursive call being the function itself. *)
Definition followSpecifier (gitton : option FileSystem)
           (tsconfigPaths : list (string * list string)) (tsconfigBaseUrl : string)
           (fullPath : string) (depth : nat) (st : State) (importPath : string) : State :=
  if isExternal importPath then st
  else if Str.startsWith importPath "." then
    loadSourceFile gitton tsconfigPaths tsconfigBaseUrl
      (normalizePath (collapseDotSlash (dirOf fullPath ++ "/" ++ importPath)))
      (S depth) st
  else
    match resolvePathAlias tsconfigPaths tsconfigBaseUrl importPath with
    | Some aliasResolved =>
        if String.eqb aliasResolved "" then st
        else loadSourceFile gitton tsconfigPaths tsconfigBaseUrl
               (normalizePath aliasResolved) (S depth) st
    | None => st
    end.



(** Every call that an engine has in [st'] and had not in [st] carries the
    content read from the path of its uri. *)
Definition readSince (fs : FileSystem) (st st' : State) : Prop :=
  forall c u, (c, u) ∈ tsExtraLibs st' ->
              (c, u) ∈ tsExtraLibs st \/ exists p, u = fileUri p /\ fs_readFile fs p = Some c.

(** ** Concrete hosts *)

Module Host.

Definition lookup {A : Type} (table : list (string * A)) (p : string) : option A :=
  match List.find (fun e => String.eqb (fst e) p) table with
  | Some e => Some (snd e)
  | None => None
  end.

Definition isSome {A : Type} (o : option A) : bool :=
  match o with Some _ => true | None => false end.

(** A host with the given files and directory listings: [exists] answers
    for both, reading a missing file or listing a missing directory
    rejects. *)
Definition make (files : list (string * string))
           (dirs : list (string * list DirEntry)) : FileSystem :=
  {| fs_exists := fun p => Some (isSome (lookup files p) || isSome (lookup dirs p));
     fs_readFile := lookup files;
     fs_readdir := lookup dirs |}.

Definition file (n : string) : DirEntry := {| name := n; isDirectory := false |}.
Definition folder (n : string) : DirEntry := {| name := n; isDirectory := true |}.

End Host.

(** A text of [n] code units. *)
Fixpoint filler (n : nat) : string :=
  match n with
  | O => ""
  | S n' => String "x" (filler n')
  end.

(** A directory with one declaration file of [n] code units. *)
Definition sizedFs (n : N) : FileSystem :=
  {| fs_exists := fun p => Some (String.eqb p "types" || String.eqb p "types/big.d.ts");
     fs_readFile := fun p =>
       if String.eqb p "types/big.d.ts" then Some (filler (N.to_nat n)) else None;
     fs_readdir := fun p =>
       if String.eqb p "types" then Some [Host.file "big.d.ts"] else None |}.

(** A named import, [import { a, b } from './a']. *)
Definition namedImport : StaticForm :=
  {| isExport := false;
     gap := " ";
     clause := Some {| binding := Named " a, b "; beforeFrom := " "; afterFrom := " " |};
     opening := "'";
     specifier := "./a";
     closing := "'" |}.

(** A text with a dynamic import and a require call. *)
Definition dynamicText : string :=
  "const lazy = await import('./lazy'); const legacy = require('./legacy')".

(** Two files that import each other. *)
Definition cycleFs : FileSystem :=
  Host.make
    [ ("src/a.ts", "import { b } from './b'; export const a = 1");
      ("src/b.ts", "import { a } from './a'; export const b = a") ]
    [].

(** A chain of eight files, each importing the next. *)
Definition chainFs : FileSystem :=
  Host.make
    [ ("c/f0.ts", "import './f1'");
      ("c/f1.ts", "import './f2'");
      ("c/f2.ts", "import './f3'");
      ("c/f3.ts", "import './f4'");
      ("c/f4.ts", "import './f5'");
      ("c/f5.ts", "import './f6'");
      ("c/f6.ts", "import './f7'");
      ("c/f7.ts", "export const last = 7") ]
    [].

Definition chainFiles : list ChainFile :=
  [ {| stem := "c/f0.ts"; full := "c/f0.ts"; text := "import './f1'" |};
    {| stem := "c/f1"; full := "c/f1.ts"; text := "import './f2'" |};
    {| stem := "c/f2"; full := "c/f2.ts"; text := "import './f3'" |};
    {| stem := "c/f3"; full := "c/f3.ts"; text := "import './f4'" |};
    {| stem := "c/f4"; full := "c/f4.ts"; text := "import './f5'" |};
    {| stem := "c/f5"; full := "c/f5.ts"; text := "import './f6'" |};
    {| stem := "c/f6"; full := "c/f6.ts"; text := "import './f7'" |};
    {| stem := "c/f7"; full := "c/f7.ts"; text := "export const last = 7" |} ].

(** A host on which [src/util.ts] exists but cannot be read. *)
Definition flakyFs : FileSystem :=
  {| fs_exists := fun p => Some (existsb (String.eqb p) ["src/util.ts"; "src/util.tsx"]);
     fs_readFile := fun p =>
       if String.eqb p "src/util.tsx" then Some "export const u = 1" else None;
     fs_readdir := fun _ => None |}.

(** A project whose entry file imports a package that ships its own
    declarations; the package is not on the priority list and has no
    directory under [node_modules/@types]. *)
Definition lodashFs : FileSystem :=
  Host.make
    [ ("src/app.ts", "import _ from 'lodash'; export const app = _");
      ("node_modules/lodash/package.json", "{}");
      ("node_modules/lodash/index.d.ts", "export declare const chunk: unknown") ]
    [ ("src", [Host.file "app.ts"]);
      ("node_modules", [Host.folder "lodash"]);
      ("node_modules/lodash", [Host.file "package.json"; Host.file "index.d.ts"]) ].

(** The manifests of [lodashFs] parse and name no types entry. *)
Definition noTypesEntry (content : string) : option (option string) := Some None.

(** A project in which only the second target of the alias exists. *)
Definition aliasFs : FileSystem :=
  Host.make
    [ ("src/main.ts", "import { u } from '@/utils'");
      ("lib/utils.ts", "export const u = 1") ]
    [].

(** A directory of declarations. *)
Definition typesFs : FileSystem :=
  Host.make
    [ ("node_modules/@types/x/index.d.ts", "export declare const x: number");
      ("node_modules/@types/x/lib/deep.d.ts", "export declare const y: number") ]
    [ ("node_modules/@types/x", [Host.file "index.d.ts"; Host.folder "lib"; Host.folder "test"]);
      ("node_modules/@types/x/lib", [Host.file "deep.d.ts"; Host.file "notes.txt"]) ].

(** A project with a configuration, sources that import each other
    through a relative path and through an alias, a package with a
    directory under [node_modules/@types], and a package that ships its
    own declarations. *)
Definition projectFs : FileSystem :=
  Host.make
    [ ("tsconfig.json", "{ }");
      ("src/index.ts", "import { helper } from './lib/helper'; import { u } from '@/utils'");
      ("src/lib/helper.ts", "export const helper = 1");
      ("src/utils.ts", "export const u = 2");
      ("src/env.d.ts", "declare const env: string");
      ("node_modules/@types/react/index.d.ts", "export declare const version: string");
      ("node_modules/sonner/package.json", "{ }");
      ("node_modules/sonner/dist/index.d.ts", "export declare const toast: unknown") ]
    [ ("src", [Host.file "index.ts"; Host.folder "lib"; Host.file "utils.ts";
               Host.file "env.d.ts"]);
      ("src/lib", [Host.file "helper.ts"]);
      ("node_modules/@types", [Host.folder "react"]);
      ("node_modules/@types/react", [Host.file "index.d.ts"]);
      ("node_modules/sonner", [Host.file "package.json"; Host.folder "dist"]);
      ("node_modules/sonner/dist", [Host.file "index.d.ts"]) ].

(** The configuration of [projectFs] as it is parsed: one alias. *)
Definition projectConfig (content : string) : option RawOptions :=
  Some {| raw_paths := Some [("@/*", ["src/*"])];
          raw_baseUrl := Some ".";
          raw_allowJs := None;
          raw_checkJs := None;
          raw_jsx := Some "react-jsx";
          raw_jsxImportSource := None;
          raw_esModuleInterop := None;
          raw_allowSyntheticDefaultImports := None;
          raw_strict := Some true;
          raw_noImplicitAny := None;
          raw_typeRoots := None;
          raw_types := None |}.

(** The manifests of [projectFs] as they are parsed. *)
Definition projectManifest (content : string) : option (option string) :=
  Some (Some "dist/index.d.ts").

(** The host of [projectFs] when the existence test of one directory
    rejects. *)
Definition rejectingFs : FileSystem :=
  {| fs_exists := fun p =>
       if String.eqb p "node_modules/@types/react-dom" then None
       else fs_exists projectFs p;
     fs_readFile := fs_readFile projectFs;
     fs_readdir := fs_readdir projectFs |}.

(** The line feed. *)
Definition lineFeed : ascii := Eval cbv in ascii_of_nat 10.



(** A file that imports a package and then a file of its directory. *)
Definition mixedFs : FileSystem :=
  Host.make
    [ ("src/app.ts", "import _ from 'lodash'; import { u } from './util'");
      ("src/util.ts", "export const u = 1");
      ("node_modules/lodash/index.d.ts", "export declare const chunk: unknown") ]
    [ ("node_modules/lodash", [Host.file "index.d.ts"]) ].


(** * Properties *)

(** ** The corpus and the register operation *)

Lemma fileUri_inj (p q : string) : fileUri p = fileUri q -> p = q.
Proof. unfold fileUri. apply String.app_inj. Qed.

Lemma consistent_init : consistent initState.
Proof.
  split; simpl.
  - constructor.
  - intros p. unfold registeredUris. simpl. set_solver.
  - reflexivity.
Qed.

Lemma addFileToMonaco_known (p c : string) (st : State) :
  p ∈ loadedFiles st -> addFileToMonaco p c st = st.
Proof. intros H. unfold addFileToMonaco. by rewrite decide_True. Qed.

Lemma addFileToMonaco_loaded (p c : string) (st : State) :
  loadedFiles (addFileToMonaco p c st) = {[p]} ∪ loadedFiles st.
Proof.
  unfold addFileToMonaco. destruct (decide (p ∈ loadedFiles st)); simpl; [| done].
  apply set_eq. intros q. rewrite elem_of_union, elem_of_singleton.
  split; [by right | by intros [-> | H]].
Qed.

Lemma addFileToMonaco_consistent (p c : string) (st : State) :
  consistent st -> consistent (addFileToMonaco p c st).
Proof.
  intros [Hnd Hmem Hjs]. unfold addFileToMonaco.
  destruct (decide (p ∈ loadedFiles st)) as [Hin | Hout]; [by split |].
  split; unfold registeredUris in *; simpl.
  - rewrite List.map_app. simpl. apply NoDup_app. split; [done |]. split.
    + intros u Hu Hu'. apply list_elem_of_singleton in Hu'. subst u.
      by apply Hout, Hmem.
    + apply NoDup_singleton.
  - intros q. rewrite List.map_app. simpl.
    rewrite elem_of_app, list_elem_of_singleton.
    rewrite elem_of_union, elem_of_singleton, Hmem. split.
    + intros [-> | H]; [by right | by left].
    + intros [H | H]; [by right | left; by apply fileUri_inj].
  - by rewrite Hjs.
Qed.

Lemma count_once (x : string) (l : list string) :
  NoDup l -> x ∈ l ->
  List.length (List.filter (fun y => String.eqb y x) l) = 1%nat.
Proof.
  induction l as [| y l IH]; intros Hnd Hin; [by apply elem_of_nil in Hin |].
  apply NoDup_cons in Hnd as [Hy Hnd]. simpl.
  destruct (String.eqb_spec y x) as [-> | Hne].
  - simpl. f_equal. clear IH Hin Hnd.
    induction l as [| z l IH]; [done |]. simpl.
    destruct (String.eqb_spec z x) as [-> | _].
    + exfalso. apply Hy. left.
    + apply IH. intros H. apply Hy. by right.
  - apply elem_of_cons in Hin as [-> | Hin]; [done |]. by apply IH.
Qed.

Lemma count_none (x : string) (l : list string) :
  x ∉ l -> List.length (List.filter (fun y => String.eqb y x) l) = 0%nat.
Proof.
  induction l as [| y l IH]; intros Hn; [done |]. simpl.
  destruct (String.eqb_spec y x) as [-> | _].
  - exfalso. apply Hn. left.
  - apply IH. intros H. apply Hn. by right.
Qed.

Lemma registrations_uris (p : string) (st : State) :
  registrations p st =
  List.length (List.filter (fun u => String.eqb u (fileUri p)) (registeredUris st)).
Proof.
  unfold registrations, registeredUris.
  induction (tsExtraLibs st) as [| e l IH]; [done |]. simpl.
  destruct (String.eqb (snd e) (fileUri p)); simpl; by rewrite IH.
Qed.

Lemma registrations_loaded (p : string) (st : State) :
  consistent st -> p ∈ loadedFiles st -> registrations p st = 1%nat.
Proof.
  intros Hc Hp. rewrite registrations_uris. apply count_once; [apply Hc | by apply Hc].
Qed.


Lemma registerAll_consistent (ops : list (string * string)) (st : State) :
  consistent st -> consistent (registerAll ops st).
Proof.
  revert st. induction ops as [| op ops IH]; intros st Hc; [done |].
  simpl. apply IH. by apply addFileToMonaco_consistent.
Qed.

(** C2. Registering a path a second time, with the same or another content,
    changes nothing: the corpus and the calls seen by both engines are those
    left by the first registration; in every session the engine has then
    received exactly one [addExtraLib] for the uri of that path, and no uri
    was ever passed twice. *)
Theorem addFileToMonaco_idempotent (ops : list (string * string)) (p c c' : string) :
  let st := registerAll ops initState in
  addFileToMonaco p c' (addFileToMonaco p c st) = addFileToMonaco p c st
  /\ registrations p (addFileToMonaco p c' (addFileToMonaco p c st)) = 1%nat
  /\ NoDup (registeredUris (addFileToMonaco p c' (addFileToMonaco p c st)))
  /\ NoDup (List.map snd (jsExtraLibs (addFileToMonaco p c' (addFileToMonaco p c st)))).
Proof.
  intros st.
  assert (Hst : consistent (addFileToMonaco p c st)).
  { apply addFileToMonaco_consistent, registerAll_consistent, consistent_init. }
  assert (Hp : p ∈ loadedFiles (addFileToMonaco p c st)).
  { rewrite addFileToMonaco_loaded. set_solver. }
  rewrite (addFileToMonaco_known p c' _ Hp).
  split; [done |]. split; [by apply registrations_loaded |].
  split; [apply Hst |]. rewrite (cons_js _ Hst). apply Hst.
Qed.

(** ** Path normalization *)

Lemma append_cons (c : ascii) (s t : string) : String c s ++ t = String c (s ++ t).
Proof. reflexivity. Qed.

Lemma append_empty_l (t : string) : "" ++ t = t.
Proof. reflexivity. Qed.

Lemma append_empty_r (s : string) : s ++ "" = s.
Proof. induction s as [| c s IH]; [done |]. by rewrite append_cons, IH. Qed.

Lemma split_not_nil (sep : ascii) (s : string) : Str.split sep s <> [].
Proof.
  destruct s as [| c s]; simpl; [done |].
  destruct (Ascii.eqb c sep); [done |]. by destruct (Str.split sep s).
Qed.

Lemma split_parts_clean (sep : ascii) (s part : string) :
  part ∈ Str.split sep s -> hasChar sep part = false.
Proof.
  revert part. induction s as [| c s IH]; intros part; simpl.
  - intros H. apply list_elem_of_singleton in H. by subst.
  - destruct (Ascii.eqb c sep) eqn:Hc.
    + intros H. apply elem_of_cons in H as [-> | H]; [done | by apply IH].
    + destruct (Str.split sep s) as [| seg segs] eqn:Hs.
      * intros H. apply list_elem_of_singleton in H. subst. simpl. by rewrite Hc.
      * intros H. apply elem_of_cons in H as [-> | H].
        -- simpl. rewrite Hc. apply IH. left.
        -- apply IH. by right.
Qed.

Lemma split_clean (sep : ascii) (s : string) :
  hasChar sep s = false -> Str.split sep s = [s].
Proof.
  induction s as [| c s IH]; simpl; [done |].
  intros [Hc Hs]%orb_false_elim. by rewrite Hc, IH.
Qed.

Lemma split_append (sep : ascii) (s rest : string) :
  hasChar sep s = false ->
  Str.split sep (s ++ String sep rest) = s :: Str.split sep rest.
Proof.
  induction s as [| c s IH]; intros H.
  - rewrite append_empty_l. simpl. by rewrite Ascii.eqb_refl.
  - simpl in H. apply orb_false_elim in H as [Hc Hs].
    rewrite append_cons. simpl. by rewrite Hc, IH.
Qed.

Lemma split_join (sep : ascii) (l : list string) :
  l <> [] -> Forall (fun part => hasChar sep part = false) l ->
  Str.split sep (Str.join (String sep "") l) = l.
Proof.
  unfold Str.join. induction l as [| x l IH]; intros Hne Hl; [done |].
  apply Forall_cons in Hl as [Hx Hl].
  destruct l as [| y l].
  - simpl. by apply split_clean.
  - change (String.concat (String sep "") (x :: y :: l))
      with (x ++ String sep "" ++ String.concat (String sep "") (y :: l)).
    rewrite append_cons, append_empty_l, split_append by done.
    f_equal. by apply IH.
Qed.

Lemma dropLast_Forall {A} (P : A -> Prop) (l : list A) :
  Forall P l -> Forall P (Str.dropLast l).
Proof.
  unfold Str.dropLast. induction l as [| x l IH]; intros H; [done |].
  apply Forall_cons in H as [Hx Hl]. simpl.
  destruct l; [constructor |]. constructor; [done | by apply IH].
Qed.

Lemma normalizeStep_Forall (P : string -> Prop) (acc : list string) (part : string) :
  Forall P acc -> (part <> ".." -> part <> "." -> P part) ->
  Forall P (normalizeStep acc part).
Proof.
  intros Hacc Hpart. unfold normalizeStep.
  destruct (String.eqb_spec part "..") as [-> | Hne]; [by apply dropLast_Forall |].
  destruct (String.eqb_spec part ".") as [-> | Hne']; simpl; [done |].
  apply Forall_app. split; [done |]. constructor; [by apply Hpart | constructor].
Qed.

Lemma fold_normalize_Forall (P : string -> Prop) (parts acc : list string) :
  Forall P acc ->
  (forall part, part ∈ parts -> part <> ".." -> part <> "." -> P part) ->
  Forall P (fold_left normalizeStep parts acc).
Proof.
  revert acc. induction parts as [| part parts IH]; intros acc Hacc Hparts; [done |].
  simpl. apply IH.
  - apply normalizeStep_Forall; [done |]. apply Hparts. left.
  - intros q Hq. apply Hparts. by right.
Qed.

Lemma normalizeParts_clean (parts : list string) :
  Forall (fun part => part <> ".." /\ part <> ".") (normalizeParts parts).
Proof. apply fold_normalize_Forall; [constructor | done]. Qed.

Lemma normalizeParts_excess (n : nat) (parts : list string) :
  normalizeParts (List.repeat ".." n ++ parts) = normalizeParts parts.
Proof.
  unfold normalizeParts. rewrite fold_left_app. f_equal.
  induction n as [| n IH]; [done |]. simpl. exact IH.
Qed.

Lemma normalizeParts_underflow (before rest : list string) :
  normalizeParts before = [] ->
  normalizeParts (before ++ ".." :: rest) = normalizeParts rest.
Proof.
  unfold normalizeParts. intros H. rewrite fold_left_app, H. reflexivity.
Qed.

(** C10. Normalization is a total function of the path.  Its stack never
    holds a parent-directory or current-directory segment; [..] on the empty
    stack leaves it empty, so parent-directory segments in excess of the
    segments before them are discarded, at the head of the path or after
    segments that they have already cancelled; and the path returned, split on the
    separator again, has no [..] and no [.] segment. *)
Theorem normalizePath_never_escapes (p : string) :
  normalizePath p = Str.join "/" (fold_left normalizeStep (Str.split "/" p) [])
  /\ normalizeStep [] ".." = []
  /\ (forall acc, normalizeStep acc "." = acc)
  /\ (forall acc part, normalizeStep (acc ++ [part]) ".." = acc)
  /\ (forall n parts, normalizeParts (List.repeat ".." n ++ parts) = normalizeParts parts)
  /\ (forall before rest,
         normalizeParts before = [] ->
         normalizeParts (before ++ ".." :: rest) = normalizeParts rest)
  /\ Forall (fun part => part <> ".." /\ part <> ".") (normalizeParts (Str.split "/" p))
  /\ (forall part, part ∈ Str.split "/" (normalizePath p) -> part <> ".." /\ part <> ".").
Proof.
  split; [done |]. split; [done |]. split; [done |].
  split; [intros acc part; unfold normalizeStep; simpl; apply removelast_last |].
  split; [apply normalizeParts_excess |].
  split; [apply normalizeParts_underflow |].
  split; [apply normalizeParts_clean |].
  intros part. unfold normalizePath.
  pose proof (normalizeParts_clean (Str.split "/" p)) as Hclean.
  destruct (normalizeParts (Str.split "/" p)) as [| x l] eqn:Hl.
  - simpl. intros H. apply list_elem_of_singleton in H. by subst.
  - rewrite split_join; [| done |].
    + rewrite Forall_forall in Hclean. apply Hclean.
    + rewrite <- Hl. unfold normalizeParts.
      apply (fold_normalize_Forall (fun part => hasChar "/" part = false)); [constructor |].
      intros q Hq _ _. by apply split_parts_clean in Hq.
Qed.

Example normalize_excess_parents :
  normalizePath "src/../../../lib/./z" = "lib/z".
Proof. reflexivity. Qed.

(** ** The recursive loader: budget, unfolding, invariants *)

Lemma probe_sound (fs : FileSystem) (filePath : string) (exts : list string)
      (full content : string) :
  probe fs filePath exts = Some (full, content) ->
  fs_exists fs full = Some true /\ fs_readFile fs full = Some content.
Proof.
  induction exts as [| ext exts IH]; simpl; [done |].
  destruct (fs_exists fs (filePath ++ ext)) as [[] |] eqn:He; [| done | done].
  destruct (fs_readFile fs (filePath ++ ext)) as [c |] eqn:Hr; [| done].
  intros [= <- <-]. done.
Qed.

Lemma probe_hit (fs : FileSystem) (filePath ext content : string) (exts : list string) :
  fs_exists fs (filePath ++ ext) = Some true ->
  fs_readFile fs (filePath ++ ext) = Some content ->
  probe fs filePath (ext :: exts) = Some (filePath ++ ext, content).
Proof. intros He Hr. cbn [probe]. by rewrite He, Hr. Qed.

Lemma probe_absent (fs : FileSystem) (filePath ext : string) (exts : list string) :
  fs_exists fs (filePath ++ ext) = Some false ->
  probe fs filePath (ext :: exts) = probe fs filePath exts.
Proof. intros He. cbn [probe]. by rewrite He. Qed.

Lemma probe_unreadable (fs : FileSystem) (filePath ext : string) (exts : list string) :
  fs_exists fs (filePath ++ ext) = Some true ->
  fs_readFile fs (filePath ++ ext) = None ->
  probe fs filePath (ext :: exts) = probe fs filePath exts.
Proof. intros He Hr. cbn [probe]. by rewrite He, Hr. Qed.

Lemma probe_exact (fs : FileSystem) (filePath content : string) :
  fs_exists fs filePath = Some true -> fs_readFile fs filePath = Some content ->
  probe fs filePath extensions = Some (filePath, content).
Proof.
  intros He Hr. unfold extensions.
  pose proof (probe_hit fs filePath "" content) as H.
  rewrite append_empty_r in H. by apply H.
Qed.

Section LoadFacts.

Variable gitton : option FileSystem.
Variable tsconfigPaths : list (string * list string).
Variable tsconfigBaseUrl : string.

Local Abbreviation resolve := (resolveImport tsconfigPaths tsconfigBaseUrl).
Local Abbreviation importsLoop := (loadImports tsconfigPaths tsconfigBaseUrl).
Local Abbreviation extensionsLoop := (tryExtensions tsconfigPaths tsconfigBaseUrl).
Local Abbreviation body := (loadSourceFileBody gitton tsconfigPaths tsconfigBaseUrl).
Local Abbreviation loadFuel := (loadSourceFileFuel gitton tsconfigPaths tsconfigBaseUrl).
Local Abbreviation load := (loadSourceFile gitton tsconfigPaths tsconfigBaseUrl).
Local Abbreviation recur := (selfCall gitton tsconfigPaths tsconfigBaseUrl).

Lemma tryExtensions_probe self fs filePath depth exts st :
  extensionsLoop self fs filePath depth exts st =
  match probe fs filePath exts with
  | Some (full, content) =>
      importsLoop self full depth (extractSpecifiers content)
                  (addFileToMonaco full content st)
  | None => Some st
  end.
Proof.
  induction exts as [| ext exts IH]; simpl; [done |].
  destruct (fs_exists fs (filePath ++ ext)) as [[] |]; [| done | done].
  by destruct (fs_readFile fs (filePath ++ ext)).
Qed.

(** The loops only call [self] one level deeper. *)
Lemma loadImports_ext self1 self2 fullPath depth specifiers st :
  (forall p st', self1 p (S depth) st' = self2 p (S depth) st') ->
  importsLoop self1 fullPath depth specifiers st =
  importsLoop self2 fullPath depth specifiers st.
Proof.
  intros Hself. revert st.
  induction specifiers as [| spec specs IH]; intros st; simpl; [done |].
  destruct (resolve fullPath spec) as [target |]; [| done].
  rewrite Hself. by destruct (self2 target (S depth) st).
Qed.

Lemma loadSourceFileBody_ext self1 self2 filePath depth st :
  (forall p st', self1 p (S depth) st' = self2 p (S depth) st') ->
  body self1 filePath depth st = body self2 filePath depth st.
Proof.
  intros Hself. unfold loadSourceFileBody.
  destruct gitton as [fs |]; [| done].
  destruct (depthBound <? depth)%nat; [done |].
  destruct (decide (filePath ∈ loadedFiles st)); [done |].
  rewrite !tryExtensions_probe.
  destruct (probe fs filePath extensions) as [[full content] |]; [| done].
  by apply loadImports_ext.
Qed.

Lemma loadImports_total self fullPath depth specifiers st :
  (forall p st', is_Some (self p (S depth) st')) ->
  is_Some (importsLoop self fullPath depth specifiers st).
Proof.
  intros Hself. revert st.
  induction specifiers as [| spec specs IH]; intros st; simpl; [done |].
  destruct (resolve fullPath spec) as [target |]; [| done].
  destruct (Hself target st) as [st' ->]. done.
Qed.

Lemma loadSourceFileFuel_S fuel filePath depth st :
  loadFuel (S fuel) filePath depth st =
  body (loadFuel fuel) filePath depth st.
Proof. reflexivity. Qed.

(** Termination: with the budget of its depth, a call returns. *)
Lemma loadSourceFileFuel_enough fuel filePath depth st :
  (budget depth <= fuel)%nat -> is_Some (loadFuel fuel filePath depth st).
Proof.
  revert filePath depth st.
  induction fuel as [| fuel IH]; intros filePath depth st Hfuel;
    [unfold budget in Hfuel; lia |].
  simpl. unfold loadSourceFileBody.
  destruct gitton as [fs |]; [| done].
  destruct (depthBound <? depth)%nat eqn:Hd; [done |].
  destruct (decide (filePath ∈ loadedFiles st)); [done |].
  rewrite tryExtensions_probe.
  destruct (probe fs filePath extensions) as [[full content] |]; [| done].
  apply loadImports_total. intros p st'. apply IH.
  apply Nat.ltb_ge in Hd. unfold budget, depthBound in *. lia.
Qed.

(** More budget does not change the result. *)
Lemma loadSourceFileFuel_stable fuel fuel' filePath depth st :
  (budget depth <= fuel)%nat -> (budget depth <= fuel')%nat ->
  loadFuel fuel filePath depth st = loadFuel fuel' filePath depth st.
Proof.
  revert fuel' filePath depth st.
  induction fuel as [| fuel IH]; intros fuel' filePath depth st Hfuel Hfuel';
    [unfold budget in Hfuel; lia |].
  destruct fuel' as [| fuel']; [unfold budget in Hfuel'; lia |].
  simpl. destruct (depthBound <? depth)%nat eqn:Hd.
  - unfold loadSourceFileBody. rewrite Hd. done.
  - apply loadSourceFileBody_ext. intros p st'. apply IH;
      apply Nat.ltb_ge in Hd; unfold budget, depthBound in *; lia.
Qed.

Lemma loadSourceFile_fuel fuel filePath depth st :
  (budget depth <= fuel)%nat ->
  loadFuel fuel filePath depth st = Some (load filePath depth st).
Proof.
  intros Hfuel. unfold loadSourceFile.
  assert (Hb : (budget depth <= depthBound + 2)%nat) by (unfold budget, depthBound; lia).
  rewrite (loadSourceFileFuel_stable fuel (depthBound + 2)) by done.
  by destruct (loadSourceFileFuel_enough (depthBound + 2) filePath depth st Hb) as [st' ->].
Qed.

(** The defining equation of [load]. *)
Lemma loadSourceFile_unfold filePath depth st :
  body recur filePath depth st = Some (load filePath depth st).
Proof.
  rewrite <- (loadSourceFile_fuel (S (budget depth))) by lia.
  rewrite loadSourceFileFuel_S. destruct (depthBound <? depth)%nat eqn:Hd.
  - unfold loadSourceFileBody. by rewrite Hd.
  - apply loadSourceFileBody_ext. intros p st'. unfold selfCall.
    symmetry. apply loadSourceFile_fuel.
    apply Nat.ltb_ge in Hd. unfold budget, depthBound in *. lia.
Qed.

Lemma loadSourceFile_deep filePath depth st :
  (depthBound < depth)%nat -> load filePath depth st = st.
Proof.
  intros Hd. pose proof (loadSourceFile_unfold filePath depth st) as H.
  unfold loadSourceFileBody in H.
  apply Nat.ltb_lt in Hd. rewrite Hd in H.
  destruct gitton; congruence.
Qed.

Lemma loadSourceFile_known filePath depth st :
  filePath ∈ loadedFiles st -> load filePath depth st = st.
Proof.
  intros Hin. pose proof (loadSourceFile_unfold filePath depth st) as H.
  unfold loadSourceFileBody in H.
  destruct gitton; [| congruence].
  destruct (depthBound <? depth)%nat; [congruence |].
  rewrite decide_True in H by done. congruence.
Qed.

(** What a call does when it gets past its guards. *)
Lemma loadSourceFile_probe fs filePath depth st :
  gitton = Some fs -> (depth <= depthBound)%nat -> filePath ∉ loadedFiles st ->
  Some (load filePath depth st) =
  match probe fs filePath extensions with
  | Some (full, content) =>
      importsLoop recur full depth (extractSpecifiers content)
                  (addFileToMonaco full content st)
  | None => Some st
  end.
Proof.
  intros Hfs Hd Hout. rewrite <- loadSourceFile_unfold.
  unfold loadSourceFileBody. rewrite Hfs.
  apply Nat.ltb_ge in Hd. rewrite Hd.
  rewrite decide_False by done. apply tryExtensions_probe.
Qed.

(** A property kept by every registration of a file that exists and can
    be read is kept by a load. *)
Section Preserved.

Variable P : State -> Prop.
Hypothesis P_register : forall fs p c st,
    gitton = Some fs -> fs_exists fs p = Some true -> fs_readFile fs p = Some c ->
    P st -> P (addFileToMonaco p c st).

Lemma loadImports_preserved self fullPath depth specifiers st st' :
  (forall p d s s', P s -> self p d s = Some s' -> P s') ->
  P st -> importsLoop self fullPath depth specifiers st = Some st' -> P st'.
Proof.
  intros Hself. revert st.
  induction specifiers as [| spec specs IH]; intros st Hst; simpl.
  - by intros [= <-].
  - destruct (resolve fullPath spec) as [target |]; [| by apply IH].
    destruct (self target (S depth) st) as [st1 |] eqn:H1; [| done].
    apply IH. by eapply Hself.
Qed.

Lemma loadSourceFileFuel_preserved fuel filePath depth st st' :
  P st -> loadFuel fuel filePath depth st = Some st' -> P st'.
Proof.
  revert filePath depth st st'.
  induction fuel as [| fuel IH]; intros filePath depth st st' Hst; [done |].
  simpl. unfold loadSourceFileBody.
  destruct gitton as [fs |] eqn:Hfs; [| by intros [= <-]].
  destruct (depthBound <? depth)%nat; [by intros [= <-] |].
  destruct (decide (filePath ∈ loadedFiles st)); [by intros [= <-] |].
  rewrite tryExtensions_probe.
  destruct (probe fs filePath extensions) as [[full content] |] eqn:Hp;
    [| by intros [= <-]].
  apply probe_sound in Hp as [He Hr].
  apply loadImports_preserved; [exact IH |].
  by eapply P_register.
Qed.

Lemma loadSourceFile_preserved filePath depth st :
  P st -> P (load filePath depth st).
Proof.
  intros Hst. eapply loadSourceFileFuel_preserved; [exact Hst |].
  apply (loadSourceFile_fuel (budget depth)). done.
Qed.

End Preserved.

End LoadFacts.

(** ** Cyclic import graphs *)

Section Cycles.

Variable fs : FileSystem.
Variable tsconfigPaths : list (string * list string).
Variable tsconfigBaseUrl : string.

Local Abbreviation load := (loadSourceFile (Some fs) tsconfigPaths tsconfigBaseUrl).
Local Abbreviation self := (selfCall (Some fs) tsconfigPaths tsconfigBaseUrl).
Local Abbreviation imports := (loadImports tsconfigPaths tsconfigBaseUrl self).
Local Abbreviation kept := (sound fs).

Lemma sound_register known fs' p c st :
  Some fs = Some fs' -> fs_exists fs' p = Some true -> fs_readFile fs' p = Some c ->
  kept known st -> kept known (addFileToMonaco p c st).
Proof.
  intros [= <-] He Hr (Hc & Hb & Hk). split; [| split].
  - by apply addFileToMonaco_consistent.
  - intros q. rewrite addFileToMonaco_loaded, elem_of_union, elem_of_singleton.
    intros [-> | Hq]; [by rewrite He, Hr | by apply Hb].
  - rewrite addFileToMonaco_loaded. set_solver.
Qed.

Lemma sound_load known p d st : kept known st -> kept known (load p d st).
Proof.
  apply (loadSourceFile_preserved (Some fs) tsconfigPaths tsconfigBaseUrl (kept known)).
  intros fs' q c st'. apply sound_register.
Qed.

Lemma sound_imports known full d specs st st' :
  kept known st -> imports full d specs st = Some st' -> kept known st'.
Proof.
  apply (loadImports_preserved tsconfigPaths tsconfigBaseUrl (kept known)).
  intros p d' s s' Hs [= <-]. by apply sound_load.
Qed.

Lemma sound_weaken known known' st :
  known' ⊆ loadedFiles st -> kept known st -> kept known' st.
Proof. intros Hk (Hc & Hb & _). by split. Qed.

Lemma sound_self st : consistent st -> backed fs st -> kept (loadedFiles st) st.
Proof. by split. Qed.

(** A load of a stem leaves the file it resolves to in the corpus. *)
Lemma load_registers target b cb d st :
  consistent st -> backed fs st ->
  probe fs target extensions = Some (b, cb) -> (d <= depthBound)%nat ->
  b ∈ loadedFiles (load target d st).
Proof.
  intros Hc Hb Hp Hd.
  destruct (decide (target ∈ loadedFiles st)) as [Hin | Hout].
  - rewrite loadSourceFile_known by done.
    destruct (Hb target Hin) as [He [c Hr]].
    rewrite (probe_exact fs target c He Hr) in Hp. by injection Hp as <- _.
  - pose proof (loadSourceFile_probe (Some fs) tsconfigPaths tsconfigBaseUrl
                  fs target d st eq_refl Hd Hout) as H.
    rewrite Hp in H. symmetry in H.
    destruct (probe_sound _ _ _ _ _ Hp) as [He Hr].
    assert (Hs : kept {[b]} (addFileToMonaco b cb st)).
    { apply (sound_weaken (loadedFiles st)).
      - rewrite addFileToMonaco_loaded. apply union_subseteq_l.
      - apply (sound_register _ fs b cb st eq_refl He Hr), sound_self; done. }
    destruct (sound_imports _ _ _ _ _ _ Hs H) as (_ & _ & Hk).
    by apply singleton_subseteq_l.
Qed.

(** The loop over the specifiers of a file reaches each file it imports. *)
Lemma imports_reach full d specs st st' spec target b cb :
  consistent st -> backed fs st ->
  spec ∈ specs ->
  resolveImport tsconfigPaths tsconfigBaseUrl full spec = Some target ->
  probe fs target extensions = Some (b, cb) -> (S d <= depthBound)%nat ->
  imports full d specs st = Some st' -> b ∈ loadedFiles st'.
Proof.
  intros Hc Hb Hspec Ht Hp Hd. revert st Hc Hb Hspec.
  induction specs as [| spec' specs IH]; intros st Hc Hb Hspec;
    [by apply elem_of_nil in Hspec |].
  simpl. apply elem_of_cons in Hspec as [<- | Hspec].
  - rewrite Ht. unfold selfCall at 1. intros H.
    assert (Hs : kept {[b]} (load target (S d) st)).
    { apply (sound_weaken (loadedFiles st)).
      - apply singleton_subseteq_l. by eapply load_registers.
      - apply sound_load, sound_self; done. }
    destruct (sound_imports _ _ _ _ _ _ Hs H) as (_ & _ & Hk).
    by apply singleton_subseteq_l.
  - destruct (resolveImport tsconfigPaths tsconfigBaseUrl full spec') as [t |];
      [| by apply IH].
    unfold selfCall at 1.
    destruct (sound_load _ t (S d) st (sound_self st Hc Hb)) as (Hc' & Hb' & _).
    by apply IH.
Qed.


End Cycles.

(** ** Chains of imports and the depth bound *)

Section Chains.

Variable fs : FileSystem.
Variable tsconfigPaths : list (string * list string).
Variable tsconfigBaseUrl : string.

Local Abbreviation load := (loadSourceFile (Some fs) tsconfigPaths tsconfigBaseUrl).
Local Abbreviation self := (selfCall (Some fs) tsconfigPaths tsconfigBaseUrl).
Local Abbreviation imports := (loadImports tsconfigPaths tsconfigBaseUrl self).
Local Abbreviation targets := (importTargets tsconfigPaths tsconfigBaseUrl).
Local Abbreviation isChain := (chain fs tsconfigPaths tsconfigBaseUrl).
Local Abbreviation follow := (loadTargets fs tsconfigPaths tsconfigBaseUrl).

Lemma imports_targets fullPath depth specifiers st :
  imports fullPath depth specifiers st =
  follow depth (omap (resolveImport tsconfigPaths tsconfigBaseUrl fullPath) specifiers) st.
Proof.
  revert st. induction specifiers as [| spec specs IH]; intros st; [done |].
  simpl. destruct (resolveImport tsconfigPaths tsconfigBaseUrl fullPath spec) as [t |];
    simpl; [| apply IH].
  destruct (self t (S depth) st); [apply IH | done].
Qed.

Lemma load_chain (l : list ChainFile) (f : ChainFile) (d : nat) (st : State) :
  isChain (f :: l) -> distinct (f :: l) ->
  (forall g, g ∈ (f :: l) -> (stem g ∉ loadedFiles st) /\ (full g ∉ loadedFiles st)) ->
  load (stem f) d st = registerAll (List.map chainOp (take (depthBound + 1 - d) (f :: l))) st.
Proof.
  revert f d st. induction l as [| g l IH]; intros f d st Hchain Hdist Hfresh.
  - destruct (decide (depthBound < d)%nat) as [Hd | Hd].
    + rewrite loadSourceFile_deep by done.
      replace (depthBound + 1 - d)%nat with 0%nat by lia. reflexivity.
    + inversion Hchain as [f' Hp Ht |]; subst.
      assert (Hout : stem f ∉ loadedFiles st) by (apply Hfresh; left).
      assert (Hd' : (d <= depthBound)%nat) by lia.
      pose proof (loadSourceFile_probe (Some fs) tsconfigPaths tsconfigBaseUrl
                    fs (stem f) d st eq_refl Hd' Hout) as H.
      rewrite Hp, imports_targets in H.
      unfold importTargets in Ht. rewrite Ht in H. simpl in H.
      injection H as ->.
      replace (depthBound + 1 - d)%nat with (S (depthBound - d)) by lia.
      simpl. by rewrite take_nil.
  - destruct (decide (depthBound < d)%nat) as [Hd | Hd].
    + rewrite loadSourceFile_deep by done.
      replace (depthBound + 1 - d)%nat with 0%nat by lia. reflexivity.
    + inversion Hchain as [| f' g' l' Hp Ht Hrest]; subst.
      assert (Hout : stem f ∉ loadedFiles st) by (apply Hfresh; left).
      assert (Hd' : (d <= depthBound)%nat) by lia.
      pose proof (loadSourceFile_probe (Some fs) tsconfigPaths tsconfigBaseUrl
                    fs (stem f) d st eq_refl Hd' Hout) as H.
      rewrite Hp, imports_targets in H.
      unfold importTargets in Ht. rewrite Ht in H. simpl in H.
      unfold selfCall in H. injection H as ->.
      replace (depthBound + 1 - d)%nat with (S (depthBound + 1 - S d)) by lia.
      destruct Hdist as [Hf Hdist].
      rewrite IH; [done | done | done |].
      intros h Hh. rewrite addFileToMonaco_loaded.
      destruct (Hf h Hh) as [Hfull Hstem].
      destruct (Hfresh h) as [Hs1 Hs2]; [by right |].
      rewrite !elem_of_union, !elem_of_singleton.
      split; intros [Heq | Hin]; congruence.
Qed.

Lemma distinct_fresh (l : list ChainFile) (f : ChainFile) :
  distinct (f :: l) -> forall g, g ∈ l -> full g <> full f.
Proof. intros [Hf _] g Hg. by apply Hf. Qed.

Lemma distinct_take (n : nat) (l : list ChainFile) : distinct l -> distinct (take n l).
Proof.
  revert n. induction l as [| f l IH]; intros [| n] Hd; try done.
  destruct Hd as [Hf Hd]. simpl. split; [| by apply IH].
  intros g Hg. apply Hf. by apply (subseteq_take n l).
Qed.

(** Registering the files of a chain calls the engine once for each, in
    the order of the chain. *)
Lemma registerAll_chain (l : list ChainFile) (st : State) :
  distinct l -> (forall g, g ∈ l -> full g ∉ loadedFiles st) ->
  tsExtraLibs (registerAll (List.map chainOp l) st)
  = (tsExtraLibs st ++ List.map chainCall l)%list
  /\ loadedFiles (registerAll (List.map chainOp l) st)
     = loadedFiles st ∪ list_to_set (List.map full l).
Proof.
  revert st. induction l as [| f l IH]; intros st Hd Hfresh.
  - simpl. rewrite app_nil_r. split; [done |]. set_solver.
  - destruct Hd as [Hf Hd]. simpl.
    destruct (IH (addFileToMonaco (full f) (text f) st)) as [Hlog Hset]; [done | |].
    + intros g Hg. rewrite addFileToMonaco_loaded.
      rewrite elem_of_union, elem_of_singleton.
      intros [Heq | Hin].
      * destruct (Hf g Hg) as [Hne _]. by apply Hne.
      * apply (Hfresh g); [by right | done].
    + rewrite Hlog, Hset, addFileToMonaco_loaded.
      unfold addFileToMonaco.
      rewrite decide_False by (apply Hfresh; left). simpl.
      rewrite <- app_assoc. split; [done |]. set_solver.
Qed.

(** C3. On a chain of nested imports longer than the recursion bound, a
    load of the entry point registers the entry point and the next
    [depthBound] files, [depthBound + 1] in all, in the order of the
    chain, and nothing else; a call at a depth above the bound returns the
    state it was given. *)
Theorem loadSourceFile_chain_bound (f : ChainFile) (l : list ChainFile) :
  isChain (f :: l) -> distinct (f :: l) ->
  (depthBound < List.length (f :: l))%nat ->
  tsExtraLibs (load (stem f) 0 initState)
  = List.map chainCall (take (depthBound + 1) (f :: l))
  /\ List.length (tsExtraLibs (load (stem f) 0 initState)) = (depthBound + 1)%nat
  /\ loadedFiles (load (stem f) 0 initState)
     = list_to_set (List.map full (take (depthBound + 1) (f :: l)))
  /\ (forall p d st, (depthBound < d)%nat -> load p d st = st).
Proof.
  intros Hchain Hdist Hlen.
  rewrite (load_chain l f 0 initState Hchain Hdist).
  2: { intros g _. split; apply not_elem_of_empty. }
  replace (depthBound + 1 - 0)%nat with (depthBound + 1)%nat by lia.
  destruct (registerAll_chain (take (depthBound + 1) (f :: l)) initState) as [Hlog Hset].
  { by apply distinct_take. }
  { intros g _. apply not_elem_of_empty. }
  rewrite Hlog, Hset. simpl tsExtraLibs. simpl loadedFiles.
  split; [done |]. split.
  - rewrite app_nil_l, List.length_map, length_take. lia.
  - split; [by rewrite union_empty_l_L |].
    intros p d st. apply loadSourceFile_deep.
Qed.

End Chains.

(** ** Alias resolution *)

Lemma resolvePathAliasIn_cons (base alias importPath : string) (targets : list string)
      (rest : list (string * list string)) :
  resolvePathAliasIn base ((alias, targets) :: rest) importPath =
  match aliasCapture alias importPath, targets with
  | Some captured, target :: _ => Some (aliasTargetPath base captured target)
  | _, _ => resolvePathAliasIn base rest importPath
  end.
Proof.
  unfold aliasCapture. cbn [resolvePathAliasIn].
  destruct (stringMatch (newRegExp (aliasRegExpSource alias)) importPath);
    cbn [option_map]; [by destruct targets | done].
Qed.

Lemma resolvePathAliasIn_skip (base importPath : string)
      (before rest : list (string * list string)) :
  (forall a ts, (a, ts) ∈ before -> aliasCapture a importPath = None \/ ts = []) ->
  resolvePathAliasIn base (before ++ rest) importPath
  = resolvePathAliasIn base rest importPath.
Proof.
  induction before as [| [a ts] before IH]; intros Hskip; [done |].
  rewrite <- app_comm_cons, resolvePathAliasIn_cons.
  rewrite IH by (intros a' ts' H; apply Hskip; by right).
  destruct (Hskip a ts) as [-> | ->]; [left | done |].
  by destruct (aliasCapture a importPath).
Qed.

(** C6. The alias patterns are tried in the order of the table.  The first
    pattern that matches the specifier and has a target wins: the path
    returned is computed from the first target of that pattern, whatever
    the entries that follow it in the table, and the filesystem is not
    consulted.  Entries before it either do not match or have an empty
    target list; a matching pattern with an empty target list is passed
    over. *)
Theorem resolvePathAlias_first_usable_pattern
        (before after : list (string * list string))
        (alias target : string) (targets : list string)
        (base importPath captured : string) :
  (forall a ts, (a, ts) ∈ before -> aliasCapture a importPath = None \/ ts = []) ->
  aliasCapture alias importPath = Some captured ->
  resolvePathAlias (before ++ (alias, target :: targets) :: after) base importPath
  = Some (aliasTargetPath base captured target)
  /\ (forall after',
         resolvePathAlias (before ++ (alias, target :: targets) :: after') base importPath
         = resolvePathAlias (before ++ (alias, target :: targets) :: after) base importPath).
Proof.
  intros Hskip Hcap. unfold resolvePathAlias.
  assert (H : forall rest,
             resolvePathAliasIn base (before ++ (alias, target :: targets) :: rest) importPath
             = Some (aliasTargetPath base captured target)).
  { intros rest. rewrite resolvePathAliasIn_skip by done.
    by rewrite resolvePathAliasIn_cons, Hcap. }
  split; [apply H |]. intros after'. by rewrite !H.
Qed.

(** C7. Within the pattern that wins, the first target template wins
    without any condition: the path returned is the one computed from it,
    the templates after it are never looked at, and the resolver, which
    takes no filesystem, cannot tell whether that path exists. *)
Theorem resolvePathAlias_first_target_unconditional
        (alias target : string) (targets : list string)
        (others : list (string * list string))
        (base importPath captured : string) :
  aliasCapture alias importPath = Some captured ->
  resolvePathAlias ((alias, target :: targets) :: others) base importPath
  = Some (stripDotSlash
            (if String.eqb base "" then Str.replaceFirst "*" captured target
             else base ++ "/" ++ Str.replaceFirst "*" captured target))
  /\ resolvePathAlias ((alias, target :: targets) :: others) base importPath
     = resolvePathAlias ((alias, [target]) :: others) base importPath.
Proof.
  intros Hcap. unfold resolvePathAlias.
  rewrite !resolvePathAliasIn_cons, Hcap. done.
Qed.

Example alias_source : aliasRegExpSource "@/*" = "^@/(.*)$".
Proof. reflexivity. Qed.

Example alias_capture_prefix : aliasCapture "@/*" "@/lib/utils" = Some "lib/utils".
Proof. vm_compute. reflexivity. Qed.

Example alias_capture_exact : aliasCapture "config" "config" = Some "".
Proof. vm_compute. reflexivity. Qed.

Example alias_capture_miss : aliasCapture "@/*" "~/lib/utils" = None.
Proof. vm_compute. reflexivity. Qed.

Example alias_substitution :
  resolvePathAlias [("@/*", ["src/*"])] "." "@/lib/utils" = Some "src/lib/utils".
Proof. vm_compute. reflexivity. Qed.

(** ** Probing failures and external specifiers *)

Section Probing.

Variable fs : FileSystem.
Variable tsconfigPaths : list (string * list string).
Variable tsconfigBaseUrl : string.

Local Abbreviation load := (loadSourceFile (Some fs) tsconfigPaths tsconfigBaseUrl).
Local Abbreviation self := (selfCall (Some fs) tsconfigPaths tsconfigBaseUrl).
Local Abbreviation imports := (loadImports tsconfigPaths tsconfigBaseUrl self).

(** A load only adds paths, and only paths that can be read. *)
Lemma load_grows p d st q : q ∈ loadedFiles st -> q ∈ loadedFiles (load p d st).
Proof.
  apply (loadSourceFile_preserved (Some fs) tsconfigPaths tsconfigBaseUrl
           (fun s => q ∈ loadedFiles s)).
  intros fs' r c s _ _ _ Hq. rewrite addFileToMonaco_loaded. set_solver.
Qed.

Lemma imports_grow full d specs st st' q :
  q ∈ loadedFiles st -> imports full d specs st = Some st' -> q ∈ loadedFiles st'.
Proof.
  apply (loadImports_preserved tsconfigPaths tsconfigBaseUrl (fun s => q ∈ loadedFiles s)).
  intros p d' s s' Hq [= <-]. by apply load_grows.
Qed.

Lemma load_skips_unreadable p d st q :
  fs_readFile fs q = None -> q ∉ loadedFiles st -> q ∉ loadedFiles (load p d st).
Proof.
  intros Hq.
  apply (loadSourceFile_preserved (Some fs) tsconfigPaths tsconfigBaseUrl
           (fun s => q ∉ loadedFiles s)).
  intros fs' r c s [= <-] _ Hr Hout. rewrite addFileToMonaco_loaded.
  rewrite elem_of_union, elem_of_singleton. intros [-> | Hin]; [congruence | done].
Qed.

(** A candidate that exists and cannot be read is passed over: the
    probing settles on the next usable one, which joins the set of loaded
    files, and the unreadable one does not. *)
Lemma loadSourceFile_read_failure_membership (p c : string) (d : nat) (st : State) :
  fs_exists fs p = Some false ->
  fs_exists fs (p ++ ".ts") = Some true -> fs_readFile fs (p ++ ".ts") = None ->
  fs_exists fs (p ++ ".tsx") = Some true -> fs_readFile fs (p ++ ".tsx") = Some c ->
  (d <= depthBound)%nat -> p ∉ loadedFiles st -> (p ++ ".ts") ∉ loadedFiles st ->
  (forall call filePath depth ext exts st',
      fs_exists fs (filePath ++ ext) = Some true ->
      fs_readFile fs (filePath ++ ext) = None ->
      tryExtensions tsconfigPaths tsconfigBaseUrl call fs filePath depth (ext :: exts) st'
      = tryExtensions tsconfigPaths tsconfigBaseUrl call fs filePath depth exts st')
  /\ probe fs p extensions = Some (p ++ ".tsx", c)
  /\ (p ++ ".tsx") ∈ loadedFiles (load p d st)
  /\ (p ++ ".ts") ∉ loadedFiles (load p d st).
Proof.
  intros Hp Hts Hrts Htsx Hrtsx Hd Hout Hout'.
  split; [intros call filePath depth ext exts st' He Hr; simpl; by rewrite He, Hr |].
  assert (Hprobe : probe fs p extensions = Some (p ++ ".tsx", c)).
  { unfold extensions.
    rewrite probe_absent by (by rewrite append_empty_r).
    rewrite probe_unreadable by done. by apply probe_hit. }
  split; [done |]. split; [| by apply load_skips_unreadable].
  pose proof (loadSourceFile_probe (Some fs) tsconfigPaths tsconfigBaseUrl
                fs p d st eq_refl Hd Hout) as H.
  rewrite Hprobe in H. symmetry in H.
  eapply imports_grow; [| exact H].
  rewrite addFileToMonaco_loaded. apply elem_of_union_l. by apply elem_of_singleton.
Qed.

(** The loop passes over an external specifier. *)
Lemma loadImports_external call full d spec specs st :
  isExternal spec = true ->
  loadImports tsconfigPaths tsconfigBaseUrl call full d (spec :: specs) st
  = loadImports tsconfigPaths tsconfigBaseUrl call full d specs st.
Proof. intros H. simpl. unfold resolveImport. by rewrite H. Qed.

Lemma loadImports_all_external call full d specs st :
  Forall (fun spec => isExternal spec = true) specs ->
  loadImports tsconfigPaths tsconfigBaseUrl call full d specs st = Some st.
Proof.
  induction 1 as [| spec specs Hspec _ IH]; [done |].
  by rewrite loadImports_external.
Qed.

(** The loop over the specifiers is the fold of [followSpecifier]. *)
Lemma loadImports_follow full d specs st :
  imports full d specs st
  = Some (fold_left (followSpecifier (Some fs) tsconfigPaths tsconfigBaseUrl full d)
                    specs st).
Proof.
  revert st. induction specs as [| spec specs IH]; intros st; [done |].
  cbn [loadImports fold_left].
  assert (Hstep : followSpecifier (Some fs) tsconfigPaths tsconfigBaseUrl full d st spec
                  = match resolveImport tsconfigPaths tsconfigBaseUrl full spec with
                    | Some target => load target (S d) st
                    | None => st
                    end).
  { unfold followSpecifier, resolveImport.
    destruct (isExternal spec); [done |].
    destruct (Str.startsWith spec "."); [done |].
    destruct (resolvePathAlias tsconfigPaths tsconfigBaseUrl spec) as [r |]; [| done].
    by destruct (String.eqb r ""). }
  rewrite Hstep.
  destruct (resolveImport tsconfigPaths tsconfigBaseUrl full spec) as [target |];
    [| apply IH].
  unfold selfCall at 1. apply IH.
Qed.

(** C5. A specifier is local when it begins with the relative marker or
    with one of the two fixed markers of aliased paths, and external
    otherwise.  A load registers the file it resolves to and then goes
    through every specifier of the file, in the order of the text: an
    external one is passed over without any effect and the loop goes on
    with the next; a relative one is followed by a load from the directory
    of the importing file, one level deeper; the others are followed
    through the alias resolver.  Nothing else happens: no specifier is
    handed to the package type loader.  Every local specifier that
    resolves to a file is followed: that file is passed to the engine
    once. *)
Theorem loadSourceFile_skips_external (p full content : string) (d : nat) (st : State) :
  probe fs p extensions = Some (full, content) ->
  (d <= depthBound)%nat -> p ∉ loadedFiles st ->
  load p d st
  = fold_left (followSpecifier (Some fs) tsconfigPaths tsconfigBaseUrl full d)
              (extractSpecifiers content) (addFileToMonaco full content st)
  /\ (forall spec,
         isExternal spec = false <->
         Str.startsWith spec "." = true \/ Str.startsWith spec "@/" = true
         \/ Str.startsWith spec "~/" = true)
  /\ (forall before spec after,
         extractSpecifiers content = (before ++ spec :: after)%list ->
         isExternal spec = true ->
         load p d st
         = fold_left (followSpecifier (Some fs) tsconfigPaths tsconfigBaseUrl full d)
                     (before ++ after) (addFileToMonaco full content st))
  /\ (forall spec target b cb,
         consistent st -> backed fs st ->
         spec ∈ extractSpecifiers content ->
         isExternal spec = false ->
         resolveImport tsconfigPaths tsconfigBaseUrl full spec = Some target ->
         probe fs target extensions = Some (b, cb) ->
         (d < depthBound)%nat ->
         b ∈ loadedFiles (load p d st)
         /\ registrations b (load p d st) = 1%nat).
Proof.
  intros Hp Hd Hout.
  pose proof (loadSourceFile_probe (Some fs) tsconfigPaths tsconfigBaseUrl
                fs p d st eq_refl Hd Hout) as H.
  rewrite Hp in H.
  assert (Hfold : load p d st
                  = fold_left (followSpecifier (Some fs) tsconfigPaths tsconfigBaseUrl full d)
                              (extractSpecifiers content) (addFileToMonaco full content st)).
  { rewrite loadImports_follow in H. congruence. }
  split; [exact Hfold |]. split; [| split].
  - intros spec. unfold isExternal.
    destruct (Str.startsWith spec "."), (Str.startsWith spec "@/"),
      (Str.startsWith spec "~/"); simpl; intuition congruence.
  - intros before spec after Hspecs Hext. rewrite Hfold, Hspecs.
    assert (Hskip : forall s,
               followSpecifier (Some fs) tsconfigPaths tsconfigBaseUrl full d s spec = s).
    { intros s. unfold followSpecifier. by rewrite Hext. }
    rewrite !fold_left_app. cbn [fold_left]. by rewrite Hskip.
  - intros spec target b cb Hc Hb Hspec _ Ht Hprobe Hlt.
    destruct (probe_sound _ _ _ _ _ Hp) as [He Hr].
    destruct (sound_register fs (loadedFiles st) fs full content st eq_refl He Hr
                (sound_self fs st Hc Hb)) as (Hc1 & Hb1 & _).
    symmetry in H.
    assert (Hin : b ∈ loadedFiles (load p d st)).
    { exact (imports_reach fs tsconfigPaths tsconfigBaseUrl full d _ _ _ spec target b cb
               Hc1 Hb1 Hspec Ht Hprobe Hlt H). }
    split; [exact Hin |]. apply registrations_loaded; [| exact Hin].
    by destruct (sound_load fs tsconfigPaths tsconfigBaseUrl (loadedFiles st) p d st
                   (sound_self fs st Hc Hb)) as (Hc' & _).
Qed.

End Probing.

(** ** The declaration crawler and its size filter *)

Section Crawl.

Variable fs : FileSystem.
Variable maxDepth : nat.

Local Abbreviation crawlFuel := (loadDtsFromDirFuel (Some fs)).
Local Abbreviation crawl := (loadDtsFromDir (Some fs)).
Local Abbreviation seen := (visits fs maxDepth).
Local Abbreviation given := (yields fs maxDepth).

Lemma visits_read dir cur p c : seen dir cur p c -> fs_readFile fs p = Some c
with yields_read dir cur entry p c : given dir cur entry p c -> fs_readFile fs p = Some c.
Proof.
  - intros [dir' cur' entries entry p' c' _ _ _ Hy]. by eapply yields_read.
  - intros [dir' cur' entry' c' _ _ _ Hr | dir' cur' entry' p' c' _ _ _ Hv];
      [done | by eapply visits_read].
Qed.

Lemma adds_none (reads : string -> string -> Prop) (st : State) :
  (forall p c, ~ reads p c) -> adds reads st st.
Proof. intros Hn p. split; [by left |]. intros [H | (c & H & _)]; [done | by apply Hn in H]. Qed.

Lemma crawlEntries_adds call dir cur entries st st' :
  (forall d s s', call d maxDepth (S cur) s = Some s' -> adds (seen d (S cur)) s s') ->
  crawlEntries call fs dir maxDepth cur entries st = Some st' ->
  adds (fun p c => exists entry, entry ∈ entries /\ given dir cur entry p c) st st'.
Proof.
  intros Hcall. revert st.
  induction entries as [| entry entries IH]; intros st; cbn [crawlEntries].
  - intros [= <-]. apply adds_none. intros p c (e & He & _). by apply elem_of_nil in He.
  - assert (Hskip :
              (forall p c, ~ given dir cur entry p c) ->
              crawlEntries call fs dir maxDepth cur entries st = Some st' ->
              adds (fun p c => exists e, e ∈ entry :: entries /\ given dir cur e p c) st st').
    { intros Hno H p. rewrite (IH st H p). apply or_iff_compat_l.
      split; intros (c & (e & He & Hy) & Hs); exists c; (split; [| done]); exists e.
      - split; [by right | done].
      - apply elem_of_cons in He as [-> | He]; [by apply Hno in Hy | done]. }
    destruct (Str.startsWith (name entry) ".") eqn:Hhid.
    { apply Hskip. intros p c Hy. inversion Hy; congruence. }
    destruct (isDirectory entry) eqn:Hdir.
    + destruct (existsb (String.eqb (name entry)) heavyDirectories) eqn:Hheavy.
      { apply Hskip. intros p c Hy. inversion Hy; congruence. }
      destruct (call (entryPath dir entry) maxDepth (S cur) st) as [st1 |] eqn:H1; [| done].
      intros H p. rewrite (IH st1 H p), (Hcall _ _ _ H1 p). split.
      * intros [[Hp | (c & Hv & Hs)] | (c & (e & He & Hy) & Hs)]; [by left | right ..].
        -- exists c. split; [| done]. exists entry. split; [left |]. by apply yields_dir.
        -- exists c. split; [| done]. exists e. split; [by right | done].
      * intros [Hp | (c & (e & He & Hy) & Hs)]; [by left; left |].
        apply elem_of_cons in He as [-> | He].
        -- left. right. exists c. split; [| done]. inversion Hy; subst; [congruence | done].
        -- right. exists c. split; [| done]. by exists e.
    + destruct (Str.endsWith (name entry) ".d.ts") eqn:Hdts.
      2: { apply Hskip. intros p c Hy. inversion Hy; congruence. }
      destruct (fs_readFile fs (entryPath dir entry)) as [content |] eqn:Hread.
      2: { apply Hskip. intros p c Hy. inversion Hy; congruence. }
      fold (small content). destruct (small content) eqn:Hsmall.
      2: { intros H p. rewrite (IH st H p). apply or_iff_compat_l.
           split; intros (c & (e & He & Hy) & Hs); exists c; (split; [| done]); exists e.
           - split; [by right | done].
           - apply elem_of_cons in He as [-> | He]; [| done].
             inversion Hy; subst; congruence. }
      intros H p. rewrite (IH _ H p), addFileToMonaco_loaded.
      rewrite elem_of_union, elem_of_singleton. split.
      * intros [[-> | Hp] | (c & (e & He & Hy) & Hs)]; [right | by left | right].
        -- exists content. split; [| done]. exists entry. split; [left |].
           by apply yields_file.
        -- exists c. split; [| done]. exists e. split; [by right | done].
      * intros [Hp | (c & (e & He & Hy) & Hs)]; [by left; right |].
        apply elem_of_cons in He as [-> | He].
        -- left. left. inversion Hy; subst; [done | congruence].
        -- right. exists c. split; [| done]. by exists e.
Qed.

Lemma crawlFuel_adds fuel dir cur st st' :
  crawlFuel fuel dir maxDepth cur st = Some st' -> adds (seen dir cur) st st'.
Proof.
  revert dir cur st st'. induction fuel as [| fuel IH]; intros dir cur st st'; [done |].
  simpl. unfold loadDtsFromDirBody.
  destruct (maxDepth <? cur)%nat eqn:Hd.
  { intros [= <-]. apply adds_none. intros p c Hv.
    apply Nat.ltb_lt in Hd. inversion Hv. lia. }
  destruct (fs_readdir fs dir) as [entries |] eqn:Hdir.
  2: { intros [= <-]. apply adds_none. intros p c Hv. inversion Hv. congruence. }
  intros H p. rewrite (crawlEntries_adds _ dir cur entries st st' (fun d s s' => IH d (S cur) s s') H p).
  apply or_iff_compat_l. apply Nat.ltb_ge in Hd.
  split; intros (c & Hr & Hs); exists c; (split; [| done]).
  - destruct Hr as (e & He & Hy). by eapply visits_entry.
  - inversion Hr as [? ? entries' e ? ? _ Hdir' He Hy]; subst.
    rewrite Hdir in Hdir'. injection Hdir' as <-. by exists e.
Qed.

Lemma crawlEntries_total call dir cur entries st :
  (forall d s, is_Some (call d maxDepth (S cur) s)) ->
  is_Some (crawlEntries call fs dir maxDepth cur entries st).
Proof.
  intros Hcall. revert st.
  induction entries as [| entry entries IH]; intros st; cbn [crawlEntries]; [done |].
  destruct (Str.startsWith (name entry) "."); [done |].
  destruct (isDirectory entry).
  - destruct (existsb (String.eqb (name entry)) heavyDirectories); [done |].
    destruct (Hcall (entryPath dir entry) st) as [st1 ->]. done.
  - destruct (Str.endsWith (name entry) ".d.ts"); [| done].
    destruct (fs_readFile fs (entryPath dir entry)) as [content |]; [| done].
    by destruct (Z.of_nat (String.length content) <? sizeThreshold)%Z.
Qed.

(** Termination of the crawl: the depth bound is its budget. *)
Lemma loadDtsFromDirFuel_enough fuel dir cur st :
  (S (maxDepth + 1 - cur) <= fuel)%nat -> is_Some (crawlFuel fuel dir maxDepth cur st).
Proof.
  revert dir cur st. induction fuel as [| fuel IH]; intros dir cur st Hfuel; [lia |].
  simpl. unfold loadDtsFromDirBody.
  destruct (maxDepth <? cur)%nat eqn:Hd; [done |].
  destruct (fs_readdir fs dir) as [entries |]; [| done].
  apply crawlEntries_total. intros d s. apply IH.
  apply Nat.ltb_ge in Hd. lia.
Qed.

Lemma loadDtsFromDir_adds dir cur st : adds (seen dir cur) st (crawl dir maxDepth cur st).
Proof.
  unfold loadDtsFromDir.
  destruct (loadDtsFromDirFuel_enough (S (maxDepth + 1 - cur)) dir cur st) as [st' H]; [lia |].
  rewrite H. by eapply crawlFuel_adds.
Qed.

(** A declaration file that the crawler reads and that is not in the set
    of loaded files yet is in that set after the crawl exactly when the
    length of its content is below the threshold. *)
Lemma loadDtsFromDir_size_membership (dir p c : string) (cur : nat) (st : State) :
  seen dir cur p c -> p ∉ loadedFiles st ->
  (p ∈ loadedFiles (crawl dir maxDepth cur st)
   <-> (Z.of_nat (String.length c) < 500 * 1024)%Z)
  /\ ((500 * 1024 <= Z.of_nat (String.length c))%Z ->
      p ∉ loadedFiles (crawl dir maxDepth cur st))
  /\ (Z.of_nat (String.length c) = (500 * 1024 - 1)%Z ->
      p ∈ loadedFiles (crawl dir maxDepth cur st)).
Proof.
  intros Hv Hout.
  assert (Hiff : p ∈ loadedFiles (crawl dir maxDepth cur st)
                 <-> (Z.of_nat (String.length c) < 500 * 1024)%Z).
  { rewrite (loadDtsFromDir_adds dir cur st p). split.
    - intros [Hp | (c' & Hv' & Hs)]; [done |].
      apply visits_read in Hv, Hv'. rewrite Hv in Hv'. injection Hv' as <-.
      unfold small, sizeThreshold in Hs. by apply Z.ltb_lt in Hs.
    - intros Hlt. right. exists c. split; [done |].
      unfold small, sizeThreshold. by apply Z.ltb_lt. }
  split; [done |]. split.
  - intros Hge Hin. apply Hiff in Hin. lia.
  - intros Heq. apply Hiff. lia.
Qed.

End Crawl.

(** ** The import expression on static forms *)

Lemma length_append (s t : string) :
  String.length (s ++ t) = (String.length s + String.length t)%nat.
Proof. induction s as [| c s IH]; [done |]. rewrite append_cons. simpl. by rewrite IH. Qed.

Lemma take_append (s t : string) : Str.take (String.length s) (s ++ t) = s.
Proof. induction s as [| c s IH]; [by destruct t |]. rewrite append_cons. simpl. by rewrite IH. Qed.

Lemma flat_map_single {A B} (f : A -> list B) (x : A) : flat_map f [x] = f x.
Proof. simpl. apply app_nil_r. Qed.

Lemma flat_map_flat_map {A B C} (f : A -> list B) (g : B -> list C) (l : list A) :
  flat_map g (flat_map f l) = flat_map (fun x => flat_map g (f x)) l.
Proof.
  induction l as [| x l IH]; [done |]. simpl. by rewrite flat_map_app, IH.
Qed.

Lemma flat_map_map {A B C} (f : A -> B) (g : B -> list C) (l : list A) :
  flat_map g (List.map f l) = flat_map (fun x => g (f x)) l.
Proof. induction l as [| x l IH]; [done |]. simpl. by rewrite IH. Qed.

Section RunAlgebra.

Variables (s : string) (cap : option string).

Lemma run_seq (a b : regex) :
  run (Seq a b) s cap = flat_map (fun o : outcome => run b (fst o) (snd o)) (run a s cap).
Proof. reflexivity. Qed.

Lemma run_seq_assoc (a b c : regex) :
  run (Seq (Seq a b) c) s cap = run (Seq a (Seq b c)) s cap.
Proof. rewrite !run_seq. rewrite flat_map_flat_map. done. Qed.

Lemma run_seq_alt (a b c : regex) :
  run (Seq (Alt a b) c) s cap = (run (Seq a c) s cap ++ run (Seq b c) s cap)%list.
Proof.
  rewrite !run_seq.
  change (run (Alt a b) s cap) with (run a s cap ++ run b s cap)%list.
  by rewrite flat_map_app.
Qed.

Lemma run_seq_eps (c : regex) : run (Seq Eps c) s cap = run c s cap.
Proof. rewrite run_seq. change (run Eps s cap) with [(s, cap)]. cbn [flat_map fst snd]; apply app_nil_r. Qed.

End RunAlgebra.

Lemma run_seq_chr (c c' : ascii) (X : regex) (y : string) (cap : option string) :
  run (Seq (Chr c) X) (String c' y) cap = if Ascii.eqb c' c then run X y cap else [].
Proof.
  rewrite run_seq.
  change (run (Chr c) (String c' y) cap) with (if Ascii.eqb c' c then [(y, cap)] else []).
  destruct (Ascii.eqb c' c); [cbn [flat_map fst snd]; apply app_nil_r | done].
Qed.

Lemma run_seq_cls (p : ascii -> bool) (c' : ascii) (X : regex) (y : string) (cap : option string) :
  run (Seq (Cls p) X) (String c' y) cap = if p c' then run X y cap else [].
Proof.
  rewrite run_seq.
  change (run (Cls p) (String c' y) cap) with (if p c' then [(y, cap)] else []).
  destruct (p c'); [cbn [flat_map fst snd]; apply app_nil_r | done].
Qed.

Lemma run_seq_lit (w : string) (X : regex) (y : string) (cap : option string) :
  run (Seq (Lit w) X) (w ++ y) cap = run X y cap.
Proof.
  induction w as [| c w IH].
  - rewrite append_empty_l. apply run_seq_eps.
  - rewrite append_cons. simpl Lit. rewrite run_seq_assoc, run_seq_chr, Ascii.eqb_refl. exact IH.
Qed.

Lemma run_seq_star (p : ascii -> bool) (X : regex) (u : string) (q : ascii) (t : string)
      (cap : option string) :
  allChars p u = true -> p q = false -> rejects p X ->
  run (Seq (Star p) X) (u ++ String q t) cap = run X (String q t) cap.
Proof.
  intros Hu Hq HX. rewrite run_seq.
  change (run (Star p) (u ++ String q t) cap)
    with (List.map (fun rest => (rest, cap)) (starRuns p (u ++ String q t))).
  rewrite flat_map_map. cbn [fst snd].
  induction u as [| c u IH].
  - rewrite append_empty_l. cbn [starRuns]. rewrite Hq. cbn [flat_map fst snd]; apply app_nil_r.
  - cbn [allChars] in Hu. apply andb_prop in Hu as [Hc Hu].
    rewrite append_cons. cbn [starRuns]. rewrite Hc, flat_map_app, IH by done.
    cbn [flat_map]. rewrite (HX c _ cap Hc). by rewrite !app_nil_r.
Qed.

Lemma run_seq_plus (p : ascii -> bool) (X : regex) (u : string) (q : ascii) (t : string)
      (cap : option string) :
  u <> "" -> allChars p u = true -> p q = false -> rejects p X ->
  run (Seq (Plus p) X) (u ++ String q t) cap = run X (String q t) cap.
Proof.
  intros Hne Hu Hq HX. destruct u as [| c u]; [done |].
  cbn [allChars] in Hu. apply andb_prop in Hu as [Hc Hu].
  unfold Plus. rewrite run_seq_assoc, append_cons, run_seq_cls, Hc.
  by apply run_seq_star.
Qed.

(** The capture group and the closing quote. *)
Lemma run_capture (u : string) (q : ascii) (t : string) (cap : option string) :
  u <> "" -> allChars notQuote u = true -> isQuote q = true ->
  run (Seq (Cap (Plus notQuote)) (Cls isQuote)) (u ++ String q t) cap = [(t, Some u)].
Proof.
  intros Hne Hu Hq. destruct u as [| c u]; [done |].
  cbn [allChars] in Hu. apply andb_prop in Hu as [Hc Hu].
  rewrite run_seq.
  change (run (Cap (Plus notQuote)) (String c u ++ String q t) cap)
    with (List.map
            (fun o : outcome =>
               (fst o, Some (Str.take (String.length (String c u ++ String q t)
                                       - String.length (fst o))
                                      (String c u ++ String q t))))
            (run (Plus notQuote) (String c u ++ String q t) cap)).
  rewrite flat_map_map. cbn [fst snd].
  pose proof (run_seq (String c u ++ String q t) cap (Cls notQuote) (Star notQuote)) as Hplus.
  fold (Plus notQuote) in Hplus. rewrite Hplus. clear Hplus.
  rewrite append_cons.
  change (run (Cls notQuote) (String c (u ++ String q t)) cap)
    with (if notQuote c then [(u ++ String q t, cap)] else []).
  rewrite Hc. cbn [flat_map fst snd]. rewrite app_nil_r.
  change (run (Star notQuote) (u ++ String q t) cap)
    with (List.map (fun rest => (rest, cap)) (starRuns notQuote (u ++ String q t))).
  rewrite flat_map_map. cbn [fst snd].
  set (text := String c (u ++ String q t)).
  assert (Hgen : forall v,
             allChars notQuote v = true ->
             flat_map (fun x => run (Cls isQuote) x
                                    (Some (Str.take (String.length text - String.length x) text)))
                      (starRuns notQuote (v ++ String q t))
             = [(t, Some (Str.take (String.length text - String.length (String q t)) text))]).
  { intros v Hv. induction v as [| d v IH].
    - rewrite append_empty_l. cbn [starRuns]. unfold notQuote at 1. rewrite Hq.
      cbn [negb flat_map run]. rewrite Hq. done.
    - cbn [allChars] in Hv. apply andb_prop in Hv as [Hd Hv].
      rewrite append_cons. cbn [starRuns]. rewrite Hd, flat_map_app, IH by done.
      cbn [flat_map run]. unfold notQuote in Hd. apply negb_true_iff in Hd. rewrite Hd. done. }
  rewrite Hgen by done. do 3 f_equal.
  subst text. rewrite <- append_cons.
  replace (String.length (String c u ++ String q t) - String.length (String q t))%nat
    with (String.length (String c u)) by (rewrite length_append; lia).
  apply take_append.
Qed.

(** Facts on the character classes. *)
Ltac by_cases_on c :=
  destruct c as [[] [] [] [] [] [] [] []]; vm_compute; intros H;
  first [discriminate H | repeat split; reflexivity].

Lemma space_facts (c : ascii) :
  isSpace c = true ->
  isWord c = false /\ isQuote c = false /\ Ascii.eqb c "{" = false
  /\ Ascii.eqb c "*" = false /\ Ascii.eqb c "f" = false /\ Ascii.eqb c "a" = false.
Proof. by_cases_on c. Qed.

Lemma word_facts (c : ascii) :
  isWord c = true ->
  isSpace c = false /\ isQuote c = false /\ Ascii.eqb c "{" = false
  /\ Ascii.eqb c "*" = false.
Proof. by_cases_on c. Qed.

Lemma quote_facts (c : ascii) :
  isQuote c = true ->
  isSpace c = false /\ isWord c = false /\ Ascii.eqb c "{" = false
  /\ Ascii.eqb c "*" = false /\ notQuote c = false.
Proof. by_cases_on c. Qed.

Lemma reject_chr (c c' : ascii) (X : regex) (y : string) (cap : option string) :
  Ascii.eqb c' c = false -> run (Seq (Chr c) X) (String c' y) cap = [].
Proof. intros H. by rewrite run_seq_chr, H. Qed.

Lemma reject_cls (p : ascii -> bool) (c' : ascii) (X : regex) (y : string) (cap : option string) :
  p c' = false -> run (Seq (Cls p) X) (String c' y) cap = [].
Proof. intros H. by rewrite run_seq_cls, H. Qed.

Lemma reject_plus (p : ascii -> bool) (c' : ascii) (X : regex) (y : string) (cap : option string) :
  p c' = false -> run (Seq (Plus p) X) (String c' y) cap = [].
Proof. intros H. unfold Plus. rewrite run_seq_assoc. by apply reject_cls. Qed.

Lemma importRegex_parts :
  importRegex = Seq keywordRe (Seq (Plus isSpace) (Seq (Opt clauseRe) quotedRe)).
Proof. reflexivity. Qed.

Lemma blank_inv (s : string) : blank s = true -> s <> "" /\ allChars isSpace s = true.
Proof.
  unfold blank. intros [H1 H2]%andb_prop. split; [| done].
  intros ->. discriminate H1.
Qed.

Lemma word_inv (s : string) : word s = true -> s <> "" /\ allChars isWord s = true.
Proof.
  unfold word. intros [H1 H2]%andb_prop. split; [| done].
  intros ->. discriminate H1.
Qed.

Section StaticForms.

Variable f : StaticForm.
Variable k : string.
Hypothesis Hq : isQuote (opening f) = true.
Hypothesis Hq' : isQuote (closing f) = true.
Hypothesis Hne : specifier f <> "".
Hypothesis Hspec : allChars notQuote (specifier f) = true.

Lemma run_quoted cap : run quotedRe (quotedText f k) cap = [(k, Some (specifier f))].
Proof.
  unfold quotedRe, quotedText. cbn [seqs].
  rewrite run_seq_cls, Hq. by apply run_capture.
Qed.

Lemma rejects_quoted c y cap : isQuote c = false -> run quotedRe (String c y) cap = [].
Proof. intros H. unfold quotedRe. cbn [seqs]. by apply reject_cls. Qed.

Lemma run_from g1 g2 cap :
  blank g1 = true -> blank g2 = true ->
  run (Seq fromRe quotedRe) (g1 ++ "from" ++ g2 ++ quotedText f k) cap
  = [(k, Some (specifier f))].
Proof.
  intros [Hn1 Hs1]%blank_inv [Hn2 Hs2]%blank_inv.
  unfold fromRe. cbn [seqs]. rewrite run_seq_assoc.
  rewrite (append_cons "f" "rom").
  rewrite run_seq_plus; [| done | done | reflexivity |].
  2: { intros c y cap' Hc. rewrite run_seq_assoc. cbn [Lit]. rewrite run_seq_assoc.
       apply reject_chr. by apply space_facts. }
  rewrite <- (append_cons "f" "rom").
  rewrite run_seq_assoc, run_seq_lit.
  unfold quotedText at 1.
  rewrite run_seq_plus; [| done | done | by apply quote_facts |].
  2: { intros c y cap' Hc. apply rejects_quoted. by apply space_facts. }
  apply run_quoted.
Qed.

(** The optional clause on a text that opens none of its alternatives. *)
Lemma run_opt_skip c y cap :
  Ascii.eqb c "{" = false -> Ascii.eqb c "*" = false -> isWord c = false ->
  run (Seq (Opt clauseRe) quotedRe) (String c y) cap = run quotedRe (String c y) cap.
Proof.
  intros H1 H2 H3. unfold Opt, clauseRe.
  rewrite run_seq_alt, run_seq_eps, run_seq_assoc, !run_seq_alt.
  unfold namedRe, namespaceRe. cbn [seqs].
  rewrite (run_seq_assoc _ _ (Chr "{")), (run_seq_assoc _ _ (Chr "*")).
  by rewrite !reject_chr, reject_plus.
Qed.

(** The optional clause on a text that opens one of its alternatives. *)
Lemma run_opt_clause c y cap :
  isQuote c = false ->
  run (Seq (Opt clauseRe) quotedRe) (String c y) cap
  = (run (Seq namedRe (Seq fromRe quotedRe)) (String c y) cap
     ++ run (Seq namespaceRe (Seq fromRe quotedRe)) (String c y) cap
     ++ run (Seq (Plus isWord) (Seq fromRe quotedRe)) (String c y) cap)%list.
Proof.
  intros H. unfold Opt, clauseRe.
  rewrite run_seq_alt, run_seq_eps, run_seq_assoc, !run_seq_alt.
  rewrite rejects_quoted by done. by rewrite app_nil_r, app_assoc.
Qed.

Lemma rejects_from_word : rejects isWord (Seq fromRe quotedRe).
Proof.
  intros c y cap Hc. unfold fromRe. cbn [seqs]. rewrite !run_seq_assoc.
  apply reject_plus. by apply word_facts.
Qed.

Lemma run_word w g1 g2 cap :
  word w = true -> blank g1 = true -> blank g2 = true ->
  run (Seq (Plus isWord) (Seq fromRe quotedRe))
      (w ++ g1 ++ "from" ++ g2 ++ quotedText f k) cap
  = [(k, Some (specifier f))].
Proof.
  intros [Hnw Hw]%word_inv Hg1 Hg2.
  destruct (blank_inv g1 Hg1) as [Hn1 Hs1].
  destruct g1 as [| d g1]; [done |].
  rewrite (append_cons d g1).
  rewrite run_seq_plus; [| done | done | | apply rejects_from_word].
  2: { cbn [allChars] in Hs1. apply andb_prop in Hs1 as [Hd _]. by apply space_facts. }
  rewrite <- (append_cons d g1). by apply run_from.
Qed.

Lemma run_binding b g1 g2 cap :
  bindingOk b = true -> blank g1 = true -> blank g2 = true ->
  run (Seq (Opt clauseRe) quotedRe)
      (bindingText b (g1 ++ "from" ++ g2 ++ quotedText f k)) cap
  = [(k, Some (specifier f))].
Proof.
  intros Hb Hg1 Hg2. destruct b as [body | gap1 gap2 alias | ident]; cbn [bindingText bindingOk] in *.
  - rewrite (append_cons "{" ""), append_empty_l.
    rewrite run_opt_clause by reflexivity.
    unfold namespaceRe at 1. cbn [seqs].
    rewrite (run_seq_assoc _ _ (Chr "*")), reject_chr by reflexivity.
    rewrite reject_plus by reflexivity. rewrite !app_nil_r.
    unfold namedRe. cbn [seqs].
    rewrite run_seq_assoc, run_seq_chr. cbn [Ascii.eqb Bool.eqb].
    rewrite run_seq_assoc, run_seq_star; [| done | reflexivity |].
    2: { intros c y cap' Hc. apply reject_chr.
         unfold notChar in Hc. by apply negb_true_iff in Hc. }
    rewrite run_seq_chr. cbn [Ascii.eqb Bool.eqb]. by apply run_from.
  - apply andb_prop in Hb as [[Hgap1 Hgap2]%andb_prop Halias].
    destruct (blank_inv _ Hgap1) as [Hn1 Hs1].
    destruct (blank_inv _ Hgap2) as [Hn2 Hs2].
    destruct (word_inv _ Halias) as [Hna Hwa].
    rewrite (append_cons "*" ""), append_empty_l.
    rewrite run_opt_clause by reflexivity.
    unfold namedRe at 1. cbn [seqs].
    rewrite (run_seq_assoc _ _ (Chr "{")), reject_chr by reflexivity.
    rewrite reject_plus by reflexivity. rewrite app_nil_r, app_nil_l.
    unfold namespaceRe. cbn [seqs].
    rewrite run_seq_assoc, run_seq_chr. cbn [Ascii.eqb Bool.eqb].
    rewrite run_seq_assoc. rewrite (append_cons "a" "s").
    rewrite run_seq_plus; [| done | done | reflexivity |].
    2: { intros c y cap' Hc. rewrite run_seq_assoc. cbn [Lit]. rewrite run_seq_assoc.
         apply reject_chr. by apply space_facts. }
    rewrite <- (append_cons "a" "s").
    rewrite run_seq_assoc, run_seq_lit, run_seq_assoc.
    destruct alias as [| a alias]; [done |].
    rewrite (append_cons a alias).
    rewrite run_seq_plus; [| done | done | |].
    2: { cbn [allChars] in Hwa. apply andb_prop in Hwa as [Ha _]. by apply word_facts. }
    2: { intros c y cap' Hc. apply reject_plus. by apply space_facts. }
    rewrite <- (append_cons a alias). by apply run_word.
  - destruct (word_inv _ Hb) as [Hni Hwi].
    destruct ident as [| c ident]; [done |].
    assert (Hc : isWord c = true).
    { cbn [allChars] in Hwi. by apply andb_prop in Hwi as [Hc _]. }
    destruct (word_facts c Hc) as (_ & Hcq & Hc1 & Hc2).
    rewrite (append_cons c ident).
    rewrite run_opt_clause by done.
    unfold namedRe, namespaceRe. cbn [seqs].
    rewrite (run_seq_assoc _ _ (Chr "{")), (run_seq_assoc _ _ (Chr "*")).
    rewrite !reject_chr by done. rewrite !app_nil_l.
    rewrite <- (append_cons c ident). by apply run_word.
Qed.

End StaticForms.

Lemma append_assoc (a b c : string) : (a ++ b) ++ c = a ++ b ++ c.
Proof. induction a as [| x a IH]; [done |]. by rewrite !append_cons, IH. Qed.

Lemma bindingText_append (b : Binding) (r k : string) :
  bindingText b (r ++ k) = bindingText b r ++ k.
Proof.
  destruct b; cbn [bindingText]; rewrite ?append_assoc, ?append_cons, ?append_assoc; done.
Qed.

Lemma formText_prefix (f : StaticForm) (k : string) : formText f k = formPrefix f ++ k.
Proof.
  unfold formPrefix, formText.
  assert (Hq : quotedText f k = quotedText f "" ++ k).
  { unfold quotedText. by rewrite append_cons, append_assoc, append_cons, append_empty_l. }
  rewrite !append_assoc. do 2 f_equal.
  destruct (clause f) as [c |]; [| apply Hq].
  by rewrite Hq, <- bindingText_append, !append_assoc.
Qed.

Lemma formPrefix_not_empty (f : StaticForm) : formPrefix f <> "".
Proof. unfold formPrefix, formText. by destruct (isExport f). Qed.

Lemma run_static_form (f : StaticForm) (k : string) (cap : option string) :
  formOk f = true ->
  run importRegex (formText f k) cap = [(k, Some (specifier f))].
Proof.
  unfold formOk.
  intros [[[[[Hgap Hclause]%andb_prop Hq]%andb_prop Hq']%andb_prop Hne]%andb_prop Hspec]%andb_prop.
  assert (Hne' : specifier f <> "").
  { intros Heq. rewrite Heq in Hne. discriminate Hne. }
  destruct (blank_inv _ Hgap) as [Hng Hsg].
  rewrite importRegex_parts. unfold formText, keywordRe.
  assert (Hrest :
            run (Seq (Plus isSpace) (Seq (Opt clauseRe) quotedRe))
                (gap f ++
                 match clause f with
                 | Some c => bindingText (binding c)
                               (beforeFrom c ++ "from" ++ afterFrom c ++ quotedText f k)
                 | None => quotedText f k
                 end) cap
            = [(k, Some (specifier f))]).
  { assert (Hrej : rejects isSpace (Seq (Opt clauseRe) quotedRe)).
    { intros c y cap' Hc. destruct (space_facts c Hc) as (H1 & H2 & H3 & H4 & _).
      rewrite run_opt_skip by done. by apply rejects_quoted. }
    destruct (clause f) as [c |].
    - unfold clauseOk in Hclause.
      apply andb_prop in Hclause as [[Hb Hg1]%andb_prop Hg2].
      pose proof (run_binding f k Hq Hq' Hne' Hspec (binding c) _ _ cap Hb Hg1 Hg2) as Hrun.
      destruct (binding c) as [body | gap1 gap2 alias | ident]; cbn [bindingText] in *.
      + rewrite (append_cons "{" ""), append_empty_l in *.
        by rewrite run_seq_plus.
      + rewrite (append_cons "*" ""), append_empty_l in *.
        by rewrite run_seq_plus.
      + cbn [bindingOk] in Hb. destruct (word_inv _ Hb) as [Hni Hwi].
        destruct ident as [| d ident]; [done |].
        rewrite (append_cons d ident) in *.
        rewrite run_seq_plus; [done | done | done | | done].
        cbn [allChars] in Hwi. apply andb_prop in Hwi as [Hd _]. by apply word_facts.
    - unfold quotedText at 1.
      rewrite run_seq_plus; [| done | done | by apply quote_facts | done].
      destruct (quote_facts _ Hq) as (_ & H2 & H3 & H4 & _).
      rewrite run_opt_skip by done. by apply run_quoted. }
  rewrite run_seq_alt. destruct (isExport f).
  - rewrite run_seq_lit, Hrest.
    rewrite (append_cons "e" "xport"). cbn [Lit].
    rewrite run_seq_assoc, reject_chr by reflexivity. done.
  - rewrite run_seq_lit, Hrest.
    rewrite (append_cons "i" "mport"). cbn [Lit].
    rewrite run_seq_assoc, reject_chr by reflexivity. done.
Qed.

(** A match of the import expression is never empty, so the loop over the
    matches always advances. *)
Lemma starRuns_shrink (p : ascii -> bool) (s rest : string) :
  In rest (starRuns p s) -> (String.length rest <= String.length s)%nat.
Proof.
  induction s as [| c s IH]; cbn [starRuns].
  - intros [<- | []]. done.
  - destruct (p c).
    + intros [H | [<- | []]]%in_app_or; [| done].
      apply IH in H. cbn [String.length]. lia.
    + intros [<- | []]. done.
Qed.

Lemma run_shrink (r : regex) (s : string) (cap : option string) (o : outcome) :
  In o (run r s cap) -> (String.length (fst o) <= String.length s)%nat.
Proof.
  revert s cap o. induction r as [| c | p | p | r1 IH1 r2 IH2 | r1 IH1 r2 IH2 | r IH |];
    intros s cap o; cbn [run].
  - intros [<- | []]. done.
  - destruct s as [| c' s]; [intros [] |].
    destruct (Ascii.eqb c' c); [| intros []].
    intros [<- | []]. cbn [fst String.length]. lia.
  - destruct s as [| c' s]; [intros [] |].
    destruct (p c'); [| intros []].
    intros [<- | []]. cbn [fst String.length]. lia.
  - intros (rest & <- & H)%in_map_iff. by apply starRuns_shrink in H.
  - intros (o1 & H1 & H2)%in_flat_map.
    apply IH1 in H1. apply IH2 in H2. lia.
  - intros [H | H]%in_app_or; [by apply IH1 in H | by apply IH2 in H].
  - intros (o1 & <- & H)%in_map_iff. by apply IH in H.
  - destruct s; [| intros []]. intros [<- | []]. done.
Qed.

Lemma run_lit_consumes (w s : string) (cap : option string) (o : outcome) :
  In o (run (Lit w) s cap) ->
  (String.length (fst o) + String.length w = String.length s)%nat.
Proof.
  revert s. induction w as [| c w IH]; intros s; cbn [Lit run].
  - intros [<- | []]. cbn [fst String.length]. lia.
  - intros (o1 & H1 & H2)%in_flat_map.
    destruct s as [| c' s]; [destruct H1 |].
    destruct (Ascii.eqb c' c); [| destruct H1].
    destruct H1 as [<- | []]. apply IH in H2. cbn [fst String.length] in *. lia.
Qed.

Lemma importRegex_consumes (s : string) (n : nat) (cap : option string) :
  matchHere importRegex s = Some (n, cap) -> (6 <= n)%nat.
Proof.
  unfold matchHere.
  destruct (run importRegex s None) as [| [rest cap'] outcomes] eqn:Hrun; [done |].
  intros [= <- <-].
  assert (Hin : In (rest, cap') (run importRegex s None)) by (rewrite Hrun; by left).
  rewrite importRegex_parts, run_seq in Hin.
  apply in_flat_map in Hin as (o1 & H1 & H2).
  apply run_shrink in H2. cbn [fst] in H2.
  unfold keywordRe in H1. cbn [run] in H1.
  apply in_app_or in H1 as [H1 | H1]; apply run_lit_consumes in H1;
    cbn [String.length] in H1; lia.
Qed.

Lemma execAll_skip (r : regex) (u k : string) :
  execAll r (String.length u) (u ++ k) = execAll r 0 k.
Proof. induction u as [| c u IH]; [done |]. rewrite append_cons. exact IH. Qed.

Lemma execAll_match (r : regex) (u k : string) (cap : option string) :
  u <> "" -> matchHere r (u ++ k) = Some (String.length u, cap) ->
  execAll r 0 (u ++ k) = cap :: execAll r 0 k.
Proof.
  intros Hne Hm. destruct u as [| c u]; [done |].
  rewrite append_cons in *. cbn [execAll]. rewrite Hm. f_equal.
  cbn [String.length]. rewrite Nat.sub_1_r. cbn [Nat.pred]. apply execAll_skip.
Qed.

Lemma run_dynamic_import (t : string) (cap : option string) :
  run importRegex ("import(" ++ t) cap = [].
Proof.
  rewrite importRegex_parts. unfold keywordRe.
  change ("import(" ++ t) with ("import" ++ String "(" t).
  rewrite run_seq_alt, run_seq_lit, reject_plus by reflexivity.
  rewrite (append_cons "i" "mport"). cbn [Lit].
  by rewrite run_seq_assoc, reject_chr.
Qed.

Lemma run_require (t : string) (cap : option string) :
  run importRegex ("require(" ++ t) cap = [].
Proof.
  rewrite importRegex_parts. unfold keywordRe.
  rewrite run_seq_alt, append_cons. cbn [Lit].
  by rewrite !run_seq_assoc, !reject_chr.
Qed.

(** C4. The expression matches the static forms of import and re-export:
    the keyword [import] or [export], whitespace, then either the quoted
    specifier at once or a binding clause (a braced list, a star with an
    alias, or one identifier), whitespace, [from] and whitespace before it.
    On such a statement the match covers the statement and the text
    between the quotes is extracted, whatever follows.  No match starts at
    a dynamic [import(] call or at a [require(] call. *)
Theorem extractSpecifiers_static_forms (f : StaticForm) (k : string) :
  formOk f = true ->
  matchHere importRegex (formText f k)
  = Some (String.length (formPrefix f), Some (specifier f))
  /\ extractSpecifiers (formText f k) = specifier f :: extractSpecifiers k
  /\ (forall t, matchHere importRegex ("import(" ++ t) = None)
  /\ (forall t, matchHere importRegex ("require(" ++ t) = None).
Proof.
  intros Hok.
  assert (Hm : matchHere importRegex (formText f k)
               = Some (String.length (formPrefix f), Some (specifier f))).
  { unfold matchHere. rewrite run_static_form by done.
    rewrite formText_prefix, length_append. do 2 f_equal. lia. }
  split; [done |]. split.
  - unfold extractSpecifiers. rewrite formText_prefix in *.
    rewrite (execAll_match _ _ _ _ (formPrefix_not_empty f) Hm). done.
  - split; intros t; unfold matchHere; [by rewrite run_dynamic_import | by rewrite run_require].
Qed.

(** ** Runs on the concrete hosts *)

Example cycle_run :
  registeredUris (loadSourceFile (Some cycleFs) [] "." "src/a.ts" 0 initState)
  = ["file:///src/a.ts"; "file:///src/b.ts"].
Proof. vm_compute. reflexivity. Qed.

Lemma chainFiles_chain : chain chainFs [] "." chainFiles.
Proof.
  unfold chainFiles.
  repeat (apply chain_link; [vm_compute; reflexivity | vm_compute; reflexivity |]).
  apply chain_last; vm_compute; reflexivity.
Qed.

Lemma chainFiles_distinct : distinct chainFiles.
Proof.
  unfold chainFiles. simpl.
  repeat match goal with
         | |- _ /\ _ => split
         | |- True => exact I
         | |- forall g, _ -> _ =>
             intros g Hg; repeat (apply elem_of_cons in Hg as [-> | Hg]);
             try (by apply elem_of_nil in Hg); simpl; split; discriminate
         end.
Qed.

Lemma loadSourceFile_chain_witness :
  List.length (tsExtraLibs (loadSourceFile (Some chainFs) [] "." "c/f0.ts" 0 initState)) = 6%nat.
Proof.
  destruct chainFiles as [| f l] eqn:Hfiles; [discriminate Hfiles |].
  injection Hfiles as <- <-.
  destruct (loadSourceFile_chain_bound chainFs [] "." _ _ chainFiles_chain chainFiles_distinct)
    as (_ & Hlen & _).
  - simpl. unfold depthBound. lia.
  - exact Hlen.
Defined.

(** The chain is longer than the bound, and the load registers six files,
    not five. *)
Lemma chain_registers_more_than_bound :
  chain chainFs [] "." chainFiles
  /\ (depthBound < List.length chainFiles)%nat
  /\ registeredUris (loadSourceFile (Some chainFs) [] "." "c/f0.ts" 0 initState)
     = ["file:///c/f0.ts"; "file:///c/f1.ts"; "file:///c/f2.ts";
        "file:///c/f3.ts"; "file:///c/f4.ts"; "file:///c/f5.ts"]
  /\ List.length (registeredUris (loadSourceFile (Some chainFs) [] "." "c/f0.ts" 0 initState))
     <> depthBound.
Proof.
  split; [apply chainFiles_chain |].
  split; [vm_compute; lia |].
  split; [vm_compute; reflexivity |].
  vm_compute. discriminate.
Qed.

Example read_failure_run :
  registeredUris (loadSourceFile (Some flakyFs) [] "." "src/util" 1 initState)
  = ["file:///src/util.tsx"].
Proof. vm_compute. reflexivity. Qed.

Lemma loadSourceFile_skips_external_witness :
  loadSourceFile (Some mixedFs) [] "." "src/app.ts" 0 initState
  = fold_left (followSpecifier (Some mixedFs) [] "." "src/app.ts" 0)
              (extractSpecifiers "import _ from 'lodash'; import { u } from './util'")
              (addFileToMonaco "src/app.ts"
                 "import _ from 'lodash'; import { u } from './util'" initState)
  /\ registrations "src/util.ts" (loadSourceFile (Some mixedFs) [] "." "src/app.ts" 0 initState)
     = 1%nat.
Proof.
  destruct (loadSourceFile_skips_external mixedFs [] "." "src/app.ts" "src/app.ts"
              "import _ from 'lodash'; import { u } from './util'" 0 initState)
    as (H & _ & _ & Hfollow).
  - vm_compute. reflexivity.
  - unfold depthBound. lia.
  - apply not_elem_of_empty.
  - split; [exact H |].
    apply (Hfollow "./util" "src/util" "src/util.ts" "export const u = 1").
    + apply consistent_init.
    + intros q Hq. by apply elem_of_empty in Hq.
    + apply list_elem_of_In. vm_compute. auto.
    + reflexivity.
    + vm_compute. reflexivity.
    + vm_compute. reflexivity.
    + unfold depthBound. lia.
Defined.

(** The specifier [lodash] is extracted and external, yet neither the
    eager pass of the session start nor the load of the file hands it to
    the package type loader: the declarations that [loadPackageTypes]
    registers for it are absent until that call is made. *)
Lemma external_specifier_not_routed :
  extractSpecifiers "import _ from 'lodash'; export const app = _" = ["lodash"]
  /\ isExternal "lodash" = true
  /\ registeredUris
       (loadSourceFile (Some lodashFs) [] "." "src/app.ts" 0
          (stateOf (loadAllNodeModulesTypes (Some lodashFs) noTypesEntry initState)))
     = ["file:///src/app.ts"]
  /\ registeredUris
       (stateOf
          (loadPackageTypes (Some lodashFs) noTypesEntry "lodash"
             (loadSourceFile (Some lodashFs) [] "." "src/app.ts" 0
                (stateOf (loadAllNodeModulesTypes (Some lodashFs) noTypesEntry initState)))))
     = ["file:///src/app.ts"; "file:///node_modules/lodash/index.d.ts"].
Proof. repeat split; vm_compute; reflexivity. Qed.

(** A table whose first matching pattern has no target. *)
Lemma later_pattern_consulted :
  aliasCapture "@/*" "@/lib/utils" = Some "lib/utils"
  /\ aliasCapture "@/lib/*" "@/lib/utils" = Some "utils"
  /\ resolvePathAlias [("@/*", []); ("@/lib/*", ["shared/*"])] "." "@/lib/utils"
     = Some "shared/utils"
  /\ resolvePathAlias [("@/*", [])] "." "@/lib/utils" = None.
Proof. repeat split; vm_compute; reflexivity. Qed.

Lemma resolvePathAlias_first_usable_pattern_witness :
  resolvePathAlias [("~/*", ["app/*"]); ("@/*", []); ("@/lib/*", ["shared/*"; "lib/*"]);
                    ("@/lib/utils", ["exact"])] "." "@/lib/utils"
  = Some "shared/utils".
Proof.
  destruct (resolvePathAlias_first_usable_pattern
              [("~/*", ["app/*"]); ("@/*", [])] [("@/lib/utils", ["exact"])]
              "@/lib/*" "shared/*" ["lib/*"] "." "@/lib/utils" "utils") as [H _].
  - intros a ts Hin.
    apply elem_of_cons in Hin as [[= -> ->] | Hin]; [left; vm_compute; reflexivity |].
    apply elem_of_cons in Hin as [[= -> ->] | Hin]; [by right |].
    by apply elem_of_nil in Hin.
  - vm_compute. reflexivity.
  - exact H.
Defined.

(** The resolver answers with the path of the first template although no
    candidate of it exists, while a candidate of the second template does;
    the import is then left unresolved by the load. *)
Lemma first_target_wins_unseen :
  resolvePathAlias [("@/*", ["src/*"; "lib/*"])] "." "@/utils" = Some "src/utils"
  /\ probe aliasFs "src/utils" extensions = None
  /\ probe aliasFs "lib/utils" extensions = Some ("lib/utils.ts", "export const u = 1")
  /\ registeredUris
       (loadSourceFile (Some aliasFs) [("@/*", ["src/*"; "lib/*"])] "." "src/main.ts" 0 initState)
     = ["file:///src/main.ts"].
Proof. repeat split; vm_compute; reflexivity. Qed.

Lemma resolvePathAlias_first_target_witness :
  resolvePathAlias [("@/*", ["src/*"; "lib/*"])] "." "@/utils"
  = resolvePathAlias [("@/*", ["src/*"])] "." "@/utils".
Proof.
  destruct (resolvePathAlias_first_target_unconditional
              "@/*" "src/*" ["lib/*"] [] "." "@/utils" "utils") as [_ H].
  - vm_compute. reflexivity.
  - exact H.
Defined.

Lemma typesFs_visits_deep :
  visits typesFs 3 "node_modules/@types/x" 0
         "node_modules/@types/x/lib/deep.d.ts" "export declare const y: number".
Proof.
  eapply (visits_entry typesFs 3 _ 0 _ (Host.folder "lib")).
  - lia.
  - vm_compute. reflexivity.
  - right. left.
  - apply yields_dir; [reflexivity | reflexivity | reflexivity |].
    eapply (visits_entry typesFs 3 _ 1 _ (Host.file "deep.d.ts")).
    + lia.
    + vm_compute. reflexivity.
    + left.
    + apply (yields_file typesFs 3 "node_modules/@types/x/lib" 1 (Host.file "deep.d.ts"));
        vm_compute; reflexivity.
Qed.

Example crawl_run :
  registeredUris (loadDtsFromDir (Some typesFs) "node_modules/@types/x" 3 0 initState)
  = ["file:///node_modules/@types/x/index.d.ts";
     "file:///node_modules/@types/x/lib/deep.d.ts"].
Proof. vm_compute. reflexivity. Qed.

Example crawl_at_threshold :
  registeredUris (loadDtsFromDir (Some (sizedFs 512000)) "types" 5 0 initState) = [].
Proof. vm_compute. reflexivity. Qed.

Example crawl_below_threshold :
  registeredUris (loadDtsFromDir (Some (sizedFs 511999)) "types" 5 0 initState)
  = ["file:///types/big.d.ts"].
Proof. vm_compute. reflexivity. Qed.

Lemma extractSpecifiers_static_forms_witness :
  extractSpecifiers "import { a, b } from './a'" = ["./a"].
Proof.
  destruct (extractSpecifiers_static_forms namedImport "") as (_ & H & _).
  - vm_compute. reflexivity.
  - exact H.
Defined.

(** Nothing is extracted from a dynamic import or from a require call. *)
Lemma dynamic_forms_not_extracted :
  extractSpecifiers dynamicText = []
  /\ ("./lazy" ∉ extractSpecifiers dynamicText)
  /\ ("./legacy" ∉ extractSpecifiers dynamicText).
Proof.
  assert (H : extractSpecifiers dynamicText = []) by (vm_compute; reflexivity).
  rewrite H. repeat split; apply not_elem_of_nil.
Qed.

Example static_forms_run :
  extractSpecifiers
    "import a from './a'; import * as d from '@/lib/d'; export { x } from './x'; import './side'"
  = ["./a"; "@/lib/d"; "./x"; "./side"].
Proof. vm_compute. reflexivity. Qed.

(** Static forms outside the shapes above are not matched either. *)
Example static_forms_missed :
  extractSpecifiers
    "export * from './y'; import type { T } from './t'; import def, { q } from './q'"
  = [].
Proof. vm_compute. reflexivity. Qed.

(** * Further properties *)

(** ** Every operation is a sequence of register operations *)

Lemma registerAll_app (ops ops' : list (string * string)) (st : State) :
  registerAll (ops ++ ops') st = registerAll ops' (registerAll ops st).
Proof. unfold registerAll. apply fold_left_app. Qed.

Lemma extends_refl (st : State) : extends st st.
Proof. by exists []. Qed.

Lemma extends_trans (st1 st2 st3 : State) :
  extends st1 st2 -> extends st2 st3 -> extends st1 st3.
Proof.
  intros [ops ->] [ops' ->]. exists (ops ++ ops')%list. by rewrite registerAll_app.
Qed.

Lemma extends_register (p c : string) (st : State) : extends st (addFileToMonaco p c st).
Proof. by exists [(p, c)]. Qed.

Lemma extends_register_after (st0 st : State) (p c : string) :
  extends st0 st -> extends st0 (addFileToMonaco p c st).
Proof. intros H. eapply extends_trans; [exact H | apply extends_register]. Qed.

Lemma extends_consistent (st st' : State) : extends st st' -> consistent st -> consistent st'.
Proof. intros [ops ->]. apply registerAll_consistent. Qed.

Lemma registerAll_log (ops : list (string * string)) (st : State) :
  exists calls,
    tsExtraLibs (registerAll ops st) = (tsExtraLibs st ++ calls)%list
    /\ jsExtraLibs (registerAll ops st) = (jsExtraLibs st ++ calls)%list
    /\ loadedFiles st ⊆ loadedFiles (registerAll ops st).
Proof.
  revert st. induction ops as [| [p c] ops IH]; intros st.
  - exists []. simpl. by rewrite !app_nil_r.
  - simpl. destruct (IH (addFileToMonaco p c st)) as (calls & Hts & Hjs & Hsub).
    unfold addFileToMonaco in *. cbn [fst snd] in *.
    destruct (decide (p ∈ loadedFiles st)) as [Hin | Hout].
    + exists calls. done.
    + cbn [tsExtraLibs jsExtraLibs loadedFiles] in *.
      exists ((c, fileUri p) :: calls). rewrite Hts, Hjs, <- !app_assoc.
      split; [done |]. split; [done |].
      intros q Hq. apply Hsub. apply elem_of_union_r. exact Hq.
Qed.

Section CrawlPreserved.

Variable P : State -> Prop.

Lemma crawlEntries_preserved call fs dir maxDepth cur entries st st' :
  (forall p c s, fs_readFile fs p = Some c -> P s -> P (addFileToMonaco p c s)) ->
  (forall d m k s s', P s -> call d m k s = Some s' -> P s') ->
  P st -> crawlEntries call fs dir maxDepth cur entries st = Some st' -> P st'.
Proof.
  intros Hreg Hcall. revert st.
  induction entries as [| entry entries IH]; intros st Hst; cbn [crawlEntries].
  - by intros [= <-].
  - destruct (Str.startsWith (name entry) "."); [by apply IH |].
    destruct (isDirectory entry).
    + destruct (existsb (String.eqb (name entry)) heavyDirectories); [by apply IH |].
      destruct (call (entryPath dir entry) maxDepth (S cur) st) as [st1 |] eqn:H1; [| done].
      apply IH. by eapply Hcall.
    + destruct (Str.endsWith (name entry) ".d.ts"); [| by apply IH].
      destruct (fs_readFile fs (entryPath dir entry)) as [content |] eqn:Hr;
        [| by apply IH].
      destruct (Z.of_nat (String.length content) <? sizeThreshold)%Z; [| by apply IH].
      apply IH. by apply Hreg.
Qed.

Lemma loadDtsFromDirFuel_preserved gitton fuel dir maxDepth cur st st' :
  (forall fs p c s, gitton = Some fs -> fs_readFile fs p = Some c ->
                    P s -> P (addFileToMonaco p c s)) ->
  P st -> loadDtsFromDirFuel gitton fuel dir maxDepth cur st = Some st' -> P st'.
Proof.
  intros Hreg. revert dir maxDepth cur st st'.
  induction fuel as [| fuel IH]; intros dir maxDepth cur st st' Hst; [done |].
  simpl. unfold loadDtsFromDirBody.
  destruct gitton as [fs |] eqn:Hg; [| by intros [= <-]].
  destruct (maxDepth <? cur)%nat; [by intros [= <-] |].
  destruct (fs_readdir fs dir) as [entries |]; [| by intros [= <-]].
  apply crawlEntries_preserved; [| | done].
  - intros p c s. by apply Hreg.
  - intros d m k s s'. apply IH.
Qed.

Lemma loadDtsFromDir_preserved gitton dir maxDepth cur st :
  (forall fs p c s, gitton = Some fs -> fs_readFile fs p = Some c ->
                    P s -> P (addFileToMonaco p c s)) ->
  P st -> P (loadDtsFromDir gitton dir maxDepth cur st).
Proof.
  intros Hreg Hst. unfold loadDtsFromDir.
  destruct (loadDtsFromDirFuel gitton (S (maxDepth + 1 - cur)) dir maxDepth cur st)
    as [st' |] eqn:H; [| done].
  by eapply loadDtsFromDirFuel_preserved.
Qed.

End CrawlPreserved.

Section Extends.

Variable gitton : option FileSystem.
Variable parseConfig : string -> option RawOptions.
Variable manifestTypes : string -> option (option string).

Lemma loadSourceFile_extends tsconfigPaths tsconfigBaseUrl p d st :
  extends st (loadSourceFile gitton tsconfigPaths tsconfigBaseUrl p d st).
Proof.
  apply (loadSourceFile_preserved gitton tsconfigPaths tsconfigBaseUrl (extends st)).
  - intros fs q c s _ _ _. apply extends_register_after.
  - apply extends_refl.
Qed.

Lemma loadDtsFromDir_extends dir maxDepth cur st :
  extends st (loadDtsFromDir gitton dir maxDepth cur st).
Proof.
  apply (loadDtsFromDir_preserved (extends st)).
  - intros fs q c s _ _. apply extends_register_after.
  - apply extends_refl.
Qed.

Lemma loadManifestTypes_extends fs packagePath st :
  extends st (loadManifestTypes manifestTypes fs packagePath st).
Proof.
  unfold loadManifestTypes.
  destruct (fs_readFile fs (packagePath ++ "/package.json")) as [content |];
    [| apply extends_refl].
  destruct (manifestTypes content) as [[typesFile |] |]; try apply extends_refl.
  destruct (fs_exists fs (packagePath ++ "/" ++ typesFile)) as [[] |];
    try apply extends_refl.
  destruct (fs_readFile fs (packagePath ++ "/" ++ typesFile)); [| apply extends_refl].
  apply extends_register.
Qed.

Lemma loadPackageTypes_extends packageName st :
  extends st (stateOf (loadPackageTypes gitton manifestTypes packageName st)).
Proof.
  unfold loadPackageTypes. destruct gitton as [fs |] eqn:Hg; [| apply extends_refl].
  destruct (fs_exists fs ("node_modules/@types/" ++ packageName)) as [[] |];
    cbn [stateOf]; [| | apply extends_refl].
  - rewrite <- Hg. apply loadDtsFromDir_extends.
  - destruct (fs_exists fs ("node_modules/" ++ packageName)) as [[] |];
      cbn [stateOf]; try apply extends_refl.
    eapply extends_trans; [apply loadManifestTypes_extends |].
    rewrite <- Hg. apply loadDtsFromDir_extends.
Qed.

Lemma loadPackages_extends names st :
  extends st (stateOf (loadPackages gitton manifestTypes names st)).
Proof.
  revert st. induction names as [| pkg names IH]; intros st; [apply extends_refl |].
  cbn [loadPackages].
  pose proof (loadPackageTypes_extends pkg st) as H.
  destruct (loadPackageTypes gitton manifestTypes pkg st) as [st' | st']; cbn [stateOf] in *.
  - eapply extends_trans; [exact H | apply IH].
  - exact H.
Qed.

Lemma loadAllNodeModulesTypes_extends st :
  extends st (stateOf (loadAllNodeModulesTypes gitton manifestTypes st)).
Proof.
  unfold loadAllNodeModulesTypes. destruct gitton as [fs |] eqn:Hg; [| apply extends_refl].
  rewrite <- Hg.
  pose proof (loadPackages_extends priorityPackages st) as H.
  destruct (loadPackages gitton manifestTypes priorityPackages st) as [st1 | st1];
    cbn [stateOf] in *; [| exact H].
  destruct (fs_exists fs "node_modules/@types") as [[] |]; cbn [stateOf]; try exact H.
  destruct (fs_readdir fs "node_modules/@types") as [entries |]; cbn [stateOf]; [| exact H].
  eapply extends_trans; [exact H | apply loadPackages_extends].
Qed.

Lemma loadEntryPoints_extends tsconfigPaths tsconfigBaseUrl entries st :
  extends st (loadEntryPoints gitton tsconfigPaths tsconfigBaseUrl entries st).
Proof.
  revert st. induction entries as [| entry entries IH]; intros st; [apply extends_refl |].
  unfold loadEntryPoints. cbn [fold_left].
  eapply extends_trans; [apply loadSourceFile_extends | apply IH].
Qed.

Lemma loadProjectSources_extends tsconfigPaths tsconfigBaseUrl st :
  extends st (loadProjectSources gitton tsconfigPaths tsconfigBaseUrl st).
Proof.
  unfold loadProjectSources. destruct gitton as [fs |] eqn:Hg; [| apply extends_refl].
  rewrite <- Hg.
  eapply extends_trans; [apply loadEntryPoints_extends | apply loadDtsFromDir_extends].
Qed.

Lemma loadTsConfig_types s :
  session_types (loadTsConfig gitton parseConfig s) = session_types s.
Proof.
  unfold loadTsConfig. destruct gitton as [fs |]; [| done].
  destruct (fs_readFile fs "tsconfig.json") as [content |]; [| done].
  by destruct (parseConfig (stripComments content)).
Qed.

Lemma initTypeSystem_extends s :
  extends (session_types s)
          (session_types (sessionOf (initTypeSystem gitton parseConfig manifestTypes s))).
Proof.
  unfold initTypeSystem. rewrite loadTsConfig_types.
  pose proof (loadAllNodeModulesTypes_extends (session_types s)) as H.
  destruct (loadAllNodeModulesTypes gitton manifestTypes (session_types s)) as [st | st];
    cbn [stateOf sessionOf withTypes session_types] in *; [| exact H].
  eapply extends_trans; [exact H | apply loadProjectSources_extends].
Qed.

End Extends.

Lemma extends_grows (st st' : State) : extends st st' -> grows st st'.
Proof. intros [ops ->]. apply registerAll_log. Qed.

(** X1. Every operation of the resolver keeps the corpus consistent: if no
    uri was passed to an engine twice, the two engines received the same
    calls and the set of loaded files is the set of the paths passed to the
    engines, then the same holds when the operation ends, however it ends. *)
Theorem operations_keep_consistent (gitton : option FileSystem)
        (parseConfig : string -> option RawOptions)
        (manifestTypes : string -> option (option string)) (st : State) :
  consistent st ->
  (forall tsconfigPaths tsconfigBaseUrl p d,
      consistent (loadSourceFile gitton tsconfigPaths tsconfigBaseUrl p d st))
  /\ (forall dir maxDepth cur, consistent (loadDtsFromDir gitton dir maxDepth cur st))
  /\ (forall packageName,
         consistent (stateOf (loadPackageTypes gitton manifestTypes packageName st)))
  /\ consistent (stateOf (loadAllNodeModulesTypes gitton manifestTypes st))
  /\ (forall tsconfigPaths tsconfigBaseUrl,
         consistent (loadProjectSources gitton tsconfigPaths tsconfigBaseUrl st))
  /\ (forall s,
         session_types s = st ->
         consistent
           (session_types (sessionOf (initTypeSystem gitton parseConfig manifestTypes s)))).
Proof.
  intros Hst.
  repeat apply conj; intros; (eapply extends_consistent; [| exact Hst]).
  - apply loadSourceFile_extends.
  - apply loadDtsFromDir_extends.
  - apply loadPackageTypes_extends.
  - apply loadAllNodeModulesTypes_extends.
  - apply loadProjectSources_extends.
  - subst st. apply initTypeSystem_extends.
Qed.

(** X2. The corpus is append-only under every operation of the resolver:
    the calls already received by the engines stay as they are, in the same
    order, new calls come after them, the same on both engines, and no path
    leaves the set of loaded files. *)
Theorem corpus_append_only (gitton : option FileSystem)
        (parseConfig : string -> option RawOptions)
        (manifestTypes : string -> option (option string)) :
  (forall tsconfigPaths tsconfigBaseUrl p d st,
      grows st (loadSourceFile gitton tsconfigPaths tsconfigBaseUrl p d st))
  /\ (forall dir maxDepth cur st, grows st (loadDtsFromDir gitton dir maxDepth cur st))
  /\ (forall packageName st,
         grows st (stateOf (loadPackageTypes gitton manifestTypes packageName st)))
  /\ (forall st, grows st (stateOf (loadAllNodeModulesTypes gitton manifestTypes st)))
  /\ (forall tsconfigPaths tsconfigBaseUrl st,
         grows st (loadProjectSources gitton tsconfigPaths tsconfigBaseUrl st))
  /\ (forall s,
         grows (session_types s)
               (session_types (sessionOf (initTypeSystem gitton parseConfig manifestTypes s)))).
Proof.
  repeat apply conj; intros; apply extends_grows.
  - apply loadSourceFile_extends.
  - apply loadDtsFromDir_extends.
  - apply loadPackageTypes_extends.
  - apply loadAllNodeModulesTypes_extends.
  - apply loadProjectSources_extends.
  - apply initTypeSystem_extends.
Qed.

(** ** Properties kept by every operation on a host *)

Section Kept.

Variable fs : FileSystem.
Variable parseConfig : string -> option RawOptions.
Variable manifestTypes : string -> option (option string).
Variable P : State -> Prop.
Hypothesis P_register : forall p c st,
    fs_readFile fs p = Some c -> P st -> P (addFileToMonaco p c st).

Lemma kept_loadSourceFile tsconfigPaths tsconfigBaseUrl p d st :
  P st -> P (loadSourceFile (Some fs) tsconfigPaths tsconfigBaseUrl p d st).
Proof.
  apply (loadSourceFile_preserved (Some fs) tsconfigPaths tsconfigBaseUrl P).
  intros fs' q c s [= <-] _ Hr. by apply P_register.
Qed.

Lemma kept_loadDtsFromDir dir maxDepth cur st :
  P st -> P (loadDtsFromDir (Some fs) dir maxDepth cur st).
Proof.
  apply (loadDtsFromDir_preserved P).
  intros fs' q c s [= <-] Hr. by apply P_register.
Qed.

Lemma kept_loadManifestTypes packagePath st :
  P st -> P (loadManifestTypes manifestTypes fs packagePath st).
Proof.
  intros Hst. unfold loadManifestTypes.
  destruct (fs_readFile fs (packagePath ++ "/package.json")) as [content |]; [| done].
  destruct (manifestTypes content) as [[typesFile |] |]; try done.
  destruct (fs_exists fs (packagePath ++ "/" ++ typesFile)) as [[] |]; try done.
  destruct (fs_readFile fs (packagePath ++ "/" ++ typesFile)) eqn:Hr; [| done].
  by apply P_register.
Qed.

Lemma kept_loadPackageTypes packageName st :
  P st -> P (stateOf (loadPackageTypes (Some fs) manifestTypes packageName st)).
Proof.
  intros Hst. unfold loadPackageTypes.
  destruct (fs_exists fs ("node_modules/@types/" ++ packageName)) as [[] |];
    cbn [stateOf]; [by apply kept_loadDtsFromDir | | done].
  destruct (fs_exists fs ("node_modules/" ++ packageName)) as [[] |];
    cbn [stateOf]; [| done | done].
  by apply kept_loadDtsFromDir, kept_loadManifestTypes.
Qed.

Lemma kept_loadPackages names st :
  P st -> P (stateOf (loadPackages (Some fs) manifestTypes names st)).
Proof.
  revert st. induction names as [| pkg names IH]; intros st Hst; [done |].
  cbn [loadPackages].
  pose proof (kept_loadPackageTypes pkg st Hst) as H.
  destruct (loadPackageTypes (Some fs) manifestTypes pkg st); [by apply IH | done].
Qed.

Lemma kept_loadAllNodeModulesTypes st :
  P st -> P (stateOf (loadAllNodeModulesTypes (Some fs) manifestTypes st)).
Proof.
  intros Hst. unfold loadAllNodeModulesTypes.
  pose proof (kept_loadPackages priorityPackages st Hst) as H.
  destruct (loadPackages (Some fs) manifestTypes priorityPackages st) as [st1 | st1];
    [| done].
  cbn [stateOf] in H.
  destruct (fs_exists fs "node_modules/@types") as [[] |]; try done.
  destruct (fs_readdir fs "node_modules/@types") as [entries |]; [| done].
  cbn [stateOf]. by apply kept_loadPackages.
Qed.

Lemma kept_loadEntryPoints tsconfigPaths tsconfigBaseUrl entries st :
  P st -> P (loadEntryPoints (Some fs) tsconfigPaths tsconfigBaseUrl entries st).
Proof.
  unfold loadEntryPoints. revert st.
  induction entries as [| f l IH]; intros st Hst; [done |].
  cbn [fold_left]. by apply IH, kept_loadSourceFile.
Qed.

Lemma kept_loadProjectSources tsconfigPaths tsconfigBaseUrl st :
  P st -> P (loadProjectSources (Some fs) tsconfigPaths tsconfigBaseUrl st).
Proof.
  intros Hst. unfold loadProjectSources.
  by apply kept_loadDtsFromDir, kept_loadEntryPoints.
Qed.

Lemma kept_initTypeSystem s :
  P (session_types s) ->
  P (session_types (sessionOf (initTypeSystem (Some fs) parseConfig manifestTypes s))).
Proof.
  intros Hs. unfold initTypeSystem.
  pose proof (kept_loadAllNodeModulesTypes (session_types (loadTsConfig (Some fs) parseConfig s))) as H.
  rewrite loadTsConfig_types in *.
  destruct (loadAllNodeModulesTypes (Some fs) manifestTypes (session_types s))
    as [st1 | st1]; cbn [stateOf sessionOf session_types withTypes] in *.
  - by apply kept_loadProjectSources, H.
  - by apply H.
Qed.

End Kept.

Lemma faithful_register fs p c st :
  fs_readFile fs p = Some c -> faithful fs st -> faithful fs (addFileToMonaco p c st).
Proof.
  intros Hr Hst. unfold addFileToMonaco.
  destruct (decide (p ∈ loadedFiles st)); [done |].
  intros c' u. cbn [tsExtraLibs jsExtraLibs].
  rewrite !elem_of_app, !list_elem_of_singleton.
  intros [[Hin | [= -> ->]] | [Hin | [= -> ->]]];
    try (by exists p); apply Hst; [by left | by right].
Qed.

(** X3. No operation of the resolver registers a content under the name of
    another file: if every call received by the engines carries the
    content that the host returns for the path named by the uri of the
    call, then the same holds when the operation ends. *)
Theorem operations_keep_faithful (fs : FileSystem)
        (parseConfig : string -> option RawOptions)
        (manifestTypes : string -> option (option string)) (st : State) :
  faithful fs st ->
  (forall tsconfigPaths tsconfigBaseUrl p d,
      faithful fs (loadSourceFile (Some fs) tsconfigPaths tsconfigBaseUrl p d st))
  /\ (forall dir maxDepth cur, faithful fs (loadDtsFromDir (Some fs) dir maxDepth cur st))
  /\ (forall packageName,
         faithful fs (stateOf (loadPackageTypes (Some fs) manifestTypes packageName st)))
  /\ faithful fs (stateOf (loadAllNodeModulesTypes (Some fs) manifestTypes st))
  /\ (forall tsconfigPaths tsconfigBaseUrl,
         faithful fs (loadProjectSources (Some fs) tsconfigPaths tsconfigBaseUrl st))
  /\ (forall s,
         session_types s = st ->
         faithful fs
           (session_types (sessionOf (initTypeSystem (Some fs) parseConfig manifestTypes s)))).
Proof.
  intros Hst.
  pose proof (faithful_register fs) as Hreg.
  repeat apply conj; intros.
  - by apply kept_loadSourceFile.
  - by apply kept_loadDtsFromDir.
  - by apply kept_loadPackageTypes.
  - by apply kept_loadAllNodeModulesTypes.
  - by apply kept_loadProjectSources.
  - subst st. by apply kept_initTypeSystem.
Qed.

(** ** The order of the candidates *)

Lemma probe_skip fs p before exts :
  Forall (fun e => usable fs p e = false) before ->
  probe fs p (before ++ exts) = probe fs p exts.
Proof.
  induction 1 as [| e before He _ IH]; [done |].
  cbn [app probe]. unfold usable in He.
  destruct (fs_exists fs (p ++ e)) as [[] |]; [| done | done].
  by destruct (fs_readFile fs (p ++ e)) as [c |].
Qed.

Lemma probe_none fs p exts :
  Forall (fun e => usable fs p e = false) exts -> probe fs p exts = None.
Proof.
  intros H. rewrite <- (app_nil_r exts). by rewrite probe_skip.
Qed.

(** X4. The candidates of a path are tried in the order of the extension
    list, and the first one that exists and can be read is the one that
    is registered: when no earlier candidate is usable, the first call
    that the load makes to the engine is for that candidate, with its
    content.  So [x.ts] is taken before [x.tsx], and both before
    [x/index.ts]. *)
Theorem loadSourceFile_first_candidate (fs : FileSystem)
        (tsconfigPaths : list (string * list string)) (tsconfigBaseUrl : string)
        (p : string) (d : nat) (st : State)
        (before after : list string) (ext c : string) :
  (d <= depthBound)%nat ->
  p ∉ loadedFiles st ->
  (p ++ ext) ∉ loadedFiles st ->
  extensions = (before ++ ext :: after)%list ->
  Forall (fun e => usable fs p e = false) before ->
  fs_exists fs (p ++ ext) = Some true ->
  fs_readFile fs (p ++ ext) = Some c ->
  exists calls,
    tsExtraLibs (loadSourceFile (Some fs) tsconfigPaths tsconfigBaseUrl p d st)
    = (tsExtraLibs st ++ (c, fileUri (p ++ ext)) :: calls)%list.
Proof.
  intros Hd Hp Hfull Hexts Hbefore He Hr.
  pose proof (loadSourceFile_probe (Some fs) tsconfigPaths tsconfigBaseUrl
                                   fs p d st eq_refl Hd Hp) as H.
  rewrite Hexts, probe_skip, (probe_hit fs p ext c after He Hr) in H by done.
  symmetry in H.
  assert (Hg : grows (addFileToMonaco (p ++ ext) c st)
                     (loadSourceFile (Some fs) tsconfigPaths tsconfigBaseUrl p d st)).
  { apply extends_grows.
    eapply (loadImports_preserved tsconfigPaths tsconfigBaseUrl
              (extends (addFileToMonaco (p ++ ext) c st))); [| apply extends_refl | exact H].
    intros q k s s' Hs [= <-].
    eapply extends_trans; [exact Hs | apply loadSourceFile_extends]. }
  destruct Hg as (calls & Hts & _ & _). exists calls.
  rewrite Hts. unfold addFileToMonaco. rewrite decide_False by done.
  cbn [tsExtraLibs]. by rewrite <- app_assoc.
Qed.

(** X5. A path none of whose candidates exists and can be read is passed
    over in silence: the load changes nothing, whatever the depth and the
    state. *)
Theorem loadSourceFile_unresolvable (fs : FileSystem)
        (tsconfigPaths : list (string * list string)) (tsconfigBaseUrl : string)
        (p : string) (d : nat) (st : State) :
  Forall (fun e => usable fs p e = false) extensions ->
  loadSourceFile (Some fs) tsconfigPaths tsconfigBaseUrl p d st = st.
Proof.
  intros Hnone.
  pose proof (loadSourceFile_unfold (Some fs) tsconfigPaths tsconfigBaseUrl p d st) as H.
  unfold loadSourceFileBody in H.
  destruct (depthBound <? d)%nat; [congruence |].
  destruct (decide (p ∈ loadedFiles st)); [congruence |].
  rewrite tryExtensions_probe, probe_none in H by done. congruence.
Qed.

(** ** Texts: prefixes and suffixes *)

Lemma prefix_iff (a s : string) : String.prefix a s = true <-> exists t, s = a ++ t.
Proof.
  revert s. induction a as [| c a IH]; intros s.
  - split; [intros _; exists s; by rewrite append_empty_l | intros _; by destruct s].
  - destruct s as [| c' s]; cbn [String.prefix].
    + split; [done |]. intros [t Ht]. rewrite append_cons in Ht. discriminate Ht.
    + destruct (ascii_dec c c') as [<- | Hne].
      * rewrite IH. split; intros [t Ht]; exists t.
        -- rewrite append_cons. by rewrite Ht.
        -- rewrite append_cons in Ht. by injection Ht.
      * split; [done |]. intros [t Ht]. rewrite append_cons in Ht.
        injection Ht as Hc _. by symmetry in Hc.
Qed.

Lemma startsWith_append (a t : string) : Str.startsWith (a ++ t) a = true.
Proof. apply prefix_iff. by exists t. Qed.

Lemma startsWith_shorter (a b s : string) :
  Str.startsWith s (a ++ b) = true -> Str.startsWith s a = true.
Proof.
  unfold Str.startsWith. rewrite !prefix_iff. intros [t ->].
  exists (b ++ t). by rewrite append_assoc.
Qed.

Lemma rev_string_acc (acc s : string) : Str.rev_string acc s = Str.rev_string "" s ++ acc.
Proof.
  revert acc. induction s as [| c s IH]; intros acc; cbn [Str.rev_string].
  - by rewrite append_empty_l.
  - rewrite (IH (String c acc)), (IH (String c "")).
    rewrite append_assoc. by rewrite append_cons, append_empty_l.
Qed.

Lemma rev_string_append (a b : string) :
  Str.rev_string "" (a ++ b) = Str.rev_string "" b ++ Str.rev_string "" a.
Proof.
  induction a as [| c a IH].
  - by rewrite append_empty_l, append_empty_r.
  - rewrite append_cons. cbn [Str.rev_string].
    rewrite (rev_string_acc (String c "") (a ++ b)), (rev_string_acc (String c "") a).
    by rewrite IH, append_assoc.
Qed.

Lemma endsWith_append (a s suf : string) :
  Str.endsWith s suf = true -> Str.endsWith (a ++ s) suf = true.
Proof.
  unfold Str.endsWith. rewrite rev_string_append, !prefix_iff.
  intros [t ->]. exists (t ++ Str.rev_string "" a). by rewrite append_assoc.
Qed.

(** ** The frame of a crawl *)

Lemma below_snoc (dir : string) (names : list string) (n : string) :
  below dir (names ++ [n]) = below dir names ++ "/" ++ n.
Proof. unfold below. by rewrite fold_left_app. Qed.

Lemma below_startsWith (dir : string) (names : list string) :
  names <> [] -> Str.startsWith (below dir names) (dir ++ "/") = true.
Proof.
  induction names as [| n names IH] using rev_ind; [done |]. intros _.
  rewrite below_snoc. destruct names as [| m names].
  - cbn [below fold_left]. rewrite <- append_assoc. apply startsWith_append.
  - apply prefix_iff. unfold Str.startsWith in IH.
    destruct (proj1 (prefix_iff _ _) (IH ltac:(done))) as [t ->].
    exists (t ++ "/" ++ n). by rewrite !append_assoc.
Qed.

Lemma below_endsWith (dir : string) (names : list string) (suf : string) :
  names <> [] -> Str.endsWith (List.last names "") suf = true ->
  Str.endsWith (below dir names) suf = true.
Proof.
  induction names as [| n names _] using rev_ind; [done |]. intros _.
  rewrite last_last, below_snoc. intros H.
  rewrite <- append_assoc. by apply endsWith_append.
Qed.

Lemma entryPath_below (dir : string) (entry : DirEntry) :
  dir <> "" -> entryPath dir entry = below dir [name entry] /\ entryPath dir entry <> "".
Proof.
  intros Hne. unfold entryPath. apply String.eqb_neq in Hne. rewrite Hne.
  split; [done |]. destruct dir; [done |]. by rewrite append_cons.
Qed.

Section CrawlFrame.

Variable fs : FileSystem.
Variable maxDepth : nat.

Lemma visits_reached dir cur p c :
  dir <> "" -> visits fs maxDepth dir cur p c -> reached maxDepth cur dir p
with yields_reached dir cur entry p c :
  dir <> "" -> (cur <= maxDepth)%nat -> yields fs maxDepth dir cur entry p c ->
  reached maxDepth cur dir p.
Proof.
  - intros Hne Hv. destruct Hv as [dir' cur' entries entry p' c' Hcur _ _ Hy].
    exact (yields_reached dir' cur' entry p' c' Hne Hcur Hy).
  - intros Hne Hcur Hy.
    destruct Hy as [dir' cur' entry' c' Hhid _ Hsuf _ | dir' cur' entry' p' c' Hhid _ Hheavy Hv].
    + exists [name entry']. destruct (entryPath_below dir' entry' Hne) as [-> _].
      repeat apply conj; first [done | cbn; lia | by constructor | constructor].
    + destruct (entryPath_below dir' entry' Hne) as [Hpath Hne'].
      assert (Hdeep : (S cur' <= maxDepth)%nat) by (by destruct Hv).
      destruct (visits_reached _ _ _ _ Hne' Hv)
        as (names & -> & Hnames & Hlen & Hhidden & Hheavies & Hlast).
      exists (name entry' :: names). rewrite Hpath.
      repeat apply conj.
      * done.
      * done.
      * cbn [List.length]. lia.
      * by constructor.
      * unfold Str.dropLast in *. destruct names as [| n names]; [done |].
        change (removelast (name entry' :: n :: names))
          with (name entry' :: removelast (n :: names)).
        by constructor.
      * destruct names as [| n names]; [done |]. exact Hlast.
Qed.

Lemma loadDtsFromDir_new (dir p : string) (cur : nat) (st : State) :
  dir <> "" ->
  p ∈ loadedFiles (loadDtsFromDir (Some fs) dir maxDepth cur st) ->
  p ∉ loadedFiles st ->
  reached maxDepth cur dir p
  /\ exists c, fs_readFile fs p = Some c /\ small c = true.
Proof.
  intros Hne Hin Hout.
  apply (loadDtsFromDir_adds fs maxDepth dir cur st p) in Hin
    as [Hin | (c & Hv & Hsmall)]; [done |].
  split; [by eapply visits_reached |].
  exists c. split; [| done]. by eapply visits_read.
Qed.

Lemma reached_startsWith (cur : nat) (dir p : string) :
  reached maxDepth cur dir p -> Str.startsWith p (dir ++ "/") = true.
Proof. intros (names & -> & Hnames & _). by apply below_startsWith. Qed.

Lemma reached_endsWith (cur : nat) (dir p : string) :
  reached maxDepth cur dir p -> Str.endsWith p ".d.ts" = true.
Proof. intros (names & -> & Hnames & _ & _ & _ & Hlast). by apply below_endsWith. Qed.

(** X6. The frame of a crawl: every path that a crawl of a directory
    brings into the corpus lies below that directory, at most
    [maxDepth - currentDepth] directories down, on a path none of whose
    names starts with a dot and none of whose directories is on the list
    of heavy directories, and its name ends in [.d.ts]; it can be read
    on the host and its content is below the size threshold. *)
Theorem loadDtsFromDir_frame (dir p : string) (cur : nat) (st : State) :
  dir <> "" ->
  p ∈ loadedFiles (loadDtsFromDir (Some fs) dir maxDepth cur st) ->
  p ∉ loadedFiles st ->
  reached maxDepth cur dir p
  /\ Str.startsWith p (dir ++ "/") = true
  /\ Str.endsWith p ".d.ts" = true
  /\ exists c, fs_readFile fs p = Some c /\ small c = true.
Proof.
  intros Hne Hin Hout.
  destruct (loadDtsFromDir_new dir p cur st Hne Hin Hout) as [Hr Hc].
  split; [exact Hr |].
  split; [by eapply reached_startsWith |].
  split; [by eapply reached_endsWith | exact Hc].
Qed.

End CrawlFrame.

(** ** The budget of a crawl *)

Lemma crawlEntries_ext call1 call2 fs dir maxDepth cur entries st :
  (forall d s, call1 d maxDepth (S cur) s = call2 d maxDepth (S cur) s) ->
  crawlEntries call1 fs dir maxDepth cur entries st
  = crawlEntries call2 fs dir maxDepth cur entries st.
Proof.
  intros Hcall. revert st.
  induction entries as [| entry entries IH]; intros st; cbn [crawlEntries]; [done |].
  destruct (Str.startsWith (name entry) "."); [done |].
  destruct (isDirectory entry).
  - destruct (existsb (String.eqb (name entry)) heavyDirectories); [done |].
    rewrite Hcall. by destruct (call2 (entryPath dir entry) maxDepth (S cur) st).
  - destruct (Str.endsWith (name entry) ".d.ts"); [| done].
    destruct (fs_readFile fs (entryPath dir entry)) as [content |]; [| done].
    by destruct (Z.of_nat (String.length content) <? sizeThreshold)%Z.
Qed.

Lemma loadDtsFromDirFuel_stable gitton fuel1 fuel2 dir maxDepth cur st :
  (S (maxDepth + 1 - cur) <= fuel1)%nat -> (S (maxDepth + 1 - cur) <= fuel2)%nat ->
  loadDtsFromDirFuel gitton fuel1 dir maxDepth cur st
  = loadDtsFromDirFuel gitton fuel2 dir maxDepth cur st.
Proof.
  revert fuel2 dir cur st.
  induction fuel1 as [| fuel1 IH]; intros fuel2 dir cur st H1 H2; [lia |].
  destruct fuel2 as [| fuel2]; [lia |].
  cbn [loadDtsFromDirFuel]. unfold loadDtsFromDirBody.
  destruct gitton as [fs |]; [| done].
  destruct (maxDepth <? cur)%nat eqn:Hd; [done |].
  destruct (fs_readdir fs dir) as [entries |]; [| done].
  apply crawlEntries_ext. intros d s. apply Nat.ltb_ge in Hd. apply IH; lia.
Qed.

(** X7. A crawl returns whatever the tree of directories, also one in
    which directories nest without end: its calls nest at most
    [maxDepth + 1 - currentDepth] deep, and with that budget of nested
    calls or any larger one it ends in the same state. *)
Theorem loadDtsFromDir_returns (gitton : option FileSystem) (fuel : nat)
        (dir : string) (maxDepth cur : nat) (st : State) :
  (S (maxDepth + 1 - cur) <= fuel)%nat ->
  loadDtsFromDirFuel gitton fuel dir maxDepth cur st
  = Some (loadDtsFromDir gitton dir maxDepth cur st).
Proof.
  intros Hfuel. unfold loadDtsFromDir.
  rewrite (loadDtsFromDirFuel_stable gitton fuel (S (maxDepth + 1 - cur))) by lia.
  destruct gitton as [fs |].
  - by destruct (loadDtsFromDirFuel_enough fs maxDepth (S (maxDepth + 1 - cur)) dir cur st)
      as [st' ->].
  - done.
Qed.

(** ** The frame of the package loader *)

Section PackageFrame.

Variable fs : FileSystem.
Variable manifestTypes : string -> option (option string).

Lemma loadManifestTypes_new packagePath st p :
  p ∈ loadedFiles (loadManifestTypes manifestTypes fs packagePath st) ->
  p ∈ loadedFiles st \/ Str.startsWith p (packagePath ++ "/") = true.
Proof.
  unfold loadManifestTypes.
  destruct (fs_readFile fs (packagePath ++ "/package.json")) as [content |]; [| by left].
  destruct (manifestTypes content) as [[typesFile |] |]; try by left.
  destruct (fs_exists fs (packagePath ++ "/" ++ typesFile)) as [[] |]; try by left.
  destruct (fs_readFile fs (packagePath ++ "/" ++ typesFile)) as [c |]; [| by left].
  rewrite addFileToMonaco_loaded, elem_of_union, elem_of_singleton.
  intros [-> | H]; [right | by left].
  rewrite <- append_assoc. apply startsWith_append.
Qed.

Lemma loadPackageTypes_new packageName st p :
  p ∈ loadedFiles (stateOf (loadPackageTypes (Some fs) manifestTypes packageName st)) ->
  p ∉ loadedFiles st ->
  Str.startsWith p ("node_modules/@types/" ++ packageName ++ "/") = true
  \/ Str.startsWith p ("node_modules/" ++ packageName ++ "/") = true.
Proof.
  unfold loadPackageTypes.
  destruct (fs_exists fs ("node_modules/@types/" ++ packageName)) as [[] |]; cbn [stateOf];
    [| | done].
  - intros Hin Hout. left. rewrite <- append_assoc.
    eapply reached_startsWith, loadDtsFromDir_new; [done | exact Hin | exact Hout].
  - destruct (fs_exists fs ("node_modules/" ++ packageName)) as [[] |]; cbn [stateOf];
      [| done | done].
    intros Hin Hout. right. rewrite <- append_assoc.
    destruct (decide (p ∈ loadedFiles
                            (loadManifestTypes manifestTypes fs
                                               ("node_modules/" ++ packageName) st)))
      as [Hm | Hm].
    + by apply loadManifestTypes_new in Hm as [Hm | Hm].
    + eapply reached_startsWith, loadDtsFromDir_new; [done | exact Hin | exact Hm].
Qed.

Lemma loadPackages_new names st p :
  p ∈ loadedFiles (stateOf (loadPackages (Some fs) manifestTypes names st)) ->
  p ∉ loadedFiles st ->
  exists packageName,
    packageName ∈ names
    /\ (Str.startsWith p ("node_modules/@types/" ++ packageName ++ "/") = true
        \/ Str.startsWith p ("node_modules/" ++ packageName ++ "/") = true).
Proof.
  revert st. induction names as [| pkg names IH]; intros st; [done |].
  cbn [loadPackages]. intros Hin Hout.
  destruct (decide (p ∈ loadedFiles (stateOf (loadPackageTypes (Some fs) manifestTypes pkg st))))
    as [Hp | Hp].
  - exists pkg. split; [by left |]. by apply (loadPackageTypes_new pkg st).
  - destruct (loadPackageTypes (Some fs) manifestTypes pkg st) as [st1 | st1];
      cbn [stateOf] in *; [| done].
    destruct (IH st1 Hin Hp) as (q & Hq & H). exists q. split; [by right | done].
Qed.

(** X8. The frame of the package loader: every path that loading the
    types of a package brings into the corpus lies below the directory of
    the package under [node_modules/@types] or below the directory of the
    package under [node_modules]. *)
Theorem loadPackageTypes_frame (packageName p : string) (st : State) :
  p ∈ loadedFiles (stateOf (loadPackageTypes (Some fs) manifestTypes packageName st)) ->
  p ∉ loadedFiles st ->
  Str.startsWith p ("node_modules/@types/" ++ packageName ++ "/") = true
  \/ Str.startsWith p ("node_modules/" ++ packageName ++ "/") = true.
Proof. apply loadPackageTypes_new. Qed.

End PackageFrame.

(** ** How the initialization ends *)

Section InitEnds.

Variable fs : FileSystem.
Variable parseConfig : string -> option RawOptions.
Variable manifestTypes : string -> option (option string).

Lemma loadPackageTypes_threw packageName st :
  (exists st', loadPackageTypes (Some fs) manifestTypes packageName st = Threw st')
  <-> existenceTestRejects fs packageName = true.
Proof.
  unfold loadPackageTypes, existenceTestRejects.
  destruct (fs_exists fs ("node_modules/@types/" ++ packageName)) as [[] |].
  - split; [by intros [st' H] | done].
  - destruct (fs_exists fs ("node_modules/" ++ packageName)) as [[] |].
    + split; [by intros [st' H] | done].
    + split; [by intros [st' H] | done].
    + split; [done | by exists st].
  - split; [done | by exists st].
Qed.

Lemma loadPackages_threw names st :
  (exists st', loadPackages (Some fs) manifestTypes names st = Threw st')
  <-> existsb (existenceTestRejects fs) names = true.
Proof.
  revert st. induction names as [| pkg names IH]; intros st; cbn [loadPackages existsb].
  - split; [by intros [st' H] | done].
  - rewrite orb_true_iff, <- (loadPackageTypes_threw pkg st).
    destruct (loadPackageTypes (Some fs) manifestTypes pkg st) as [st1 | st1].
    + rewrite (IH st1). split; [by right | intros [[st' H] | H]; done].
    + split; [left |]; by exists st1.
Qed.

Lemma loadAllNodeModulesTypes_threw st :
  (exists st', loadAllNodeModulesTypes (Some fs) manifestTypes st = Threw st')
  <-> existsb (existenceTestRejects fs) priorityPackages = true.
Proof.
  rewrite <- (loadPackages_threw priorityPackages st).
  unfold loadAllNodeModulesTypes.
  destruct (loadPackages (Some fs) manifestTypes priorityPackages st) as [st1 | st1].
  - split; [| by intros [st' H]].
    destruct (fs_exists fs "node_modules/@types") as [[] |]; try by intros [st' H].
    destruct (fs_readdir fs "node_modules/@types"); by intros [st' H].
  - split; intros _; by exists st1.
Qed.

(** X9. The initialization is rejected exactly when the host rejects an
    existence test made for one of the seven priority packages.  Every
    other failure, of a read, of a listing, of the parsing of the
    configuration or of a manifest, or of an existence test made for
    another package, is swallowed, and the initialization goes on to the
    project sources. *)
Theorem initTypeSystem_rejected_iff (s : Session) :
  (exists s', initTypeSystem (Some fs) parseConfig manifestTypes s = Rejected s')
  <-> existsb (existenceTestRejects fs) priorityPackages = true.
Proof.
  rewrite <- (loadAllNodeModulesTypes_threw
                (session_types (loadTsConfig (Some fs) parseConfig s))).
  unfold initTypeSystem.
  destruct (loadAllNodeModulesTypes (Some fs) manifestTypes
              (session_types (loadTsConfig (Some fs) parseConfig s))) as [st1 | st1].
  - split; by intros [x H].
  - split; intros _; eauto.
Qed.

(** X10. An initialization that is rejected has not looked at the project
    sources: whatever it brought into the corpus lies below the directory
    of a priority package under [node_modules]. *)
Theorem initTypeSystem_rejected_frame (s s' : Session) (p : string) :
  initTypeSystem (Some fs) parseConfig manifestTypes s = Rejected s' ->
  p ∈ loadedFiles (session_types s') ->
  p ∉ loadedFiles (session_types s) ->
  exists packageName,
    packageName ∈ priorityPackages
    /\ (Str.startsWith p ("node_modules/@types/" ++ packageName ++ "/") = true
        \/ Str.startsWith p ("node_modules/" ++ packageName ++ "/") = true).
Proof.
  unfold initTypeSystem. rewrite loadTsConfig_types.
  destruct (loadAllNodeModulesTypes (Some fs) manifestTypes (session_types s))
    as [st1 | st1] eqn:Hall; [done |].
  intros [= <-]. cbn [session_types withTypes]. intros Hin Hout.
  unfold loadAllNodeModulesTypes in Hall.
  destruct (loadPackages (Some fs) manifestTypes priorityPackages (session_types s))
    as [st2 | st2] eqn:Hp.
  - destruct (fs_exists fs "node_modules/@types") as [[] |]; try done.
    by destruct (fs_readdir fs "node_modules/@types").
  - injection Hall as ->.
    apply (loadPackages_new fs manifestTypes priorityPackages (session_types s)); [| done].
    by rewrite Hp.
Qed.

End InitEnds.

(** ** What the import expression can extract *)

Lemma starRuns_inv (p : ascii -> bool) (s rest : string) :
  In rest (starRuns p s) -> exists u, s = u ++ rest /\ allChars p u = true.
Proof.
  induction s as [| c s IH]; cbn [starRuns].
  - intros [<- | []]. by exists "".
  - destruct (p c) eqn:Hc.
    + intros [H | [<- | []]]%in_app_or.
      * destruct (IH H) as (u & -> & Hu). exists (String c u).
        split; [done |]. cbn [allChars]. by rewrite Hc, Hu.
      * by exists "".
    + intros [<- | []]. by exists "".
Qed.

Lemma run_suffix (r : regex) (s : string) (cap : option string) (o : outcome) :
  In o (run r s cap) -> exists u, s = u ++ fst o.
Proof.
  revert s cap o. induction r as [| c | p | p | r1 IH1 r2 IH2 | r1 IH1 r2 IH2 | r IH |];
    intros s cap o; cbn [run].
  - intros [<- | []]. by exists "".
  - destruct s as [| c' s]; [intros [] |].
    destruct (Ascii.eqb c' c); [| intros []].
    intros [<- | []]. by exists (String c' "").
  - destruct s as [| c' s]; [intros [] |].
    destruct (p c'); [| intros []].
    intros [<- | []]. by exists (String c' "").
  - intros (rest & <- & H)%in_map_iff.
    destruct (starRuns_inv p s rest H) as (u & -> & _). by exists u.
  - intros (o1 & H1 & H2)%in_flat_map.
    destruct (IH1 _ _ _ H1) as [u1 ->]. destruct (IH2 _ _ _ H2) as [u2 Hu2].
    exists (u1 ++ u2). by rewrite append_assoc, <- Hu2.
  - intros [H | H]%in_app_or; [by eapply IH1 | by eapply IH2].
  - intros (o1 & <- & H)%in_map_iff. cbn [fst]. by eapply IH.
  - destruct s; [| intros []]. intros [<- | []]. by exists "".
Qed.

Lemma run_lit_inv (w s : string) (cap : option string) (o : outcome) :
  In o (run (Lit w) s cap) -> snd o = cap /\ s = w ++ fst o.
Proof.
  revert s. induction w as [| c w IH]; intros s; cbn [Lit run].
  - by intros [<- | []].
  - intros (o1 & H1 & H2)%in_flat_map.
    destruct s as [| c' s]; [destruct H1 |].
    destruct (Ascii.eqb_spec c' c) as [-> | Hne]; [| destruct H1].
    destruct H1 as [<- | []]. cbn [fst snd] in H2.
    destruct (IH _ H2) as [Hcap ->]. by rewrite append_cons.
Qed.

Lemma run_cls_inv (p : ascii -> bool) (s : string) (cap : option string) (o : outcome) :
  In o (run (Cls p) s cap) -> snd o = cap /\ exists q, p q = true /\ s = String q (fst o).
Proof.
  cbn [run]. destruct s as [| c s]; [intros [] |].
  destruct (p c) eqn:Hc; [| intros []].
  intros [<- | []]. split; [done |]. by exists c.
Qed.

Lemma run_plus_inv (p : ascii -> bool) (s : string) (cap : option string) (o : outcome) :
  In o (run (Plus p) s cap) ->
  snd o = cap /\ exists q u, p q = true /\ allChars p u = true /\ s = String q (u ++ fst o).
Proof.
  unfold Plus. rewrite run_seq.
  intros (o1 & H1 & H2)%in_flat_map.
  apply run_cls_inv in H1 as (Hcap & q & Hq & ->).
  cbn [run] in H2. apply in_map_iff in H2 as (rest & <- & H2).
  apply starRuns_inv in H2 as (u & Hu & Hall).
  split; [done |]. exists q, u. cbn [fst]. by rewrite <- Hu.
Qed.

Lemma run_quoted_inv (s : string) (cap : option string) (o : outcome) :
  In o (run quotedRe s cap) ->
  exists q1 u q2,
    s = String q1 (u ++ String q2 (fst o))
    /\ snd o = Some u /\ u <> "" /\ allChars notQuote u = true
    /\ isQuote q1 = true /\ isQuote q2 = true.
Proof.
  unfold quotedRe. cbn [seqs]. rewrite run_seq.
  intros (o1 & H1 & H2)%in_flat_map.
  apply run_cls_inv in H1 as (_ & q1 & Hq1 & ->).
  rewrite run_seq in H2. apply in_flat_map in H2 as (o2 & H2 & H3).
  apply run_cls_inv in H3 as (Hcap & q2 & Hq2 & Ho2).
  cbn [run] in H2. apply in_map_iff in H2 as (o3 & Heq & H2). subst o2.
  apply run_plus_inv in H2 as (_ & c & u & Hc & Hu & Hs).
  cbn [fst snd] in *.
  assert (Hsplit : fst o1 = String c u ++ String q2 (fst o)).
  { rewrite Hs, Ho2. by rewrite append_cons. }
  assert (Htake : Str.take (String.length (fst o1) - String.length (fst o3)) (fst o1)
                  = String c u).
  { rewrite Hsplit, Ho2, length_append.
    replace (String.length (String c u) + String.length (String q2 (fst o))
             - String.length (String q2 (fst o)))%nat
      with (String.length (String c u)) by lia.
    apply take_append. }
  exists q1, (String c u), q2.
  repeat apply conj; try done.
  - by rewrite Hsplit.
  - by rewrite Hcap, Htake.
  - cbn [allChars]. by rewrite Hc, Hu.
Qed.

Lemma importRegex_inv (s : string) (cap : option string) (o : outcome) :
  In o (run importRegex s cap) ->
  exists kw sp mid q1 u q2,
    s = kw ++ String sp (mid ++ String q1 (u ++ String q2 (fst o)))
    /\ (kw = "import" \/ kw = "export") /\ isSpace sp = true
    /\ snd o = Some u /\ u <> "" /\ allChars notQuote u = true
    /\ isQuote q1 = true /\ isQuote q2 = true.
Proof.
  rewrite importRegex_parts, run_seq.
  intros (o1 & H1 & H2)%in_flat_map.
  assert (Hkw : exists kw, (kw = "import" \/ kw = "export") /\ s = kw ++ fst o1).
  { unfold keywordRe in H1. cbn [run] in H1.
    apply in_app_or in H1 as [H1 | H1]; apply run_lit_inv in H1 as [_ H1]; eauto. }
  destruct Hkw as (kw & Hkw & ->).
  rewrite run_seq in H2. apply in_flat_map in H2 as (o2 & H2 & H3).
  apply run_plus_inv in H2 as (_ & sp & u1 & Hsp & _ & Hs1).
  rewrite run_seq in H3. apply in_flat_map in H3 as (o3 & H3 & H4).
  apply run_suffix in H3 as [u2 Hs2].
  apply run_quoted_inv in H4 as (q1 & u & q2 & Hs3 & Hcap & Hne & Hall & Hq1 & Hq2).
  exists kw, sp, (u1 ++ u2), q1, u, q2.
  repeat apply conj; try done.
  rewrite Hs1, Hs2, Hs3. by rewrite append_assoc.
Qed.

Lemma execAll_inv (r : regex) (k : nat) (s : string) (cap : option string) :
  In cap (execAll r k s) ->
  exists a s' n, s = a ++ s' /\ matchHere r s' = Some (n, cap).
Proof.
  revert k. induction s as [| c s IH]; intros k.
  - destruct k as [| k]; cbn [execAll]; [| intros []].
    destruct (matchHere r "") as [[n cap0] |] eqn:Hm; [| intros []].
    intros [<- | []]. by exists "", "", n.
  - assert (Hrest : forall j, In cap (execAll r j s) ->
                              exists a s' n, String c s = a ++ s'
                                             /\ matchHere r s' = Some (n, cap)).
    { intros j (a & s' & n & -> & Hm)%IH. by exists (String c a), s', n. }
    destruct k as [| k]; cbn [execAll]; [| apply Hrest].
    destruct (matchHere r (String c s)) as [[n cap0] |] eqn:Hm; [| apply Hrest].
    intros [<- | H]; [by exists "", (String c s), n | by eapply Hrest].
Qed.

(** X11. Every specifier that the loader extracts from a text stands in
    that text between two quote characters, is not empty and holds no
    quote character, and comes after the keyword [import] or [export]
    followed by whitespace.  The two quote characters need not be the
    same, and the keyword need not stand at the start of a word. *)
Theorem extractSpecifiers_sound (content spec : string) :
  spec ∈ extractSpecifiers content ->
  spec <> "" /\ allChars notQuote spec = true
  /\ exists before kw sp mid q1 q2 after,
      content = before ++ kw ++ String sp (mid ++ String q1 (spec ++ String q2 after))
      /\ (kw = "import" \/ kw = "export") /\ isSpace sp = true
      /\ isQuote q1 = true /\ isQuote q2 = true.
Proof.
  unfold extractSpecifiers. rewrite list_elem_of_In.
  intros (cap & <- & Hin)%in_map_iff.
  apply execAll_inv in Hin as (a & s' & n & -> & Hm).
  unfold matchHere in Hm.
  destruct (run importRegex s' None) as [| [rest cap'] outcomes] eqn:Hrun; [done |].
  injection Hm as _ ->.
  assert (Hin : In (rest, cap) (run importRegex s' None)) by (rewrite Hrun; by left).
  apply importRegex_inv in Hin
    as (kw & sp & mid & q1 & u & q2 & -> & Hkw & Hsp & Hcap & Hne & Hall & Hq1 & Hq2).
  cbn [snd fst] in *. subst cap.
  split; [done |]. split; [done |].
  by exists a, kw, sp, mid, q1, q2, rest.
Qed.

(** ** The expression built for an alias *)

Lemma hasChar_append (x : ascii) (a b : string) :
  hasChar x (a ++ b) = hasChar x a || hasChar x b.
Proof.
  induction a as [| c a IH]; [done |].
  rewrite append_cons. cbn [hasChar]. by rewrite IH, orb_assoc.
Qed.

Lemma drop_append (s t : string) : Str.drop (String.length s) (s ++ t) = t.
Proof. induction s as [| c s IH]; [by destruct t |]. by rewrite append_cons. Qed.

Lemma prefix_refl_append (pat r : string) : String.prefix pat (pat ++ r) = true.
Proof. apply prefix_iff. by exists r. Qed.

Lemma firstIndex_append (x : ascii) (a b : string) :
  hasChar x a = false ->
  firstIndex x (a ++ b) = option_map (Nat.add (String.length a)) (firstIndex x b).
Proof.
  induction a as [| c a IH]; intros H.
  - rewrite append_empty_l. by destruct (firstIndex x b).
  - cbn [hasChar] in H. apply orb_false_elim in H as [Hc Ha].
    rewrite append_cons. cbn [firstIndex]. rewrite Hc, IH by done.
    by destruct (firstIndex x b).
Qed.

Lemma cut_unfold (pat s : string) :
  Str.cut pat s =
  if String.prefix pat s then Some ("", Str.drop (String.length pat) s)
  else match s with
       | EmptyString => None
       | String c s' =>
           match Str.cut pat s' with
           | Some (before, after) => Some (String c before, after)
           | None => None
           end
       end.
Proof. by destruct s. Qed.

(** A pattern is found at its first occurrence. *)
Lemma cut_first (P : string -> Prop) (pat e r : string) :
  (forall c s, P (String c s) -> P s) ->
  (forall c s, P (String c s) -> String.prefix pat (String c s ++ pat ++ r) = false) ->
  P e -> Str.cut pat (e ++ pat ++ r) = Some (e, r).
Proof.
  intros Hsuffix Hfree. induction e as [| c e IH]; intros He.
  - rewrite append_empty_l, cut_unfold. by rewrite prefix_refl_append, drop_append.
  - rewrite cut_unfold, (Hfree c e He). rewrite append_cons.
    by rewrite IH by (by eapply Hsuffix).
Qed.

Lemma cut_none (P : string -> Prop) (pat e : string) :
  (forall c s, P (String c s) -> P s) ->
  (forall s, P s -> String.prefix pat s = false) ->
  P e -> Str.cut pat e = None.
Proof.
  intros Hsuffix Hfree. induction e as [| c e IH]; intros He.
  - rewrite cut_unfold. by rewrite Hfree.
  - rewrite cut_unfold, Hfree by done. by rewrite IH by (by eapply Hsuffix).
Qed.

Lemma hasChar_tail (x c : ascii) (s : string) :
  hasChar x (String c s) = false -> hasChar x s = false.
Proof. cbn [hasChar]. by intros [_ H]%orb_false_elim. Qed.

Lemma cut_char (x : ascii) (e r : string) :
  hasChar x e = false -> Str.cut (String x "") (e ++ String x r) = Some (e, r).
Proof.
  intros He.
  apply (cut_first (fun s => hasChar x s = false) (String x "") e r);
    [apply hasChar_tail | | done].
  intros c s H. cbn [hasChar] in H. apply orb_false_elim in H as [Hc _].
  rewrite append_cons. cbn [String.prefix].
  destruct (ascii_dec x c) as [-> | Hne]; [| done]. by rewrite Ascii.eqb_refl in Hc.
Qed.

Lemma cut_char_none (x : ascii) (e : string) :
  hasChar x e = false -> Str.cut (String x "") e = None.
Proof.
  apply (cut_none (fun s => hasChar x s = false)); [apply hasChar_tail |].
  intros [| c s]; [done |]. cbn [hasChar String.prefix].
  intros [Hc _]%orb_false_elim.
  destruct (ascii_dec x c) as [-> | Hne]; [| done]. by rewrite Ascii.eqb_refl in Hc.
Qed.

Lemma getSubstitution_plain (matched before after rep : string) :
  hasChar "$" rep = false -> Str.getSubstitution matched before after rep = rep.
Proof.
  induction rep as [| c rep IH]; [done |]. cbn [hasChar].
  intros [Hc Hrep]%orb_false_elim. specialize (IH Hrep).
  destruct c as [[] [] [] [] [] [] [] []];
    try (vm_compute in Hc; discriminate Hc);
    cbn [Str.getSubstitution]; by rewrite IH.
Qed.

Lemma replaceFirst_star (rep pre post : string) :
  hasChar "*" pre = false -> hasChar "$" rep = false ->
  Str.replaceFirst "*" rep (pre ++ "*" ++ post) = pre ++ rep ++ post.
Proof.
  intros Hpre Hrep. unfold Str.replaceFirst.
  change ("*" ++ post) with (String "*" post).
  by rewrite cut_char, getSubstitution_plain.
Qed.

Lemma replaceFirst_absent (x : ascii) (rep s : string) :
  hasChar x s = false -> Str.replaceFirst (String x "") rep s = s.
Proof. intros H. unfold Str.replaceFirst. by rewrite cut_char_none. Qed.

Lemma escapeRegExp_append (a b : string) :
  escapeRegExp (a ++ b) = escapeRegExp a ++ escapeRegExp b.
Proof.
  induction a as [| c a IH]; [done |].
  rewrite append_cons. cbn [escapeRegExp]. rewrite IH.
  by destruct (isRegExpSpecial c).
Qed.

Lemma escapeRegExp_star_free (s : string) :
  hasChar "*" s = false -> hasChar "*" (escapeRegExp s) = false.
Proof.
  induction s as [| c s IH]; [done |]. cbn [hasChar escapeRegExp].
  intros [Hc Hs]%orb_false_elim.
  destruct (isRegExpSpecial c); cbn [hasChar]; rewrite Hc, IH by done; done.
Qed.

Lemma escaped_group_first (e r : string) :
  hasChar "*" e = false ->
  Str.cut "\(\.\*\)" (e ++ "\(\.\*\)" ++ r) = Some (e, r).
Proof.
  intros He.
  apply (cut_first (fun s => hasChar "*" s = false)); [apply hasChar_tail | | done].
  intros c s Hs.
  destruct (String.prefix "\(\.\*\)" (String c s ++ "\(\.\*\)" ++ r)) eqn:Hp; [| done].
  apply prefix_iff in Hp as [t Ht].
  apply (f_equal (firstIndex "*")) in Ht.
  rewrite firstIndex_append in Ht by done.
  change (firstIndex "*" ("\(\.\*\)" ++ r)) with (Some 5%nat) in Ht.
  change (firstIndex "*" ("\(\.\*\)" ++ t)) with (Some 5%nat) in Ht.
  cbn [option_map String.length] in Ht. injection Ht as Ht. lia.
Qed.

Lemma escaped_group_absent (e : string) :
  hasChar "*" e = false -> Str.cut "\(\.\*\)" e = None.
Proof.
  apply (cut_none (fun s => hasChar "*" s = false)); [apply hasChar_tail |].
  intros s Hs.
  destruct (String.prefix "\(\.\*\)" s) eqn:Hp; [| done].
  apply prefix_iff in Hp as [t ->].
  by rewrite hasChar_append in Hs.
Qed.

(** The pattern text of an alias with a star, and of one without. *)
Lemma aliasRegExpSource_star (pre post : string) :
  hasChar "*" pre = false ->
  aliasRegExpSource (pre ++ "*" ++ post)
  = "^" ++ escapeRegExp pre ++ "(.*)" ++ escapeRegExp post ++ "$".
Proof.
  intros Hpre. unfold aliasRegExpSource.
  rewrite replaceFirst_star by done.
  rewrite !escapeRegExp_append.
  change (escapeRegExp "(.*)") with "\(\.\*\)".
  unfold Str.replaceFirst at 1.
  rewrite escaped_group_first by (by apply escapeRegExp_star_free).
  change (Str.getSubstitution "\(\.\*\)" (escapeRegExp pre) (escapeRegExp post) "(.*)")
    with "(.*)".
  by rewrite !append_assoc.
Qed.

Lemma aliasRegExpSource_exact (alias : string) :
  hasChar "*" alias = false ->
  aliasRegExpSource alias = "^" ++ escapeRegExp alias ++ "$".
Proof.
  intros H. unfold aliasRegExpSource.
  rewrite (replaceFirst_absent "*") by done.
  unfold Str.replaceFirst. by rewrite escaped_group_absent by (by apply escapeRegExp_star_free).
Qed.

Lemma parsePattern_plain (c : ascii) (rest : string) :
  isRegExpSpecial c = false ->
  parsePattern (String c rest) = Seq (Chr c) (parsePattern rest).
Proof.
  intros H.
  destruct c as [[] [] [] [] [] [] [] []];
    try (vm_compute in H; discriminate H); reflexivity.
Qed.

Lemma parsePattern_escaped (w rest : string) :
  parsePattern (escapeRegExp w ++ rest) = litThen w (parsePattern rest).
Proof.
  induction w as [| c w IH]; [done |].
  cbn [escapeRegExp litThen]. destruct (isRegExpSpecial c) eqn:Hc.
  - rewrite !append_cons. cbn [parsePattern]. by rewrite IH.
  - rewrite append_cons, parsePattern_plain by done. by rewrite IH.
Qed.

Lemma newRegExp_star (pre post : string) :
  hasChar "*" pre = false ->
  newRegExp (aliasRegExpSource (pre ++ "*" ++ post))
  = litThen pre (Seq (Cap (Star isDot)) (litThen post Eos)).
Proof.
  intros Hpre. rewrite aliasRegExpSource_star by done.
  change (newRegExp ("^" ++ escapeRegExp pre ++ "(.*)" ++ escapeRegExp post ++ "$"))
    with (parsePattern (escapeRegExp pre ++ "(.*)" ++ escapeRegExp post ++ "$")).
  rewrite parsePattern_escaped.
  change (parsePattern ("(.*)" ++ escapeRegExp post ++ "$"))
    with (Seq (Cap (Star isDot)) (parsePattern (escapeRegExp post ++ "$"))).
  by rewrite parsePattern_escaped.
Qed.

Lemma newRegExp_exact (alias : string) :
  hasChar "*" alias = false ->
  newRegExp (aliasRegExpSource alias) = litThen alias Eos.
Proof.
  intros H. rewrite aliasRegExpSource_exact by done.
  change (newRegExp ("^" ++ escapeRegExp alias ++ "$"))
    with (parsePattern (escapeRegExp alias ++ "$")).
  by rewrite parsePattern_escaped.
Qed.

Lemma run_litThen (w : string) (r : regex) (y : string) (cap : option string) :
  run (litThen w r) (w ++ y) cap = run r y cap.
Proof.
  induction w as [| c w IH]; [done |].
  rewrite append_cons. cbn [litThen]. rewrite run_seq. cbn [run].
  rewrite Ascii.eqb_refl. cbn [flat_map fst snd]. rewrite app_nil_r. exact IH.
Qed.

Lemma run_litThen_inv (w : string) (r : regex) (s : string) (cap : option string)
      (o : outcome) :
  In o (run (litThen w r) s cap) -> exists y, s = w ++ y /\ In o (run r y cap).
Proof.
  revert s. induction w as [| c w IH]; intros s; cbn [litThen].
  - intros H. by exists s.
  - rewrite run_seq. intros (o1 & H1 & H2)%in_flat_map.
    cbn [run] in H1. destruct s as [| c' s]; [destruct H1 |].
    destruct (Ascii.eqb_spec c' c) as [-> | Hne]; [| destruct H1].
    destruct H1 as [<- | []]. cbn [fst snd] in H2.
    destruct (IH _ H2) as (y & -> & Hy). by exists y.
Qed.

Lemma run_literal_end (post rest : string) (cap : option string) (o : outcome) :
  In o (run (litThen post Eos) rest cap) -> rest = post /\ o = ("", cap).
Proof.
  intros (y & -> & Hy)%run_litThen_inv. cbn [run] in Hy.
  destruct y; [| destruct Hy]. destruct Hy as [<- | []].
  by rewrite append_empty_r.
Qed.

Lemma run_literal_end_hit (post : string) (cap : option string) :
  run (litThen post Eos) post cap = [("", cap)].
Proof. rewrite <- (append_empty_r post) at 2. by rewrite run_litThen. Qed.

Lemma run_literal_end_miss (post rest : string) (cap : option string) :
  String.length rest <> String.length post -> run (litThen post Eos) rest cap = [].
Proof.
  intros Hlen. destruct (run (litThen post Eos) rest cap) as [| o l] eqn:Hrun; [done |].
  assert (Hin : In o (run (litThen post Eos) rest cap)) by (rewrite Hrun; by left).
  apply run_literal_end in Hin as [-> _]. done.
Qed.

(** The runs of a class over a text: the shorter rests first, then the
    text itself. *)
Lemma starRuns_last (p : ascii -> bool) (s : string) :
  exists l, starRuns p s = (l ++ [s])%list
            /\ forall r, In r l -> (String.length r < String.length s)%nat.
Proof.
  induction s as [| c s IH]; cbn [starRuns].
  - by exists [].
  - destruct (p c); [| by exists []].
    exists (starRuns p s). split; [done |].
    intros r Hr%starRuns_shrink. cbn [String.length]. lia.
Qed.

Lemma starRuns_append (p : ascii -> bool) (m post : string) :
  allChars p m = true ->
  exists l, starRuns p (m ++ post) = (starRuns p post ++ l)%list
            /\ forall r, In r l -> (String.length post < String.length r)%nat.
Proof.
  induction m as [| c m IH]; intros Hm.
  - exists []. by rewrite append_empty_l, app_nil_r.
  - cbn [allChars] in Hm. apply andb_prop in Hm as [Hc Hm].
    destruct (IH Hm) as (l & Hl & Hlong).
    exists (l ++ [String c (m ++ post)])%list.
    rewrite append_cons. cbn [starRuns]. rewrite Hc, Hl. split; [by rewrite app_assoc |].
    intros r [Hr | [<- | []]]%in_app_or; [by apply Hlong |].
    cbn [String.length]. rewrite length_append. lia.
Qed.

Lemma flat_map_nil {A B} (f : A -> list B) (l : list A) :
  (forall x, In x l -> f x = []) -> flat_map f l = [].
Proof.
  induction l as [| x l IH]; intros H; [done |].
  cbn [flat_map]. rewrite (H x) by (by left). apply IH. intros y Hy. apply H. by right.
Qed.

(** The group and the literal rest of an alias expression on a text that
    ends in that rest. *)
Lemma run_group_hit (mid post : string) (cap : option string) :
  allChars isDot mid = true ->
  run (Seq (Cap (Star isDot)) (litThen post Eos)) (mid ++ post) cap = [("", Some mid)].
Proof.
  intros Hmid. rewrite run_seq. cbn [run]. rewrite !flat_map_map. cbn [fst snd].
  destruct (starRuns_append isDot mid post Hmid) as (longer & -> & Hlonger).
  destruct (starRuns_last isDot post) as (shorter & -> & Hshorter).
  rewrite !flat_map_app. cbn [flat_map].
  rewrite (flat_map_nil _ shorter), (flat_map_nil _ longer).
  - rewrite run_literal_end_hit, length_append.
    replace (String.length mid + String.length post - String.length post)%nat
      with (String.length mid) by lia.
    by rewrite take_append.
  - intros r Hr%Hlonger. apply run_literal_end_miss. lia.
  - intros r Hr%Hshorter. apply run_literal_end_miss. lia.
Qed.

Lemma run_group_inv (post y : string) (cap : option string) (o : outcome) :
  In o (run (Seq (Cap (Star isDot)) (litThen post Eos)) y cap) ->
  exists mid, y = mid ++ post /\ allChars isDot mid = true /\ o = ("", Some mid).
Proof.
  rewrite run_seq. cbn [run]. rewrite !flat_map_map. cbn [fst snd].
  intros (rest & Hrest & Ho)%in_flat_map.
  apply starRuns_inv in Hrest as (mid & -> & Hmid).
  apply run_literal_end in Ho as [-> ->].
  exists mid. split; [done |]. split; [done |].
  rewrite length_append.
  replace (String.length mid + String.length post - String.length post)%nat
    with (String.length mid) by lia.
  by rewrite take_append.
Qed.

Lemma append_inv_head (a b c : string) : a ++ b = a ++ c -> b = c.
Proof. induction a as [| x a IH]; [done |]. rewrite !append_cons. intros [= H]. by apply IH. Qed.

Lemma aliasCapture_star (pre post importPath mid : string) :
  hasChar "*" pre = false ->
  aliasCapture (pre ++ "*" ++ post) importPath = Some mid
  <-> importPath = pre ++ mid ++ post /\ allChars isDot mid = true.
Proof.
  intros Hpre. unfold aliasCapture, stringMatch, matchHere.
  rewrite newRegExp_star by done. split.
  - destruct (run (litThen pre (Seq (Cap (Star isDot)) (litThen post Eos))) importPath None)
      as [| [rest cap] l] eqn:Hrun; [done |].
    cbn [option_map orEmpty]. intros [= Hcap].
    assert (Hin : In (rest, cap)
                     (run (litThen pre (Seq (Cap (Star isDot)) (litThen post Eos)))
                          importPath None)) by (rewrite Hrun; by left).
    apply run_litThen_inv in Hin as (y & -> & Hin).
    apply run_group_inv in Hin as (m & -> & Hm & [= -> ->]).
    cbn [orEmpty] in Hcap. by subst m.
  - intros [-> Hmid]. by rewrite run_litThen, run_group_hit.
Qed.

(** X12. An alias with a star matches exactly the specifiers that start
    with the text before its first star and end with the text after it,
    with no line terminator in between, and captures what lies in
    between.  Every character of the alias outside that star stands for
    itself, also the characters that are special in a regular expression
    and the stars after the first. *)
Theorem aliasCapture_wildcard (pre post importPath mid : string) :
  hasChar "*" pre = false ->
  (aliasCapture (pre ++ "*" ++ post) importPath = Some mid
   <-> importPath = pre ++ mid ++ post /\ allChars isDot mid = true)
  /\ (aliasCapture (pre ++ "*" ++ post) importPath = None
      <-> forall m, importPath = pre ++ m ++ post -> allChars isDot m = false).
Proof.
  intros Hpre. split; [by apply aliasCapture_star |].
  split.
  - intros Hnone m Hm. destruct (allChars isDot m) eqn:Hdot; [| done].
    assert (H : aliasCapture (pre ++ "*" ++ post) importPath = Some m)
      by (by apply aliasCapture_star).
    congruence.
  - intros Hno.
    destruct (aliasCapture (pre ++ "*" ++ post) importPath) as [m |] eqn:Hcap; [| done].
    apply aliasCapture_star in Hcap as [Hm Hdot]; [| done].
    by rewrite (Hno m Hm) in Hdot.
Qed.

(** X13. An alias without a star matches exactly the specifier equal to
    it, character for character, and captures nothing: the empty text
    stands for the capture. *)
Theorem aliasCapture_literal (alias importPath : string) :
  hasChar "*" alias = false ->
  aliasCapture alias importPath = (if String.eqb importPath alias then Some "" else None).
Proof.
  intros H. unfold aliasCapture, stringMatch, matchHere.
  rewrite newRegExp_exact by done.
  destruct (String.eqb_spec importPath alias) as [-> | Hne].
  - by rewrite run_literal_end_hit.
  - destruct (run (litThen alias Eos) importPath None) as [| o l] eqn:Hrun; [done |].
    assert (Hin : In o (run (litThen alias Eos) importPath None)) by (rewrite Hrun; by left).
    by apply run_literal_end in Hin as [-> _].
Qed.

(** X14. An aliased specifier is resolved by substitution: with an alias
    and a first target that both have a star, the text that the specifier
    has in place of the star of the alias is put in place of the first
    star of the target, after the base directory, and a leading [./] is
    dropped.  This needs the text to hold no dollar sign, which the
    substitution would expand, and no line terminator, which the star of the alias does
    not match. *)
Theorem resolvePathAlias_substitutes (pre post tpre tpost mid base : string)
        (targets : list string) (others : list (string * list string)) :
  hasChar "*" pre = false ->
  hasChar "*" tpre = false ->
  allChars isDot mid = true ->
  hasChar "$" mid = false ->
  base <> "" ->
  resolvePathAlias ((pre ++ "*" ++ post, (tpre ++ "*" ++ tpost) :: targets) :: others)
                   base (pre ++ mid ++ post)
  = Some (stripDotSlash (base ++ "/" ++ tpre ++ mid ++ tpost)).
Proof.
  intros Hpre Htpre Hdot Hdollar Hbase. unfold resolvePathAlias.
  assert (Hcap : aliasCapture (pre ++ "*" ++ post) (pre ++ mid ++ post) = Some mid)
    by (by apply aliasCapture_star).
  rewrite resolvePathAliasIn_cons, Hcap.
  unfold aliasTargetPath. rewrite replaceFirst_star by done.
  apply String.eqb_neq in Hbase. by rewrite Hbase.
Qed.

(** ** Normal forms of paths *)

Lemma normalize_clean_parts (parts acc : list string) :
  Forall (fun part => part <> ".." /\ part <> ".") parts ->
  fold_left normalizeStep parts acc = (acc ++ parts)%list.
Proof.
  revert acc. induction parts as [| part parts IH]; intros acc Hparts.
  - by rewrite app_nil_r.
  - apply Forall_cons in Hparts as [[Hup Hdot] Hparts].
    cbn [fold_left]. rewrite IH by done. unfold normalizeStep.
    apply String.eqb_neq in Hup, Hdot. rewrite Hup, Hdot. cbn [negb].
    by rewrite <- app_assoc.
Qed.

Lemma normalizeParts_slash_free (parts : list string) :
  Forall (fun part => hasChar "/" part = false) parts ->
  Forall (fun part => hasChar "/" part = false) (normalizeParts parts).
Proof.
  intros H. apply fold_normalize_Forall; [constructor |].
  intros part Hin _ _. rewrite Forall_forall in H. by apply H.
Qed.

Lemma split_slash_free (s : string) :
  Forall (fun part => hasChar "/" part = false) (Str.split "/" s).
Proof. apply Forall_forall. intros part. apply split_parts_clean. Qed.

(** X15. Normalization is idempotent: a path that was normalized is left
    as it is by a second normalization. *)
Theorem normalizePath_idempotent (p : string) :
  normalizePath (normalizePath p) = normalizePath p.
Proof.
  unfold normalizePath.
  pose proof (normalizeParts_clean (Str.split "/" p)) as Hclean.
  pose proof (normalizeParts_slash_free _ (split_slash_free p)) as Hfree.
  destruct (normalizeParts (Str.split "/" p)) as [| x l] eqn:Hparts; [done |].
  rewrite split_join by done.
  unfold normalizeParts. by rewrite normalize_clean_parts.
Qed.

Lemma collapseDotSlash_unfold (c : ascii) (rest : string) :
  collapseDotSlash (String c rest) =
  if Ascii.eqb c "/" then
    match rest with
    | String c2 (String c3 rest2) =>
        if Ascii.eqb c2 "." && Ascii.eqb c3 "/" then String "/" (collapseDotSlash rest2)
        else String c (collapseDotSlash rest)
    | _ => String c (collapseDotSlash rest)
    end
  else String c (collapseDotSlash rest).
Proof.
  destruct c as [[] [] [] [] [] [] [] []]; try reflexivity.
  destruct rest as [| c2 [| c3 rest2]]; try reflexivity.
  - destruct c2 as [[] [] [] [] [] [] [] []]; reflexivity.
  - destruct c2 as [[] [] [] [] [] [] [] []]; try reflexivity.
    destruct c3 as [[] [] [] [] [] [] [] []]; reflexivity.
Qed.

Lemma split_cons (c : ascii) (s : string) :
  Str.split "/" (String c s) =
  if Ascii.eqb c "/" then "" :: Str.split "/" s
  else match Str.split "/" s with
       | seg :: segs => String c seg :: segs
       | [] => [String c ""]
       end.
Proof. reflexivity. Qed.

(** Collapsing only removes segments that are the current directory, and
    never the first segment. *)
Lemma split_collapse (n : nat) (s : string) :
  (String.length s <= n)%nat ->
  exists x t t',
    Str.split "/" s = x :: t
    /\ Str.split "/" (collapseDotSlash s) = x :: t'
    /\ withoutDots t' = withoutDots t.
Proof.
  revert s. induction n as [| n IH]; intros s Hlen.
  { destruct s; [| cbn in Hlen; lia]. by exists "", [], []. }
  destruct s as [| c rest]; [by exists "", [], [] |].
  cbn [String.length] in Hlen.
  assert (Hstep : exists x t t',
             Str.split "/" (String c rest) = x :: t
             /\ Str.split "/" (String c (collapseDotSlash rest)) = x :: t'
             /\ withoutDots t' = withoutDots t).
  { destruct (IH rest ltac:(lia)) as (x & t & t' & Hs & Hc & Hf).
    rewrite !split_cons, Hs, Hc. destruct (Ascii.eqb c "/").
    - exists "", (x :: t), (x :: t'). repeat split. unfold withoutDots in *.
      cbn [List.filter]. by rewrite Hf.
    - by exists (String c x), t, t'. }
  rewrite collapseDotSlash_unfold.
  destruct (Ascii.eqb_spec c "/") as [-> | Hne]; [| exact Hstep].
  destruct rest as [| c2 [| c3 rest2]]; [exact Hstep | exact Hstep |].
  destruct (Ascii.eqb_spec c2 ".") as [-> | Hne2]; [| exact Hstep].
  destruct (Ascii.eqb_spec c3 "/") as [-> | Hne3]; [| exact Hstep].
  cbn [andb String.length] in *.
  destruct (IH rest2 ltac:(lia)) as (x & t & t' & Hs & Hc & Hf).
  exists "", ("." :: x :: t), (x :: t').
  rewrite !split_cons, Hs, Hc. cbn [Ascii.eqb Bool.eqb].
  repeat split. unfold withoutDots in *. cbn [List.filter String.eqb Ascii.eqb Bool.eqb negb].
  by rewrite Hf.
Qed.

Lemma normalize_withoutDots (parts acc : list string) :
  fold_left normalizeStep (withoutDots parts) acc = fold_left normalizeStep parts acc.
Proof.
  revert acc. induction parts as [| part parts IH]; intros acc; [done |].
  unfold withoutDots in *. cbn [List.filter fold_left].
  destruct (String.eqb_spec part ".") as [-> | Hne]; cbn [negb fold_left];
    by rewrite IH.
Qed.

Lemma normalizePath_collapse (s : string) :
  normalizePath (collapseDotSlash s) = normalizePath s.
Proof.
  destruct (split_collapse (String.length s) s ltac:(lia)) as (x & t & t' & Hs & Hc & Hf).
  unfold normalizePath, normalizeParts. rewrite Hs, Hc. cbn [fold_left].
  by rewrite <- (normalize_withoutDots t'), Hf, normalize_withoutDots.
Qed.

(** X16. The removal of the [/./] sequences that the loader performs on a
    relative import before it normalizes the path changes nothing: the
    normalization gives the same path without it. *)
Theorem collapseDotSlash_redundant (s : string) :
  normalizePath (collapseDotSlash s) = normalizePath s.
Proof. apply normalizePath_collapse. Qed.

(** ** Relative imports *)

Lemma join_cons (x y : string) (l : list string) :
  Str.join "/" (x :: y :: l) = x ++ "/" ++ Str.join "/" (y :: l).
Proof. reflexivity. Qed.

Lemma join_app (l1 l2 : list string) :
  l1 <> [] -> l2 <> [] ->
  Str.join "/" (l1 ++ l2) = Str.join "/" l1 ++ "/" ++ Str.join "/" l2.
Proof.
  intros H1 H2. induction l1 as [| x l1 IH]; [done |].
  destruct l1 as [| y l1].
  - destruct l2 as [| z l2]; [done |]. reflexivity.
  - change ((x :: y :: l1) ++ l2)%list with (x :: y :: (l1 ++ l2))%list.
    rewrite !join_cons.
    change (y :: (l1 ++ l2))%list with ((y :: l1) ++ l2)%list.
    rewrite IH by done. by rewrite !append_assoc.
Qed.

Lemma plain_inv (part : string) :
  plain part = true -> hasChar "/" part = false /\ part <> ".." /\ part <> ".".
Proof.
  unfold plain. intros [[H1 H2]%andb_prop H3]%andb_prop.
  apply negb_true_iff in H1, H2, H3. by rewrite String.eqb_neq in H2, H3.
Qed.

Lemma plain_slash_free (parts : list string) :
  forallb plain parts = true -> Forall (fun part => hasChar "/" part = false) parts.
Proof.
  rewrite forallb_forall, Forall_forall. intros H part Hin.
  apply list_elem_of_In, H, plain_inv in Hin. by destruct Hin.
Qed.

Lemma plain_clean (parts : list string) :
  forallb plain parts = true -> Forall (fun part => part <> ".." /\ part <> ".") parts.
Proof.
  rewrite forallb_forall, Forall_forall. intros H part Hin.
  apply list_elem_of_In, H, plain_inv in Hin. by destruct Hin as (_ & H1 & H2).
Qed.

Lemma dirOf_join (ds : list string) (f : string) :
  forallb plain ds = true -> hasChar "/" f = false ->
  dirOf (Str.join "/" (ds ++ [f])) = Str.join "/" ds.
Proof.
  intros Hds Hf. unfold dirOf. rewrite split_join.
  - unfold Str.dropLast. by rewrite removelast_last.
  - by destruct ds.
  - apply Forall_app. split; [by apply plain_slash_free | by constructor].
Qed.

(** The normal form of a relative import, from the directory of the
    importing file and the segments of the specifier. *)
Lemma normalize_relative (ds : list string) (step : string) (xs : list string) :
  ds <> [] -> xs <> [] -> forallb plain ds = true -> forallb plain xs = true ->
  hasChar "/" step = false ->
  normalizePath (collapseDotSlash (Str.join "/" ds ++ "/" ++ step ++ "/" ++ Str.join "/" xs))
  = Str.join "/" (normalizeStep ds step ++ xs).
Proof.
  intros Hds Hxs Hpds Hpxs Hstep. rewrite normalizePath_collapse.
  assert (Hjoin : Str.join "/" ds ++ "/" ++ step ++ "/" ++ Str.join "/" xs
                  = Str.join "/" (ds ++ step :: xs)).
  { rewrite join_app by done. destruct xs as [| x xs]; [done |]. by rewrite join_cons. }
  rewrite Hjoin. unfold normalizePath. rewrite split_join.
  - unfold normalizeParts. rewrite fold_left_app. cbn [fold_left].
    rewrite (normalize_clean_parts ds []) by (by apply plain_clean).
    cbn [app]. by rewrite normalize_clean_parts by (by apply plain_clean).
  - by destruct ds.
  - apply Forall_app. split; [by apply plain_slash_free |].
    constructor; [done | by apply plain_slash_free].
Qed.

(** X17. A relative import of a file that lies in a directory resolves
    against that directory: [./xs] names [xs] in the directory of the
    importing file, and [../xs] names [xs] in the parent of that
    directory, whatever the alias table. *)
Theorem resolveImport_relative (tsconfigPaths : list (string * list string))
        (tsconfigBaseUrl : string) (ds : list string) (f : string) (xs : list string) :
  ds <> [] -> xs <> [] -> forallb plain ds = true -> forallb plain xs = true -> hasChar "/" f = false ->
  resolveImport tsconfigPaths tsconfigBaseUrl (Str.join "/" (ds ++ [f]))
                ("./" ++ Str.join "/" xs)
  = Some (Str.join "/" (ds ++ xs))
  /\ resolveImport tsconfigPaths tsconfigBaseUrl (Str.join "/" (ds ++ [f]))
                   ("../" ++ Str.join "/" xs)
     = Some (Str.join "/" (Str.dropLast ds ++ xs)).
Proof.
  intros Hds Hxs Hpds Hpxs Hf. unfold resolveImport.
  rewrite dirOf_join by done.
  change (isExternal ("./" ++ Str.join "/" xs)) with false.
  change (isExternal ("../" ++ Str.join "/" xs)) with false.
  change (Str.startsWith ("./" ++ Str.join "/" xs) ".") with true.
  change (Str.startsWith ("../" ++ Str.join "/" xs) ".") with true.
  cbn match.
  change ("./" ++ Str.join "/" xs) with ("." ++ "/" ++ Str.join "/" xs).
  change ("../" ++ Str.join "/" xs) with (".." ++ "/" ++ Str.join "/" xs).
  by rewrite !normalize_relative.
Qed.

(** X18. A file at the root of the project has the empty text for
    directory, so its import of [./xs] resolves to [/xs], with a leading
    separator, which is not the path [xs] of its sibling; its import of
    [../xs] resolves to [xs]. *)
Theorem resolveImport_from_root (tsconfigPaths : list (string * list string))
        (tsconfigBaseUrl : string) (f : string) (xs : list string) :
  xs <> [] -> forallb plain xs = true -> hasChar "/" f = false ->
  resolveImport tsconfigPaths tsconfigBaseUrl f ("./" ++ Str.join "/" xs)
  = Some ("/" ++ Str.join "/" xs)
  /\ resolveImport tsconfigPaths tsconfigBaseUrl f ("../" ++ Str.join "/" xs)
     = Some (Str.join "/" xs).
Proof.
  intros Hxs Hpxs Hf. unfold resolveImport.
  assert (Hdir : dirOf f = "").
  { unfold dirOf. by rewrite split_clean. }
  rewrite Hdir.
  change (isExternal ("./" ++ Str.join "/" xs)) with false.
  change (isExternal ("../" ++ Str.join "/" xs)) with false.
  change (Str.startsWith ("./" ++ Str.join "/" xs) ".") with true.
  change (Str.startsWith ("../" ++ Str.join "/" xs) ".") with true.
  cbn match. rewrite !normalizePath_collapse.
  assert (Hsplit : forall step,
             hasChar "/" step = false ->
             Str.split "/" ("" ++ "/" ++ step ++ "/" ++ Str.join "/" xs)
             = "" :: step :: xs).
  { intros step Hstep.
    change ("" ++ "/" ++ step ++ "/" ++ Str.join "/" xs)
      with (String "/" (step ++ String "/" (Str.join "/" xs))).
    rewrite split_cons. cbn [Ascii.eqb Bool.eqb]. rewrite split_append by done.
    by rewrite split_join by (done || by apply plain_slash_free). }
  unfold normalizePath, normalizeParts.
  change ("" ++ "/" ++ "./" ++ Str.join "/" xs)
    with ("" ++ "/" ++ "." ++ "/" ++ Str.join "/" xs).
  change ("" ++ "/" ++ "../" ++ Str.join "/" xs)
    with ("" ++ "/" ++ ".." ++ "/" ++ Str.join "/" xs).
  rewrite !Hsplit by done. cbn [fold_left].
  change (normalizeStep (normalizeStep [] "") ".") with [""].
  change (normalizeStep (normalizeStep [] "") "..") with (@nil string).
  rewrite !normalize_clean_parts by (by apply plain_clean).
  split; [| done]. destruct xs as [| x xs]; [done |]. reflexivity.
Qed.

(** ** Language detection *)

Lemma split_last (sep : ascii) (a b : string) :
  hasChar sep b = false ->
  exists l, Str.split sep (a ++ String sep b) = (l ++ [b])%list /\ l <> [].
Proof.
  intros Hb. induction a as [| c a (l & IH & Hl)].
  - exists [""]. rewrite append_empty_l. cbn [Str.split].
    rewrite Ascii.eqb_refl. by rewrite split_clean.
  - rewrite append_cons. cbn [Str.split]. rewrite IH.
    destruct (Ascii.eqb c sep); [by exists ("" :: l) |].
    destruct l as [| x l]; [done |]. by exists (String c x :: l).
Qed.

Lemma toLowerCaseUnit_idem (c : ascii) :
  toLowerCaseUnit (toLowerCaseUnit c) = toLowerCaseUnit c.
Proof. destruct c as [[] [] [] [] [] [] [] []]; reflexivity. Qed.

Lemma toLowerCase_idem (s : string) : toLowerCase (toLowerCase s) = toLowerCase s.
Proof.
  induction s as [| c s IH]; [done |].
  cbn [toLowerCase]. by rewrite toLowerCaseUnit_idem, IH.
Qed.

Lemma toLowerCaseUnit_dot (c : ascii) :
  Ascii.eqb (toLowerCaseUnit c) "." = Ascii.eqb c ".".
Proof. destruct c as [[] [] [] [] [] [] [] []]; reflexivity. Qed.

Lemma toLowerCase_dot_free (s : string) :
  hasChar "." (toLowerCase s) = hasChar "." s.
Proof.
  induction s as [| c s IH]; [done |].
  cbn [toLowerCase hasChar]. by rewrite toLowerCaseUnit_dot, IH.
Qed.

Lemma extensionOf_append (stem ext : string) :
  hasChar "." ext = false -> extensionOf (stem ++ "." ++ ext) = toLowerCase ext.
Proof.
  intros Hext. unfold extensionOf.
  change ("." ++ ext) with (String "." ext).
  destruct (split_last "." stem ext Hext) as (l & -> & _). by rewrite last_last.
Qed.

Lemma extensionOf_bare (ext : string) :
  hasChar "." ext = false -> extensionOf ext = toLowerCase ext.
Proof. intros Hext. unfold extensionOf. by rewrite split_clean. Qed.

(** X19. The language of a file is decided by the text after the last dot
    of its name, whatever the case of its letters; a name without a dot
    counts as an extension as a whole, so a file named [ts] is a
    TypeScript file. *)
Theorem detectLanguage_last_extension (stem ext : string) :
  hasChar "." ext = false ->
  detectLanguage (stem ++ "." ++ ext) = detectLanguage ext
  /\ detectLanguage (toLowerCase ext) = detectLanguage ext.
Proof.
  intros Hext. unfold detectLanguage.
  rewrite extensionOf_append, !extensionOf_bare by (done || by rewrite toLowerCase_dot_free).
  by rewrite toLowerCase_idem.
Qed.

Lemma isScriptLanguage_extension (ext : string) :
  isScriptLanguage
    (match ownProperty languageMap ext with
     | Some language => LanguageId language
     | None =>
         if existsb (String.eqb ext) objectPrototypeKeys then PrototypeMember ext
         else LanguageId "plaintext"
     end)
  = existsb (String.eqb ext) scriptExtensions.
Proof.
  unfold languageMap. cbn [ownProperty].
  repeat match goal with
         | |- context [String.eqb ?k ext] =>
             lazymatch k with
             | ext => fail
             | _ => destruct (String.eqb_spec k ext) as [<- | ?]; [reflexivity |]
             end
         end.
  unfold scriptExtensions. cbn [existsb].
  repeat match goal with
         | |- context [String.eqb ext ?k] =>
             destruct (String.eqb_spec ext k) as [-> | ?]; [done |]
         end.
  by destruct (existsb (String.eqb ext) objectPrototypeKeys).
Qed.

(** X20. Setting the content of the editor starts a load of the file
    exactly when the editor exists and the text after the last dot of the
    file name is, in lower case, one of [ts], [tsx], [js], [jsx], [mjs]
    and [cjs]; the load is started for the file name as given, and
    without an editor the current file name is left as it was. *)
Theorem setContent_starts_load (editorReady : bool)
        (content filename currentFilename : string) :
  snd (setContent editorReady content filename currentFilename)
  = (if editorReady && existsb (String.eqb (extensionOf filename)) scriptExtensions
     then Some filename else None)
  /\ fst (setContent editorReady content filename currentFilename)
     = (if editorReady then filename else currentFilename).
Proof.
  unfold setContent. destruct editorReady; [| done]. cbn [fst snd andb].
  unfold detectLanguage. by rewrite isScriptLanguage_extension.
Qed.

(** ** The comment stripper *)

Lemma commentLength_other (c : ascii) (s : string) :
  Ascii.eqb c "/" = false -> commentLength (String c s) = None.
Proof.
  intros H. destruct c as [[] [] [] [] [] [] [] []];
    try (vm_compute in H; discriminate H); reflexivity.
Qed.

Lemma commentLength_slash_other (d : ascii) (s : string) :
  Ascii.eqb d "/" = false -> Ascii.eqb d "*" = false ->
  commentLength (String "/" (String d s)) = None.
Proof.
  intros H1 H2. destruct d as [[] [] [] [] [] [] [] []];
    try (vm_compute in H1; discriminate H1);
    try (vm_compute in H2; discriminate H2); reflexivity.
Qed.

Lemma stripFrom_step (c : ascii) (s : string) :
  stripFrom 0 (String c s) =
  match commentLength (String c s) with
  | Some n => stripFrom (n - 1) s
  | None => String c (stripFrom 0 s)
  end.
Proof. reflexivity. Qed.

Lemma stripFrom_plain (a r : string) :
  hasChar "/" a = false -> stripFrom 0 (a ++ r) = a ++ stripFrom 0 r.
Proof.
  induction a as [| c a IH]; [done |]. cbn [hasChar].
  intros [Hc Ha]%orb_false_elim.
  rewrite !append_cons, stripFrom_step, commentLength_other by done.
  by rewrite IH.
Qed.

Lemma stripFrom_skip (u k : string) :
  stripFrom (String.length u) (u ++ k) = stripFrom 0 k.
Proof. induction u as [| c u IH]; [by destruct k |]. rewrite append_cons. exact IH. Qed.

Lemma occurs_tail (pat : string) (c : ascii) (s : string) :
  occurs pat (String c s) = false -> occurs pat s = false.
Proof. cbn [occurs]. by intros [_ H]%orb_false_elim. Qed.

Lemma cut_close (b c : string) :
  occurs "*/" b = false -> Str.cut "*/" (b ++ "*/" ++ c) = Some (b, c).
Proof.
  intros Hb.
  apply (cut_first (fun s => occurs "*/" s = false)); [apply occurs_tail | | done].
  intros ch s Hs. rewrite append_cons. cbn [String.prefix].
  destruct (ascii_dec "*" ch) as [<- | Hne]; [| done].
  destruct s as [| c2 s]; [done |].
  rewrite append_cons. cbn [String.prefix].
  destruct (ascii_dec "/" c2) as [<- | Hne2]; [| done].
  assert (Hocc : occurs "*/" (String "*" (String "/" s)) = true).
  { cbn [occurs String.prefix].
    destruct (ascii_dec "*" "*"); [| done]. destruct (ascii_dec "/" "/"); [| done].
    by destruct s. }
  congruence.
Qed.

Lemma lineLength_line (b : string) (nl : ascii) (c : string) :
  allChars isDot b = true -> isDot nl = false ->
  lineLength (b ++ String nl c) = String.length b.
Proof.
  intros Hb Hnl. induction b as [| x b IH].
  - rewrite append_empty_l. cbn [lineLength]. by rewrite Hnl.
  - cbn [allChars] in Hb. apply andb_prop in Hb as [Hx Hb].
    rewrite append_cons. cbn [lineLength String.length]. by rewrite Hx, IH.
Qed.

Lemma lineLength_end (b : string) :
  allChars isDot b = true -> lineLength b = String.length b.
Proof.
  induction b as [| x b IH]; [done |]. cbn [allChars].
  intros [Hx Hb]%andb_prop. cbn [lineLength String.length]. by rewrite Hx, IH.
Qed.

Lemma terminator_not_slash (nl : ascii) : isDot nl = false -> Ascii.eqb nl "/" = false.
Proof.
  intros H. destruct nl as [[] [] [] [] [] [] [] []];
    try (vm_compute in H; discriminate H); reflexivity.
Qed.

(** X21. A text in which no slash is followed by a slash or by a star goes
    through the comment stripper unchanged. *)
Theorem stripComments_comment_free (s : string) :
  commentFree s = true -> stripComments s = s.
Proof.
  unfold stripComments. induction s as [| c s IH]; [done |].
  cbn [commentFree]. intros [Hc Hs]%andb_prop. apply negb_true_iff in Hc.
  rewrite stripFrom_step.
  assert (Hnone : commentLength (String c s) = None).
  { destruct (Ascii.eqb_spec c "/") as [-> | Hne].
    - destruct s as [| d s]; [done |]. cbn [andb] in Hc.
      apply orb_false_elim in Hc as [H1 H2]. by apply commentLength_slash_other.
    - apply commentLength_other. by apply Ascii.eqb_neq. }
  by rewrite Hnone, IH.
Qed.

(** X22. The comment stripper does not know about string literals: after a
    text without a slash, whatever stands between a slash followed by a
    star and the next star followed by a slash is removed together with
    these markers, also inside a JSON string, as in a configuration that
    has the alias [@/*] in its paths and the glob [src/**/*] after it. *)
Theorem stripComments_block (a b c : string) :
  hasChar "/" a = false -> occurs "*/" b = false ->
  stripComments (a ++ "/*" ++ b ++ "*/" ++ c) = a ++ stripComments c.
Proof.
  intros Ha Hb. unfold stripComments. rewrite stripFrom_plain by done. f_equal.
  change ("/*" ++ b ++ "*/" ++ c) with (String "/" (String "*" (b ++ "*/" ++ c))).
  rewrite stripFrom_step. unfold commentLength, blockCommentLength.
  rewrite cut_close by done.
  replace (String.length b + 4 - 1)%nat with (String.length ("*" ++ b ++ "*/")).
  - change (String "*" (b ++ "*/" ++ c)) with ("*" ++ b ++ "*/" ++ c).
    rewrite <- (append_assoc b "*/" c), <- (append_assoc "*" (b ++ "*/") c).
    apply stripFrom_skip.
  - change ("*" ++ b ++ "*/") with (String "*" (b ++ "*/")).
    cbn [String.length]. rewrite length_append. cbn [String.length]. lia.
Qed.

(** X23. In the same way, after a text without a slash, two slashes remove
    the rest of the line, also inside a JSON string such as the address
    of a schema: the text up to the next line terminator, or up to the
    end when there is none, is dropped. *)
Theorem stripComments_line (a b : string) (nl : ascii) (c : string) :
  hasChar "/" a = false -> allChars isDot b = true -> isDot nl = false ->
  stripComments (a ++ "//" ++ b ++ String nl c) = a ++ String nl (stripComments c)
  /\ stripComments (a ++ "//" ++ b) = a.
Proof.
  intros Ha Hb Hnl. unfold stripComments.
  rewrite (stripFrom_plain a ("//" ++ b ++ String nl c)) by done.
  rewrite (stripFrom_plain a ("//" ++ b)) by done.
  assert (Hskip : forall k, stripFrom (String.length b + 2 - 1) (String "/" (b ++ k))
                            = stripFrom 0 k).
  { intros k. replace (String.length b + 2 - 1)%nat with (String.length ("/" ++ b)).
    - change (String "/" (b ++ k)) with ("/" ++ b ++ k).
      rewrite <- (append_assoc "/" b k). apply stripFrom_skip.
    - change ("/" ++ b) with (String "/" b). cbn [String.length]. lia. }
  split.
  - f_equal.
    change ("//" ++ b ++ String nl c) with (String "/" (String "/" (b ++ String nl c))).
    rewrite stripFrom_step.
    change (commentLength (String "/" (String "/" (b ++ String nl c))))
      with (Some (lineLength (b ++ String nl c) + 2)%nat).
    rewrite lineLength_line, Hskip by done.
    by rewrite stripFrom_step, commentLength_other by (by apply terminator_not_slash).
  - rewrite <- (append_empty_r a) at 2. f_equal.
    change ("//" ++ b) with (String "/" (String "/" b)).
    rewrite stripFrom_step.
    change (commentLength (String "/" (String "/" b))) with (Some (lineLength b + 2)%nat).
    rewrite lineLength_end by done.
    rewrite <- (append_empty_r b) at 2. by rewrite Hskip.
Qed.

(** ** The configuration *)

Section Configuration.

Variable gitton : option FileSystem.
Variable parseConfig : string -> option RawOptions.
Variable manifestTypes : string -> option (option string).

Lemma loadTsConfig_baseUrl (s : Session) :
  session_baseUrl s <> "" -> session_baseUrl (loadTsConfig gitton parseConfig s) <> "".
Proof.
  intros Hs. unfold loadTsConfig. destruct gitton as [fs |]; [| done].
  destruct (fs_readFile fs "tsconfig.json") as [content |]; [| done].
  destruct (parseConfig (stripComments content)) as [opts |]; [| done].
  cbn [withOptions session_baseUrl].
  destruct (raw_baseUrl opts) as [b |]; [| done].
  destruct (String.eqb_spec b "") as [-> | Hne]; done.
Qed.

Lemma initTypeSystem_config (s : Session) :
  session_paths (sessionOf (initTypeSystem gitton parseConfig manifestTypes s))
  = session_paths (loadTsConfig gitton parseConfig s)
  /\ session_baseUrl (sessionOf (initTypeSystem gitton parseConfig manifestTypes s))
     = session_baseUrl (loadTsConfig gitton parseConfig s).
Proof.
  unfold initTypeSystem.
  by destruct (loadAllNodeModulesTypes gitton manifestTypes
                 (session_types (loadTsConfig gitton parseConfig s))).
Qed.

(** X24. The base directory of a session is never the empty text: it
    starts as [.], and the configuration loader puts [.] in the place of
    an absent or empty [baseUrl].  So the branch of the alias resolver
    for an empty base is never taken after an initialization, and every
    alias target is resolved below the base directory. *)
Theorem session_baseUrl_never_empty (s : Session) :
  session_baseUrl s <> "" ->
  session_baseUrl (sessionOf (initTypeSystem gitton parseConfig manifestTypes s)) <> ""
  /\ forall captured target,
      aliasTargetPath
        (session_baseUrl (sessionOf (initTypeSystem gitton parseConfig manifestTypes s)))
        captured target
      = stripDotSlash
          (session_baseUrl (sessionOf (initTypeSystem gitton parseConfig manifestTypes s))
           ++ "/" ++ Str.replaceFirst "*" captured target).
Proof.
  intros Hs. destruct (initTypeSystem_config s) as [_ ->].
  pose proof (loadTsConfig_baseUrl s Hs) as Hne.
  split; [exact Hne |]. intros captured target. unfold aliasTargetPath.
  apply String.eqb_neq in Hne. by rewrite Hne.
Qed.

End Configuration.

(** X25. When the configuration cannot be read, or what is left of it
    after the removal of the comments cannot be parsed, the loader does
    not fail: both engines get the default options, and the alias table
    and the base directory stay as they were.  In a session that starts
    that way the alias table is empty, and no import other than a
    relative one is followed. *)
Theorem loadTsConfig_fallback (fs : FileSystem)
        (parseConfig : string -> option RawOptions) (s : Session) :
  match fs_readFile fs "tsconfig.json" with
  | Some content => parseConfig (stripComments content) = None
  | None => True
  end ->
  loadTsConfig (Some fs) parseConfig s = withOptions defaultOptions s
  /\ (session_paths s = [] ->
      forall fullPath importPath,
        Str.startsWith importPath "." = false ->
        resolveImport (session_paths (loadTsConfig (Some fs) parseConfig s))
                      (session_baseUrl (loadTsConfig (Some fs) parseConfig s))
                      fullPath importPath
        = None).
Proof.
  intros Hfail.
  assert (Heq : loadTsConfig (Some fs) parseConfig s = withOptions defaultOptions s).
  { unfold loadTsConfig.
    destruct (fs_readFile fs "tsconfig.json") as [content |]; [| done].
    by rewrite Hfail. }
  split; [exact Heq |]. rewrite Heq. cbn [withOptions session_paths session_baseUrl].
  intros -> fullPath importPath Hrel. unfold resolveImport.
  rewrite Hrel. by destruct (isExternal importPath).
Qed.

(** ** What an initialization brings in *)

Section Initialized.

Variable fs : FileSystem.
Variable parseConfig : string -> option RawOptions.
Variable manifestTypes : string -> option (option string).

Lemma grows_loaded (st st' : State) (p : string) :
  extends st st' -> p ∈ loadedFiles st -> p ∈ loadedFiles st'.
Proof. intros (calls & _ & _ & Hsub)%extends_grows Hp. by apply Hsub. Qed.

Lemma loadSourceFile_exact tsconfigPaths tsconfigBaseUrl p d st c :
  (d <= depthBound)%nat ->
  fs_exists fs p = Some true -> fs_readFile fs p = Some c ->
  p ∈ loadedFiles (loadSourceFile (Some fs) tsconfigPaths tsconfigBaseUrl p d st).
Proof.
  intros Hd He Hr.
  destruct (decide (p ∈ loadedFiles st)) as [Hin | Hout].
  - by rewrite loadSourceFile_known.
  - pose proof (loadSourceFile_probe (Some fs) tsconfigPaths tsconfigBaseUrl
                                     fs p d st eq_refl Hd Hout) as H.
    rewrite (probe_exact fs p c He Hr) in H. symmetry in H.
    eapply (loadImports_preserved tsconfigPaths tsconfigBaseUrl
              (fun s => p ∈ loadedFiles s)); [| | exact H].
    + intros q k s s' Hs [= <-].
      eapply grows_loaded; [apply loadSourceFile_extends | done].
    + rewrite addFileToMonaco_loaded. apply elem_of_union_l. by apply elem_of_singleton.
Qed.

Lemma loadEntryPoints_exact tsconfigPaths tsconfigBaseUrl entries entry st c :
  entry ∈ entries ->
  fs_exists fs entry = Some true -> fs_readFile fs entry = Some c ->
  entry ∈ loadedFiles (loadEntryPoints (Some fs) tsconfigPaths tsconfigBaseUrl entries st).
Proof.
  intros Hin He Hr. revert st.
  induction entries as [| e entries IH]; intros st; [by apply elem_of_nil in Hin |].
  unfold loadEntryPoints. cbn [fold_left].
  apply elem_of_cons in Hin as [<- | Hin].
  - eapply grows_loaded; [apply (loadEntryPoints_extends (Some fs)) |].
    eapply loadSourceFile_exact; [unfold depthBound; lia | done | done].
  - by apply IH.
Qed.

Lemma loadProjectSources_sources tsconfigPaths tsconfigBaseUrl st :
  (forall entry c,
      entry ∈ entryPoints ->
      fs_exists fs entry = Some true -> fs_readFile fs entry = Some c ->
      entry ∈ loadedFiles (loadProjectSources (Some fs) tsconfigPaths tsconfigBaseUrl st))
  /\ (forall p c,
         visits fs 5 "src" 0 p c -> small c = true ->
         p ∈ loadedFiles (loadProjectSources (Some fs) tsconfigPaths tsconfigBaseUrl st)).
Proof.
  unfold loadProjectSources. split.
  - intros entry c Hin He Hr.
    eapply grows_loaded; [apply loadDtsFromDir_extends |].
    by eapply loadEntryPoints_exact.
  - intros p c Hv Hsmall. apply (loadDtsFromDir_adds fs 5 "src" 0). right. by exists c.
Qed.

Lemma session_types_withTypes (st : State) (s : Session) :
  session_types (withTypes st s) = st.
Proof. reflexivity. Qed.

(** X26. After an initialization that is not rejected the corpus holds
    every entry point that exists and can be read, and every declaration
    file that the crawl of [src] reads and that is below the size
    threshold. *)
Theorem initTypeSystem_loads_sources (s s' : Session) :
  initTypeSystem (Some fs) parseConfig manifestTypes s = Initialized s' ->
  (forall entry c,
      entry ∈ entryPoints ->
      fs_exists fs entry = Some true -> fs_readFile fs entry = Some c ->
      entry ∈ loadedFiles (session_types s'))
  /\ (forall p c,
         visits fs 5 "src" 0 p c -> small c = true ->
         p ∈ loadedFiles (session_types s')).
Proof.
  unfold initTypeSystem.
  set (s1 := loadTsConfig (Some fs) parseConfig s).
  destruct (loadAllNodeModulesTypes (Some fs) manifestTypes (session_types s1))
    as [st1 | st1]; [| done].
  pose proof (loadProjectSources_sources (session_paths s1) (session_baseUrl s1) st1) as H.
  set (st2 := loadProjectSources (Some fs) (session_paths s1) (session_baseUrl s1) st1) in *.
  clearbody st2 s1. intros [= <-]. exact H.
Qed.

(** X27. The types entry of a manifest is registered as it is: when a
    package has no directory under [node_modules/@types] and its manifest
    names a file that exists and can be read, that file is in the corpus
    afterwards, whatever its name and its size. *)
Theorem loadPackageTypes_manifest_entry (packageName pkgJson typesFile content : string)
        (st : State) :
  fs_exists fs ("node_modules/@types/" ++ packageName) = Some false ->
  fs_exists fs ("node_modules/" ++ packageName) = Some true ->
  fs_readFile fs ("node_modules/" ++ packageName ++ "/package.json") = Some pkgJson ->
  manifestTypes pkgJson = Some (Some typesFile) ->
  fs_exists fs ("node_modules/" ++ packageName ++ "/" ++ typesFile) = Some true ->
  fs_readFile fs ("node_modules/" ++ packageName ++ "/" ++ typesFile) = Some content ->
  exists st',
    loadPackageTypes (Some fs) manifestTypes packageName st = Returned st'
    /\ ("node_modules/" ++ packageName ++ "/" ++ typesFile) ∈ loadedFiles st'.
Proof.
  intros Htypes Hpkg Hjson Hentry He Hr. unfold loadPackageTypes.
  rewrite Htypes, Hpkg. eexists. split; [reflexivity |].
  eapply grows_loaded; [apply loadDtsFromDir_extends |].
  unfold loadManifestTypes. cbv zeta. rewrite !append_assoc.
  rewrite Hjson, Hentry, !append_assoc, He, Hr, addFileToMonaco_loaded.
  apply elem_of_union_l. by apply elem_of_singleton.
Qed.

End Initialized.

(** ** Runs of the further properties *)

Example project_init_run :
  registeredUris
    (session_types
       (sessionOf (initTypeSystem (Some projectFs) projectConfig projectManifest initSession)))
  = ["file:///node_modules/@types/react/index.d.ts";
     "file:///node_modules/sonner/dist/index.d.ts";
     "file:///src/index.ts"; "file:///src/lib/helper.ts"; "file:///src/utils.ts";
     "file:///src/env.d.ts"].
Proof. vm_compute. reflexivity. Qed.

Example project_init_rejected_run :
  registeredUris
    (session_types
       (sessionOf (initTypeSystem (Some rejectingFs) projectConfig projectManifest initSession)))
  = ["file:///node_modules/@types/react/index.d.ts"].
Proof. vm_compute. reflexivity. Qed.

Lemma loaded_of_uri (st0 st : State) (p : string) :
  consistent st0 -> extends st0 st -> In (fileUri p) (registeredUris st) ->
  p ∈ loadedFiles st.
Proof.
  intros H0 Hext Hin. apply (cons_mem st (extends_consistent st0 st Hext H0)).
  by apply list_elem_of_In.
Qed.

Lemma faithful_init (fs : FileSystem) : faithful fs initState.
Proof. intros c u [H | H]; by apply elem_of_nil in H. Qed.

Lemma operations_keep_consistent_witness :
  consistent
    (session_types
       (sessionOf (initTypeSystem (Some projectFs) projectConfig projectManifest initSession))).
Proof.
  destruct (operations_keep_consistent (Some projectFs) projectConfig projectManifest
              initState consistent_init) as (_ & _ & _ & _ & _ & H).
  exact (H initSession eq_refl).
Defined.

Lemma operations_keep_faithful_witness :
  faithful projectFs
    (session_types
       (sessionOf (initTypeSystem (Some projectFs) projectConfig projectManifest initSession))).
Proof.
  destruct (operations_keep_faithful projectFs projectConfig projectManifest
              initState (faithful_init projectFs)) as (_ & _ & _ & _ & _ & H).
  exact (H initSession eq_refl).
Defined.

Lemma loadSourceFile_first_candidate_witness :
  exists calls,
    tsExtraLibs (loadSourceFile (Some flakyFs) [] "." "src/util" 0 initState)
    = (tsExtraLibs initState
       ++ ("export const u = 1", fileUri ("src/util" ++ ".tsx")) :: calls)%list.
Proof.
  apply (loadSourceFile_first_candidate flakyFs [] "." "src/util" 0 initState
           [""; ".ts"] [".js"; ".jsx"; "/index.ts"; "/index.tsx"; "/index.js"; "/index.jsx"]
           ".tsx" "export const u = 1").
  - unfold depthBound. lia.
  - apply not_elem_of_empty.
  - apply not_elem_of_empty.
  - reflexivity.
  - repeat constructor.
  - vm_compute. reflexivity.
  - vm_compute. reflexivity.
Defined.

Lemma loadSourceFile_unresolvable_witness :
  loadSourceFile (Some cycleFs) [] "." "src/missing" 0 initState = initState.
Proof.
  apply (loadSourceFile_unresolvable cycleFs [] "." "src/missing" 0 initState).
  repeat constructor.
Defined.

Lemma typesFs_deep_loaded :
  "node_modules/@types/x/lib/deep.d.ts"
  ∈ loadedFiles (loadDtsFromDir (Some typesFs) "node_modules/@types/x" 3 0 initState).
Proof.
  apply (loaded_of_uri initState); [apply consistent_init | apply loadDtsFromDir_extends |].
  vm_compute. auto.
Qed.

Lemma loadDtsFromDir_frame_witness :
  reached 3 0 "node_modules/@types/x" "node_modules/@types/x/lib/deep.d.ts"
  /\ Str.endsWith "node_modules/@types/x/lib/deep.d.ts" ".d.ts" = true.
Proof.
  destruct (loadDtsFromDir_frame typesFs 3 "node_modules/@types/x"
              "node_modules/@types/x/lib/deep.d.ts" 0 initState) as (H1 & _ & H2 & _).
  - discriminate.
  - exact typesFs_deep_loaded.
  - apply not_elem_of_empty.
  - split; assumption.
Defined.

Lemma loadDtsFromDir_returns_witness :
  loadDtsFromDirFuel (Some typesFs) 10 "node_modules/@types/x" 3 0 initState
  = Some (loadDtsFromDir (Some typesFs) "node_modules/@types/x" 3 0 initState).
Proof.
  apply (loadDtsFromDir_returns (Some typesFs) 10 "node_modules/@types/x" 3 0 initState).
  lia.
Defined.

Lemma projectFs_sonner_loaded :
  "node_modules/sonner/dist/index.d.ts"
  ∈ loadedFiles (stateOf (loadPackageTypes (Some projectFs) projectManifest "sonner" initState)).
Proof.
  apply (loaded_of_uri initState); [apply consistent_init | apply loadPackageTypes_extends |].
  vm_compute. auto.
Qed.

Lemma loadPackageTypes_frame_witness :
  Str.startsWith "node_modules/sonner/dist/index.d.ts" ("node_modules/" ++ "sonner" ++ "/")
  = true.
Proof.
  destruct (loadPackageTypes_frame projectFs projectManifest "sonner"
              "node_modules/sonner/dist/index.d.ts" initState) as [H | H].
  - exact projectFs_sonner_loaded.
  - apply not_elem_of_empty.
  - discriminate H.
  - exact H.
Defined.

Example initTypeSystem_rejected_run :
  existsb (existenceTestRejects rejectingFs) priorityPackages = true
  /\ existsb (existenceTestRejects projectFs) priorityPackages = false.
Proof. split; vm_compute; reflexivity. Qed.

Lemma rejectingFs_react_loaded :
  "node_modules/@types/react/index.d.ts"
  ∈ loadedFiles
      (session_types
         (sessionOf (initTypeSystem (Some rejectingFs) projectConfig projectManifest
                                    initSession))).
Proof.
  apply (loaded_of_uri initState); [apply consistent_init | apply initTypeSystem_extends |].
  vm_compute. auto.
Qed.

Lemma initTypeSystem_rejected_frame_witness :
  exists packageName,
    packageName ∈ priorityPackages
    /\ (Str.startsWith "node_modules/@types/react/index.d.ts"
                       ("node_modules/@types/" ++ packageName ++ "/") = true
        \/ Str.startsWith "node_modules/@types/react/index.d.ts"
                          ("node_modules/" ++ packageName ++ "/") = true).
Proof.
  apply (initTypeSystem_rejected_frame rejectingFs projectConfig projectManifest initSession
           (sessionOf (initTypeSystem (Some rejectingFs) projectConfig projectManifest
                                      initSession))).
  - vm_compute. reflexivity.
  - exact rejectingFs_react_loaded.
  - apply not_elem_of_empty.
Defined.

Lemma extractSpecifiers_sound_witness :
  "./a" <> "" /\ allChars notQuote "./a" = true.
Proof.
  destruct (extractSpecifiers_sound "import { a } from './a'" "./a") as (H1 & H2 & _).
  - apply list_elem_of_In. vm_compute. auto.
  - split; assumption.
Defined.

Lemma aliasCapture_wildcard_witness :
  aliasCapture ("@/" ++ "*" ++ "") "@/lib/utils" = Some "lib/utils".
Proof.
  destruct (aliasCapture_wildcard "@/" "" "@/lib/utils" "lib/utils") as [[_ H] _].
  - reflexivity.
  - apply H. split; reflexivity.
Defined.

Lemma aliasCapture_literal_witness :
  aliasCapture "config" "config" = Some "" /\ aliasCapture "config" "config.dev" = None.
Proof.
  split.
  - apply (aliasCapture_literal "config" "config"). reflexivity.
  - apply (aliasCapture_literal "config" "config.dev"). reflexivity.
Defined.

Lemma resolvePathAlias_substitutes_witness :
  resolvePathAlias [("@/" ++ "*" ++ "", [("src/" ++ "*" ++ "")])] "."
                   ("@/" ++ "lib/utils" ++ "")
  = Some (stripDotSlash ("." ++ "/" ++ "src/" ++ "lib/utils" ++ "")).
Proof.
  apply (resolvePathAlias_substitutes "@/" "" "src/" "" "lib/utils" "." [] []);
    try reflexivity.
  discriminate.
Defined.

(** A dollar sign in the captured text is expanded by the substitution. *)
Example alias_dollar_run :
  resolvePathAlias [("@/*", ["src/*"])] "." "@/$&x" = Some "src/*x".
Proof. vm_compute. reflexivity. Qed.

Example normalize_idempotent_run :
  normalizePath "a/./b/../../../c//d" = "c//d" /\ normalizePath "c//d" = "c//d".
Proof. split; reflexivity. Qed.

Lemma resolveImport_relative_witness :
  resolveImport [] "." (Str.join "/" (["src"; "lib"] ++ ["a.ts"])) ("./" ++ Str.join "/" ["b"])
  = Some (Str.join "/" (["src"; "lib"] ++ ["b"])).
Proof.
  apply (resolveImport_relative [] "." ["src"; "lib"] "a.ts" ["b"]);
    first [discriminate | reflexivity].
Defined.

Lemma resolveImport_from_root_witness :
  resolveImport [] "." "main.ts" ("./" ++ Str.join "/" ["util"])
  = Some ("/" ++ Str.join "/" ["util"]).
Proof.
  apply (resolveImport_from_root [] "." "main.ts" ["util"]);
    first [discriminate | reflexivity].
Defined.

(** The import of a sibling by a file at the root is not followed. *)
Example root_import_run :
  registeredUris
    (loadSourceFile
       (Some (Host.make [("main.ts", "import { u } from './util'");
                         ("util.ts", "export const u = 1")] []))
       [] "." "main.ts" 0 initState)
  = ["file:///main.ts"].
Proof. vm_compute. reflexivity. Qed.

Lemma detectLanguage_last_extension_witness :
  detectLanguage ("src/App.test" ++ "." ++ "TSX") = detectLanguage "TSX"
  /\ detectLanguage (toLowerCase "TSX") = detectLanguage "TSX".
Proof. apply (detectLanguage_last_extension "src/App.test" "TSX"). reflexivity. Defined.

Example detectLanguage_run :
  detectLanguage "src/App.TSX" = LanguageId "typescript"
  /\ detectLanguage "Dockerfile" = LanguageId "dockerfile"
  /\ detectLanguage "notes.txt" = LanguageId "plaintext"
  /\ detectLanguage "a.constructor" = PrototypeMember "constructor".
Proof. repeat split; reflexivity. Qed.

Lemma stripComments_comment_free_witness :
  stripComments "{ 'baseUrl': 'src/app' }" = "{ 'baseUrl': 'src/app' }".
Proof. apply (stripComments_comment_free "{ 'baseUrl': 'src/app' }"). reflexivity. Defined.

Lemma stripComments_block_witness :
  stripComments ("{ 'paths': { '@" ++ "/*" ++ "': ['src/*'] }, 'include': ['src/*"
                 ++ "*/" ++ "*'] }")
  = "{ 'paths': { '@" ++ stripComments "*'] }".
Proof.
  apply (stripComments_block "{ 'paths': { '@" "': ['src/*'] }, 'include': ['src/*" "*'] }");
    reflexivity.
Defined.

Example stripComments_paths_run :
  stripComments "{ 'paths': { '@/*': ['src/*'] }, 'include': ['src/**/*'] }"
  = "{ 'paths': { '@*'] }".
Proof. reflexivity. Qed.

Lemma stripComments_line_witness :
  stripComments ("{ 'schema': 'https:" ++ "//" ++ "json.schemastore.org/tsconfig',"
                 ++ String lineFeed " 'files': [] }")
  = "{ 'schema': 'https:" ++ String lineFeed (stripComments " 'files': [] }").
Proof.
  apply (stripComments_line "{ 'schema': 'https:" "json.schemastore.org/tsconfig',"
           lineFeed " 'files': [] }"); reflexivity.
Defined.

Lemma session_baseUrl_never_empty_witness :
  session_baseUrl
    (sessionOf (initTypeSystem (Some projectFs) projectConfig projectManifest initSession))
  <> "".
Proof.
  apply (session_baseUrl_never_empty (Some projectFs) projectConfig projectManifest
           initSession).
  discriminate.
Defined.

Lemma loadTsConfig_fallback_witness :
  loadTsConfig (Some cycleFs) projectConfig initSession = withOptions defaultOptions initSession.
Proof.
  apply (loadTsConfig_fallback cycleFs projectConfig initSession). exact I.
Defined.

Lemma initTypeSystem_loads_sources_witness :
  "src/index.ts"
  ∈ loadedFiles
      (session_types
         (sessionOf (initTypeSystem (Some projectFs) projectConfig projectManifest
                                    initSession))).
Proof.
  destruct (initTypeSystem_loads_sources projectFs projectConfig projectManifest initSession
              (sessionOf (initTypeSystem (Some projectFs) projectConfig projectManifest
                                         initSession))) as [H _].
  - vm_compute. reflexivity.
  - apply (H "src/index.ts"
             "import { helper } from './lib/helper'; import { u } from '@/utils'").
    + left.
    + vm_compute. reflexivity.
    + vm_compute. reflexivity.
Defined.

Lemma loadPackageTypes_manifest_entry_witness :
  exists st',
    loadPackageTypes (Some projectFs) projectManifest "sonner" initState = Returned st'
    /\ ("node_modules/" ++ "sonner" ++ "/" ++ "dist/index.d.ts") ∈ loadedFiles st'.
Proof.
  apply (loadPackageTypes_manifest_entry projectFs projectManifest "sonner" "{ }"
           "dist/index.d.ts" "export declare const toast: unknown" initState);
    vm_compute; reflexivity.
Defined.

(** * Registration as the engines see it *)

(** ** Entries of the engine logs *)

Lemma readSince_refl (fs : FileSystem) (st : State) : readSince fs st st.
Proof. intros c u H. by left. Qed.

Lemma readSince_register (fs : FileSystem) (st0 : State) (p c : string) (st : State) :
  fs_readFile fs p = Some c -> readSince fs st0 st ->
  readSince fs st0 (addFileToMonaco p c st).
Proof.
  intros Hr Hst. unfold addFileToMonaco.
  destruct (decide (p ∈ loadedFiles st)); [done |].
  intros c' u. cbn [tsExtraLibs]. rewrite elem_of_app, list_elem_of_singleton.
  intros [Hin | [= -> ->]]; [by apply Hst | right; by exists p].
Qed.

Lemma uri_of_entry (st : State) (c u : string) :
  (c, u) ∈ tsExtraLibs st -> u ∈ registeredUris st.
Proof.
  intros H. unfold registeredUris. apply list_elem_of_fmap. by exists (c, u).
Qed.

(** A path that enters the corpus is passed to both engines once, with
    the content read from it. *)
Lemma fresh_entry (fs : FileSystem) (st st' : State) (p c : string) :
  consistent st -> consistent st' -> readSince fs st st' ->
  p ∉ loadedFiles st -> p ∈ loadedFiles st' -> fs_readFile fs p = Some c ->
  (c, fileUri p) ∈ tsExtraLibs st'
  /\ (c, fileUri p) ∈ jsExtraLibs st'
  /\ registrations p st' = 1%nat.
Proof.
  intros Hc Hc' Hsince Hout Hin Hr.
  assert (Hts : (c, fileUri p) ∈ tsExtraLibs st').
  { apply (cons_mem st' Hc') in Hin. unfold registeredUris in Hin.
    apply list_elem_of_fmap in Hin as ([c' u] & Hu & Hin). cbn [snd] in Hu. subst u.
    destruct (Hsince _ _ Hin) as [Hold | (q & Hq & Hrq)].
    - exfalso. apply Hout. apply (cons_mem st Hc). by eapply uri_of_entry.
    - apply fileUri_inj in Hq. subst q. rewrite Hr in Hrq. by injection Hrq as <-. }
  split; [exact Hts |]. split; [by rewrite (cons_js st' Hc') |].
  by apply registrations_loaded.
Qed.

(** A path outside the corpus was passed to neither engine. *)
Lemma absent_entry (st : State) (p : string) :
  consistent st -> p ∉ loadedFiles st ->
  registrations p st = 0%nat
  /\ forall c, ((c, fileUri p) ∉ tsExtraLibs st) /\ ((c, fileUri p) ∉ jsExtraLibs st).
Proof.
  intros Hc Hout.
  assert (Huri : fileUri p ∉ registeredUris st).
  { intros H. by apply Hout, (cons_mem st Hc). }
  split.
  - rewrite registrations_uris. by apply count_none.
  - intros c. rewrite (cons_js st Hc).
    split; intros H; by apply Huri, (uri_of_entry st c).
Qed.

(** ** Imports that the text of a file holds *)




(** ** Cycles between the files of a directory *)

Section DirectoryCycle.

Variable fs : FileSystem.
Variable tsconfigPaths : list (string * list string).
Variable tsconfigBaseUrl : string.





End DirectoryCycle.

(** ** The size filter and read failures *)

Section EngineLogs.

Variable fs : FileSystem.

(** C8. A declaration file that the crawler reads, and that is not in the
    corpus yet, is registered by the crawl exactly when the length of
    its content is below [500 * 1024]: then both engines receive one call
    for its uri, with its content, and it is in the set of loaded files;
    at the threshold or above it neither engine receives a call for its
    uri; at one below the threshold both do. *)
Theorem loadDtsFromDir_size_filter (maxDepth : nat) (dir p c : string) (cur : nat)
        (st : State) :
  visits fs maxDepth dir cur p c -> consistent st -> p ∉ loadedFiles st ->
  (registrations p (loadDtsFromDir (Some fs) dir maxDepth cur st) = 1%nat
   <-> (Z.of_nat (String.length c) < 500 * 1024)%Z)
  /\ ((c, fileUri p) ∈ tsExtraLibs (loadDtsFromDir (Some fs) dir maxDepth cur st)
      <-> (Z.of_nat (String.length c) < 500 * 1024)%Z)
  /\ ((c, fileUri p) ∈ jsExtraLibs (loadDtsFromDir (Some fs) dir maxDepth cur st)
      <-> (Z.of_nat (String.length c) < 500 * 1024)%Z)
  /\ (p ∈ loadedFiles (loadDtsFromDir (Some fs) dir maxDepth cur st)
      <-> (Z.of_nat (String.length c) < 500 * 1024)%Z)
  /\ ((500 * 1024 <= Z.of_nat (String.length c))%Z ->
      registrations p (loadDtsFromDir (Some fs) dir maxDepth cur st) = 0%nat
      /\ forall c',
          ((c', fileUri p) ∉ tsExtraLibs (loadDtsFromDir (Some fs) dir maxDepth cur st))
          /\ ((c', fileUri p) ∉ jsExtraLibs (loadDtsFromDir (Some fs) dir maxDepth cur st)))
  /\ (Z.of_nat (String.length c) = (500 * 1024 - 1)%Z ->
      registrations p (loadDtsFromDir (Some fs) dir maxDepth cur st) = 1%nat
      /\ (c, fileUri p) ∈ tsExtraLibs (loadDtsFromDir (Some fs) dir maxDepth cur st)
      /\ (c, fileUri p) ∈ jsExtraLibs (loadDtsFromDir (Some fs) dir maxDepth cur st)).
Proof.
  intros Hv Hc Hout.
  set (st' := loadDtsFromDir (Some fs) dir maxDepth cur st).
  destruct (loadDtsFromDir_size_membership fs maxDepth dir p c cur st Hv Hout)
    as (Hiff & _ & _). fold st' in Hiff.
  assert (Hc' : consistent st').
  { eapply extends_consistent; [apply loadDtsFromDir_extends | exact Hc]. }
  assert (Hsince : readSince fs st st').
  { apply kept_loadDtsFromDir; [apply readSince_register | apply readSince_refl]. }
  pose proof (visits_read fs maxDepth dir cur p c Hv) as Hr.
  assert (Hsmall : (Z.of_nat (String.length c) < 500 * 1024)%Z ->
                   (c, fileUri p) ∈ tsExtraLibs st'
                   /\ (c, fileUri p) ∈ jsExtraLibs st'
                   /\ registrations p st' = 1%nat).
  { intros Hlt. apply (fresh_entry fs st); try done. by apply Hiff. }
  assert (Hbig : (500 * 1024 <= Z.of_nat (String.length c))%Z ->
                 registrations p st' = 0%nat
                 /\ forall c', ((c', fileUri p) ∉ tsExtraLibs st')
                               /\ ((c', fileUri p) ∉ jsExtraLibs st')).
  { intros Hge. apply absent_entry; [done |]. intros Hin. apply Hiff in Hin. lia. }
  assert (Hcases : (Z.of_nat (String.length c) < 500 * 1024)%Z
                   \/ (500 * 1024 <= Z.of_nat (String.length c))%Z) by lia.
  repeat apply conj.
  - intros H1. destruct Hcases as [Hlt | Hge]; [done |].
    destruct (Hbig Hge) as [H0 _]. rewrite H0 in H1. discriminate H1.
  - intros Hlt. by apply Hsmall.
  - intros Hin. destruct Hcases as [Hlt | Hge]; [done |].
    destruct (Hbig Hge) as [_ Hno]. by destruct (Hno c) as [Hno1 _].
  - intros Hlt. by apply Hsmall.
  - intros Hin. destruct Hcases as [Hlt | Hge]; [done |].
    destruct (Hbig Hge) as [_ Hno]. by destruct (Hno c) as [_ Hno2].
  - intros Hlt. by apply Hsmall.
  - apply Hiff.
  - apply Hiff.
  - exact Hbig.
  - intros Heq. assert (Hlt : (Z.of_nat (String.length c) < 500 * 1024)%Z) by lia.
    destruct (Hsmall Hlt) as (H1 & H2 & H3). done.
Qed.

(** C9. When a candidate exists but reading it fails, the failure is
    caught and the loop goes on with the extensions that remain.  So if
    [p] itself is absent, [p.ts] exists but cannot be read, and [p.tsx]
    exists and can be read, then [p.tsx] is the candidate that is read
    and registered for [p]: the first call that the load makes to each
    engine is for the uri of [p.tsx], with its content, and neither engine
    receives a call for the uri of [p.ts]. *)
Theorem loadSourceFile_read_failure_falls_through
        (tsconfigPaths : list (string * list string)) (tsconfigBaseUrl : string)
        (p c : string) (d : nat) (st : State) :
  fs_exists fs p = Some false ->
  fs_exists fs (p ++ ".ts") = Some true -> fs_readFile fs (p ++ ".ts") = None ->
  fs_exists fs (p ++ ".tsx") = Some true -> fs_readFile fs (p ++ ".tsx") = Some c ->
  (d <= depthBound)%nat -> consistent st ->
  p ∉ loadedFiles st -> (p ++ ".ts") ∉ loadedFiles st -> (p ++ ".tsx") ∉ loadedFiles st ->
  (forall call filePath depth ext exts st',
      fs_exists fs (filePath ++ ext) = Some true ->
      fs_readFile fs (filePath ++ ext) = None ->
      tryExtensions tsconfigPaths tsconfigBaseUrl call fs filePath depth (ext :: exts) st'
      = tryExtensions tsconfigPaths tsconfigBaseUrl call fs filePath depth exts st')
  /\ probe fs p extensions = Some (p ++ ".tsx", c)
  /\ (exists calls,
         tsExtraLibs (loadSourceFile (Some fs) tsconfigPaths tsconfigBaseUrl p d st)
         = (tsExtraLibs st ++ (c, fileUri (p ++ ".tsx")) :: calls)%list
         /\ jsExtraLibs (loadSourceFile (Some fs) tsconfigPaths tsconfigBaseUrl p d st)
            = (jsExtraLibs st ++ (c, fileUri (p ++ ".tsx")) :: calls)%list)
  /\ registrations (p ++ ".tsx")
       (loadSourceFile (Some fs) tsconfigPaths tsconfigBaseUrl p d st) = 1%nat
  /\ registrations (p ++ ".ts")
       (loadSourceFile (Some fs) tsconfigPaths tsconfigBaseUrl p d st) = 0%nat
  /\ (forall c',
         ((c', fileUri (p ++ ".ts"))
          ∉ tsExtraLibs (loadSourceFile (Some fs) tsconfigPaths tsconfigBaseUrl p d st))
         /\ ((c', fileUri (p ++ ".ts"))
             ∉ jsExtraLibs (loadSourceFile (Some fs) tsconfigPaths tsconfigBaseUrl p d st)))
  /\ (p ++ ".tsx") ∈ loadedFiles (loadSourceFile (Some fs) tsconfigPaths tsconfigBaseUrl p d st)
  /\ (p ++ ".ts") ∉ loadedFiles (loadSourceFile (Some fs) tsconfigPaths tsconfigBaseUrl p d st).
Proof.
  intros Hp Hts Hrts Htsx Hrtsx Hd Hc Hout Hout' Hout''.
  set (st' := loadSourceFile (Some fs) tsconfigPaths tsconfigBaseUrl p d st).
  destruct (loadSourceFile_read_failure_membership fs tsconfigPaths tsconfigBaseUrl p c d st
              Hp Hts Hrts Htsx Hrtsx Hd Hout Hout') as (Hloop & Hprobe & Hin & Hnot).
  fold st' in Hin, Hnot.
  assert (Hc' : consistent st').
  { eapply extends_consistent; [apply loadSourceFile_extends | exact Hc]. }
  assert (Hlog : exists calls,
             tsExtraLibs st' = (tsExtraLibs st ++ (c, fileUri (p ++ ".tsx")) :: calls)%list
             /\ jsExtraLibs st' = (jsExtraLibs st ++ (c, fileUri (p ++ ".tsx")) :: calls)%list).
  { pose proof (loadSourceFile_probe (Some fs) tsconfigPaths tsconfigBaseUrl
                                     fs p d st eq_refl Hd Hout) as H.
    rewrite Hprobe in H. symmetry in H. fold st' in H.
    assert (Hg : grows (addFileToMonaco (p ++ ".tsx") c st) st').
    { apply extends_grows.
      eapply (loadImports_preserved tsconfigPaths tsconfigBaseUrl
                (extends (addFileToMonaco (p ++ ".tsx") c st)));
        [| apply extends_refl | exact H].
      intros q k s s' Hs [= <-].
      eapply extends_trans; [exact Hs | apply loadSourceFile_extends]. }
    destruct Hg as (calls & Hts' & Hjs' & _). exists calls.
    rewrite Hts', Hjs'. unfold addFileToMonaco. rewrite decide_False by done.
    cbn [tsExtraLibs jsExtraLibs]. by rewrite <- !app_assoc. }
  destruct (absent_entry st' (p ++ ".ts") Hc' Hnot) as [Hzero Hno].
  repeat apply conj; try done.
  by apply registrations_loaded.
Qed.

End EngineLogs.

(** ** Runs on the concrete hosts, on the engine logs *)





Example mixed_run :
  registeredUris (loadSourceFile (Some mixedFs) [] "." "src/app.ts" 0 initState)
  = ["file:///src/app.ts"; "file:///src/util.ts"].
Proof. vm_compute. reflexivity. Qed.

Lemma loadDtsFromDir_size_filter_witness :
  registrations "node_modules/@types/x/lib/deep.d.ts"
    (loadDtsFromDir (Some typesFs) "node_modules/@types/x" 3 0 initState) = 1%nat
  /\ ("export declare const y: number", fileUri "node_modules/@types/x/lib/deep.d.ts")
     ∈ tsExtraLibs (loadDtsFromDir (Some typesFs) "node_modules/@types/x" 3 0 initState).
Proof.
  destruct (loadDtsFromDir_size_filter typesFs 3 "node_modules/@types/x"
              "node_modules/@types/x/lib/deep.d.ts" "export declare const y: number"
              0 initState typesFs_visits_deep consistent_init)
    as (Hreg & Hts & _).
  - apply not_elem_of_empty.
  - split; [apply Hreg | apply Hts]; vm_compute; reflexivity.
Defined.

Lemma loadSourceFile_read_failure_witness :
  registrations ("src/util" ++ ".tsx")
    (loadSourceFile (Some flakyFs) [] "." "src/util" 1 initState) = 1%nat
  /\ registrations ("src/util" ++ ".ts")
       (loadSourceFile (Some flakyFs) [] "." "src/util" 1 initState) = 0%nat.
Proof.
  destruct (loadSourceFile_read_failure_falls_through
              flakyFs [] "." "src/util" "export const u = 1" 1 initState)
    as (_ & _ & _ & Hin & Hout & _).
  - vm_compute. reflexivity.
  - vm_compute. reflexivity.
  - vm_compute. reflexivity.
  - vm_compute. reflexivity.
  - vm_compute. reflexivity.
  - unfold depthBound. lia.
  - apply consistent_init.
  - apply not_elem_of_empty.
  - apply not_elem_of_empty.
  - apply not_elem_of_empty.
  - split; assumption.
Defined.
